(** * Coupon campaign optimisation: the notebook [notebooks/simple_opt.ipynb]

    A shallow embedding of the notebook's Python cells, followed by the
    properties of the customers it generates, of its BAU baseline, of the
    integer program it hands to PuLP and of the returns it reports.

    - Python [int]s are [Z].  NumPy and pandas floats are exact rationals
      [Q], compared with [==]: the rounding error of binary floating point
      is not modelled.  Where a result depends on it (a float turned into
      an integer, two sums of the same terms added in different orders),
      the statement is restricted to the inputs on which exact and
      floating-point arithmetic agree, or made term by term.
    - Exceptions are an explicit error type, [result], with the bind of
      stdpp's monad notation.
    - [random.random()] is a stream [nat -> Q] of draws read through a
      cursor; [int] truncates, as in the Python 3.8 of the notebook.
    - A pandas [DataFrame] is its header and its rows in index order, each
      row a [Series] of labelled values; the row index is the default
      [RangeIndex] (row label = position).  Column labels are taken to be
      pairwise distinct: what pandas does with a repeated label is outside
      the model.
    - PuLP objects ([LpVariable], [LpAffineExpression], [LpConstraint],
      [LpProblem]) are records, the dictionaries keyed by [(i, j)] are
      [gmap]s, and the solver is any assignment of values to the variables. *)

From Stdlib Require Import Ascii QArith Qround Lqa.
From stdpp Require Import gmap strings list pretty sorting.

Local Open Scope Z_scope.

(** ** Exceptions *)

Inductive exn : Set := KeyError | IndexError | ValueError | PulpError.

Inductive result (A : Type) : Type :=
| Ok (a : A)
| Raise (e : exn).
Arguments Ok {A} a.
Arguments Raise {A} e.

Definition bind {A B} (r : result A) (f : A -> result B) : result B :=
  match r with
  | Ok a => f a
  | Raise e => Raise e
  end.

#[global] Instance result_ret : MRet result := fun A a => Ok a.
#[global] Instance result_bind : MBind result := fun A B f r => bind r f.

Definition is_ok {A} (r : result A) : Prop :=
  match r with Ok _ => True | Raise _ => False end.

(** ** Numbers *)

(** Sum of a list of rationals ([sum], [Series.sum], the value of [lpSum]). *)
Definition qsum (l : list Q) : Q := foldr Qplus 0%Q l.

(** [int(x)] on a float: truncation toward zero. *)
Definition py_int (q : Q) : Z := Z.quot (Qnum q) (Zpos (Qden q)).

(** [round(x)] (NumPy / pandas / Python 3): to the nearest integer, a half
    going to the even neighbour. *)
Definition py_round (q : Q) : Z :=
  let f := Qfloor q in
  let r := (q - inject_Z f)%Q in
  match (r ?= 1 # 2)%Q with
  | Lt => f
  | Gt => f + 1
  | Eq => if Z.even f then f else f + 1
  end.

(** [np.arange(lo, hi, 1)] on integers. *)
Definition arange (lo hi : Z) : list Z :=
  map (fun k : nat => lo + Z.of_nat k) (seq 0 (Z.to_nat (hi - lo))).

(** [range(n)]. *)
Definition range (n : Z) : list Z := arange 0 n.

(** [seq[idx]] on a list or a NumPy array: negative indices count from the
    end, anything else out of range raises [IndexError]. *)
Definition getitem {A} (l : list A) (idx : Z) : result A :=
  let len := Z.of_nat (length l) in
  let pos := if idx <? 0 then idx + len else idx in
  if (0 <=? pos) && (pos <? len) then
    match l !! Z.to_nat pos with
    | Some a => Ok a
    | None => Raise IndexError
    end
  else Raise IndexError.

(** ** The random source *)

(** Successive results of [random.random()], each in [[0, 1)]. *)
Definition Rng : Type := nat -> Q.

Definition rng_unit (rng : Rng) : Prop :=
  forall k : nat, (0 <= rng k)%Q /\ (rng k < 1)%Q.

(** [random.choices(population, k=k)] without weights:
    [[population[int(random() * n)] for _ in repeat(None, k)]] with
    [n = len(population)].  Reads the stream from [cur]; returns the sample
    and the advanced cursor.  The product is exact. *)
Fixpoint choices_go {A} (rng : Rng) (population : list A) (k : nat) (cur : nat)
  : result (list A * nat) :=
  match k with
  | O => Ok ([], cur)
  | S k' =>
      a ← getitem population
            (py_int (rng cur * inject_Z (Z.of_nat (length population))));
      rest ← choices_go rng population k' (S cur);
      Ok (a :: fst rest, snd rest)
  end.

Definition choices {A} (rng : Rng) (population : list A) (k : Z) (cur : nat)
  : result (list A * nat) :=
  choices_go rng population (Z.to_nat k) cur.

(** ** Control *)

(** Running a fallible function over a list, left to right: a list
    comprehension or [df.apply(f, axis=1)], stopping at the first exception. *)
Fixpoint traverse {A B} (f : A -> result B) (l : list A) : result (list B) :=
  match l with
  | [] => Ok []
  | a :: rest =>
      b ← f a;
      bs ← traverse f rest;
      Ok (b :: bs)
  end.

(** A [for] loop that updates a state and may raise. *)
Fixpoint foldM {A S} (f : A -> S -> result S) (l : list A) (s : S) : result S :=
  match l with
  | [] => Ok s
  | a :: rest => s' ← f a s; foldM f rest s'
  end.

(** [d[k]] on a dictionary. *)
Definition dict_get `{Countable K} {V} (d : gmap K V) (k : K) : result V :=
  match d !! k with
  | Some v => Ok v
  | None => Raise KeyError
  end.

(** ** Data frames *)

(** A row seen as a pandas [Series]: labelled values. *)
Definition Series : Type := list (string * Q).

(** [s[label]]. *)
Fixpoint series_get (s : Series) (label : string) : result Q :=
  match s with
  | [] => Raise KeyError
  | (l, v) :: rest => if decide (l = label) then Ok v else series_get rest label
  end.

(** [s[label] = v]: overwrites the entry or adds one at the end. *)
Fixpoint series_set (s : Series) (label : string) (v : Q) : Series :=
  match s with
  | [] => [(label, v)]
  | (l, w) :: rest =>
      if decide (l = label) then (l, v) :: rest
      else (l, w) :: series_set rest label v
  end.

(** A frame: the header and the rows in index order, each row carrying its
    labels (what [df.loc[i]] and [df.apply(f, axis=1)] hand out). *)
Record DataFrame : Type := {
  columns : list string;
  rows : list Series
}.

(** [list(df.index)]. *)
Definition index (df : DataFrame) : list Z := range (Z.of_nat (length (rows df))).

(** [df.loc[i]] for a row label [i] of the [RangeIndex]. *)
Definition loc (df : DataFrame) (i : Z) : result Series :=
  if (0 <=? i) && (i <? Z.of_nat (length (rows df))) then
    match rows df !! Z.to_nat i with
    | Some r => Ok r
    | None => Raise KeyError
    end
  else Raise KeyError.

(** [df.loc[i, cols] = values]: overwrites the cells of row [i], or enlarges
    the frame by one row when [i] is not a row label yet (the loop of
    [create_customers] only ever writes the next label). *)
Definition write_cells (cols : list string) (values : list Q) (r : Series)
  : Series :=
  foldl (fun s lv => series_set s (fst lv) (snd lv)) r (zip cols values).

Definition loc_set (df : DataFrame) (i : Z) (cols : list string)
    (values : list Q) : DataFrame :=
  if (0 <=? i) && (i <? Z.of_nat (length (rows df))) then
    {| columns := columns df;
       rows := alter (write_cells cols values) (Z.to_nat i) (rows df) |}
  else
    {| columns := columns df; rows := rows df ++ [write_cells cols values []] |}.

(** [df[label]]: a whole column, read through the rows; each row of a
    pandas frame carries the labels of the header. *)
Definition column (df : DataFrame) (label : string) : result (list Q) :=
  traverse (fun s => series_get s label) (rows df).

(** [df[label] = values]; pandas refuses a column of the wrong length. *)
Definition set_column (df : DataFrame) (label : string) (values : list Q)
  : result DataFrame :=
  if decide (length values = length (rows df)) then
    Ok {| columns := if decide (label ∈ columns df) then columns df
                     else columns df ++ [label];
          rows := zip_with (fun s v => series_set s label v) (rows df) values |}
  else Raise ValueError.

(** [df.apply(f, axis=1)] on a frame with at least one row: the result of
    [f] on each row, as a [Series].  (On a frame without rows pandas hands
    back a frame, which cannot be assigned to a single column.) *)
Definition apply_rows (f : Series -> result Q) (df : DataFrame)
  : result (list Q) :=
  traverse f (rows df).

(** ** Cell 2: [create_customers] *)

(** ['prob_coupon_{}'.format(j)]. *)
Definition prob_coupon (j : Z) : string := "prob_coupon_" +:+ pretty j.

Definition cltv_label : string := "cltv".

(** [np.arange(1, n, 1)/100]. *)
Definition mults (n : Z) : list Q :=
  map (fun k => (inject_Z k / 100)%Q) (arange 1 n).

(** [np.arange(30, 120, 1)]. *)
Definition cltvs : list Z := arange 30 120.

(** [[j*randommults[i] for j in np.arange(1,len(c)+1,1)]]. *)
Definition probs_row (m : Q) (ncoupons : nat) : list Q :=
  map (fun j => (inject_Z j * m)%Q) (arange 1 (Z.of_nat ncoupons + 1)).

(** The body of [for i in range(n)], folded over the remaining indices. *)
Fixpoint fill_rows (randommults : list Q) (randomcltvs : list Z)
    (cols : list string) (ncoupons : nat) (idx : list Z)
    (customers_df : DataFrame) : result DataFrame :=
  match idx with
  | [] => Ok customers_df
  | i :: rest =>
      m ← getitem randommults i;
      v ← getitem randomcltvs i;
      let probs := probs_row m ncoupons ++ [inject_Z v] in
      fill_rows randommults randomcltvs cols ncoupons rest
        (loc_set customers_df i cols probs)
  end.

Definition create_customers (rng : Rng) (n : Z) (c : list Z)
  : result DataFrame :=
  rm ← choices rng (mults n) n 0%nat;
  rc ← choices rng cltvs n (snd rm);
  let cols_prob_coupon := map prob_coupon c in
  let customers_df :=
    {| columns := cols_prob_coupon ++ [cltv_label]; rows := [] |} in
  fill_rows (fst rm) (fst rc) (cols_prob_coupon ++ [cltv_label]) (length c)
    (range n) customers_df.

(** ** Cell 4: the candidate coupons, read off the header *)

(** [s.startswith(p)]. *)
Fixpoint starts_with (p s : string) : bool :=
  match p, s with
  | EmptyString, _ => true
  | String a p', String b s' => bool_decide (a = b) && starts_with p' s'
  | String _ _, EmptyString => false
  end.

(** [needle in s]. *)
Fixpoint contains (needle s : string) : bool :=
  starts_with needle s ||
  match s with
  | EmptyString => false
  | String _ s' => contains needle s'
  end.

(** [s.split(sep)[-1]]: what follows the last separator; [acc] collects the
    current field. *)
Fixpoint last_field (sep : ascii) (s acc : string) : string :=
  match s with
  | EmptyString => acc
  | String a s' =>
      if decide (a = sep) then last_field sep s' EmptyString
      else last_field sep s' (acc +:+ String a EmptyString)
  end.

Definition digit_of (a : ascii) : option N :=
  let n := N_of_ascii a in
  if (48 <=? n)%N && (n <=? 57)%N then Some (n - 48)%N else None.

Fixpoint digits_go (s : string) (acc : N) : option N :=
  match s with
  | EmptyString => Some acc
  | String a s' =>
      match digit_of a with
      | Some dg => digits_go s' (acc * 10 + dg)%N
      | None => None
      end
  end.

(** A non-empty run of decimal digits. *)
Definition digits (s : string) : option N :=
  match s with
  | EmptyString => None
  | _ => digits_go s 0%N
  end.

(** [int(s)] on a string: an optional sign and decimal digits.  (Python
    also strips surrounding white space and accepts single underscores
    between digits; neither can reach it here in a name made by
    [format].) *)
Definition int_of_str (s : string) : result Z :=
  match s with
  | String "-" s' =>
      match digits s' with
      | Some n => Ok (- Z.of_N n)
      | None => Raise ValueError
      end
  | String "+" s' =>
      match digits s' with
      | Some n => Ok (Z.of_N n)
      | None => Raise ValueError
      end
  | _ =>
      match digits s with
      | Some n => Ok (Z.of_N n)
      | None => Raise ValueError
      end
  end.

(** [[int(col.split('_')[-1]) for col in df.columns if 'cltv' not in col]]. *)
Definition coupons_of (df : DataFrame) : result (list Z) :=
  traverse (fun col => int_of_str (last_field "_" col EmptyString))
    (filter (fun col => contains cltv_label col = false) (columns df)).

(** ** Cell 4: the BAU baseline *)

Definition coupon_bau_label : string := "coupon_bau".
Definition prob_coupon_bau_label : string := "prob_coupon_bau".
Definition roi_bau_label : string := "roi_bau".

(** [np.array(round(df['cltv']*0.1)).astype(int)]: [round] leaves an integral
    float, which [astype(int)] reads back as that integer.  The product is
    exact here; it gives the integer the code computes when the CLTV is a
    whole number of moderate size, as the generated ones are. *)
Definition coupons_bau (df : DataFrame) : result (list Z) :=
  cl ← column df cltv_label;
  Ok (map (fun v => py_round (v * (1 # 10))%Q) cl).

(** [lambda x: x['prob_coupon_{}'.format(int(x[coupon_label]))]]. *)
Definition prob_lookup (coupon_label : string) (x : Series) : result Q :=
  cp ← series_get x coupon_label;
  series_get x (prob_coupon (py_int cp)).

(** [df[p] * (df[cl] - df[cp])], element by element. *)
Definition roi_values (p cl cp : list Q) : list Q :=
  zip_with Qmult p (zip_with Qminus cl cp).

Definition add_bau (df : DataFrame) : result DataFrame :=
  cb ← coupons_bau df;
  df1 ← set_column df coupon_bau_label (map inject_Z cb);
  pb ← apply_rows (prob_lookup coupon_bau_label) df1;
  df2 ← set_column df1 prob_coupon_bau_label pb;
  p ← column df2 prob_coupon_bau_label;
  cl ← column df2 cltv_label;
  cp ← column df2 coupon_bau_label;
  set_column df2 roi_bau_label (roi_values p cl cp).

(** Cell 5: [ROI_BAU = df['roi_bau'].sum()]. *)
Definition ROI_BAU (df : DataFrame) : result Q :=
  df' ← add_bau df;
  roi ← column df' roi_bau_label;
  Ok (qsum roi).

(** ** Cells 11 and 12: the optimised policy

    Cell 10 leaves in [df['coupon_opt']] the coupon read back from the
    solver, or NaN for a customer none of whose variables is 1.  It is the
    only column that can hold NaN, so it travels beside the frame as a list
    of options ([None] for NaN) until [int(...)] has been applied to it. *)

Definition prob_coupon_opt_label : string := "prob_coupon_opt".
Definition roi_opt_label : string := "roi_opt".

(** [int(x['coupon_opt'])] raises [ValueError] on NaN. *)
Definition prob_lookup_opt (x : Series) (coupon_opt : option Q) : result Q :=
  match coupon_opt with
  | None => Raise ValueError
  | Some cp => series_get x (prob_coupon (py_int cp))
  end.

Fixpoint apply_rows_opt (rs : list Series) (coupon_opt : list (option Q))
  : result (list Q) :=
  match rs, coupon_opt with
  | x :: rs', o :: os =>
      p ← prob_lookup_opt x o;
      ps ← apply_rows_opt rs' os;
      Ok (p :: ps)
  | _, _ => Ok []
  end.

Definition add_opt (df : DataFrame) (coupon_opt : list (option Q))
  : result DataFrame :=
  po ← apply_rows_opt (rows df) coupon_opt;
  df1 ← set_column df prob_coupon_opt_label po;
  p ← column df1 prob_coupon_opt_label;
  cl ← column df1 cltv_label;
  set_column df1 roi_opt_label
    (roi_values p cl (map (default 0%Q) coupon_opt)).

Definition ROI_OPT (df : DataFrame) (coupon_opt : list (option Q))
  : result Q :=
  df' ← add_opt df coupon_opt;
  roi ← column df' roi_opt_label;
  Ok (qsum roi).

(** ** PuLP *)

Inductive LpCategory : Set := LpContinuous | LpInteger | LpBinary.

Record LpVariable : Type := {
  var_name : string;
  cat : LpCategory;
  lowBound : option Q;
  upBound : option Q
}.

(** Names go through [LpElement.setName], which turns each of the characters
    [-+[] ->/] into an underscore. *)
Definition illegal_char (a : ascii) : bool :=
  bool_decide (a ∈ ["-"; "+"; "["; "]"; " "; ">"; "/"]%char).

Fixpoint lp_name (s : string) : string :=
  match s with
  | EmptyString => EmptyString
  | String a r => String (if illegal_char a then "_"%char else a) (lp_name r)
  end.

(** [plp.LpVariable(name, lowBound, upBound, cat)]; a binary variable is
    stored as an integer one with bounds 0 and 1. *)
Definition mkLpVariable (name : string) (lo up : option Q) (ct : LpCategory)
  : LpVariable :=
  match ct with
  | LpBinary =>
      {| var_name := lp_name name; cat := LpInteger;
         lowBound := Some 0%Q; upBound := Some 1%Q |}
  | _ =>
      {| var_name := lp_name name; cat := ct; lowBound := lo; upBound := up |}
  end.

(** A variable object is hashed by identity.  The only variables the
    notebook keeps are the values of the dictionary [x], one per key, so the
    key [(i, j)] stands for the object wherever an expression refers to it. *)
Abbreviation VarKey := (Z * Z)%type.

(** [LpAffineExpression]: a dictionary from variables to coefficients, and a
    constant. *)
Record LpAffineExpression : Type := {
  terms : gmap VarKey Q;
  constant : Q
}.

Definition emptyExpr : LpAffineExpression := {| terms := ∅; constant := 0%Q |}.

(** [LpAffineExpression(v)] for a variable [v]. *)
Definition varExpr (k : VarKey) : LpAffineExpression :=
  {| terms := {[ k := 1%Q ]}; constant := 0%Q |}.

Definition Qnonzero (q : Q) : bool := negb (Qeq_bool q 0).

(** [e * other] for a number [other]: nothing is copied when it is zero. *)
Definition scale (e : LpAffineExpression) (other : Q) : LpAffineExpression :=
  if Qnonzero other then
    {| terms := (fun coef => (other * coef)%Q) <$> terms e;
       constant := (constant e * other)%Q |}
  else emptyExpr.

(** [addterm(key, value)]. *)
Definition addterm (ts : gmap VarKey Q) (key : VarKey) (value : Q)
  : gmap VarKey Q :=
  match ts !! key with
  | Some y => if Qnonzero y then <[key := (y + value)%Q]> ts
              else <[key := value]> ts
  | None => <[key := value]> ts
  end.

(** [self.addInPlace(other)] for an expression [other]. *)
Definition addInPlace (self other : LpAffineExpression) : LpAffineExpression :=
  {| terms := map_fold (fun key value ts => addterm ts key value)
                (terms self) (terms other);
     constant := (constant self + constant other)%Q |}.

(** [plp.lpSum(vector)]. *)
Definition lpSum (vector : list LpAffineExpression) : LpAffineExpression :=
  foldl addInPlace emptyExpr vector.

(** The value of an expression under an assignment of the variables, as an
    exact sum. *)
Definition value (e : LpAffineExpression) (v : VarKey -> Q) : Q :=
  (constant e
   + qsum (map (fun kc => snd kc * v (fst kc)) (map_to_list (terms e))))%Q.

Inductive LpConstraintSense : Set :=
  LpConstraintLE | LpConstraintEQ | LpConstraintGE.

#[global] Instance LpConstraintSense_eq_dec : EqDecision LpConstraintSense.
Proof. solve_decision. Defined.

(** [LpConstraint]: the expression [e - rhs] compared with zero. *)
Record LpConstraint : Type := {
  c_expr : LpAffineExpression;
  c_sense : LpConstraintSense;
  c_name : string
}.

Definition mkLpConstraint (e : LpAffineExpression) (sense : LpConstraintSense)
    (rhs : Q) (name : string) : LpConstraint :=
  {| c_expr := {| terms := terms e; constant := (constant e - rhs)%Q |};
     c_sense := sense;
     c_name := lp_name name |}.

(** [constraint.valid()] with exact arithmetic. *)
Definition valid (ct : LpConstraint) (v : VarKey -> Q) : Prop :=
  match c_sense ct with
  | LpConstraintLE => (value (c_expr ct) v <= 0)%Q
  | LpConstraintEQ => (value (c_expr ct) v == 0)%Q
  | LpConstraintGE => (0 <= value (c_expr ct) v)%Q
  end.

Inductive LpSense : Set := LpMinimize | LpMaximize.

Record LpProblem : Type := {
  p_name : string;
  sense : LpSense;
  objective : option LpAffineExpression;
  p_constraints : list (string * LpConstraint)
}.

(** [plp.LpProblem(name)]: minimisation unless told otherwise. *)
Definition mkLpProblem (name : string) : LpProblem :=
  {| p_name := lp_name name; sense := LpMinimize; objective := None;
     p_constraints := [] |}.

(** [addConstraint]: a constraint whose name is taken is refused. *)
Definition addConstraint (p : LpProblem) (ct : LpConstraint)
  : result LpProblem :=
  if decide (c_name ct ∈ (p_constraints p).*1) then Raise PulpError
  else Ok {| p_name := p_name p; sense := sense p; objective := objective p;
             p_constraints := p_constraints p ++ [(c_name ct, ct)] |}.

Definition set_sense (p : LpProblem) (s : LpSense) : LpProblem :=
  {| p_name := p_name p; sense := s; objective := objective p;
     p_constraints := p_constraints p |}.

Definition setObjective (p : LpProblem) (obj : LpAffineExpression)
  : LpProblem :=
  {| p_name := p_name p; sense := sense p; objective := Some obj;
     p_constraints := p_constraints p |}.

(** A Python dictionary whose insertion order is observed: an association
    list; [d[k] = v] overwrites in place or appends. *)
Fixpoint odict_set {V} (d : list (Z * V)) (k : Z) (v : V) : list (Z * V) :=
  match d with
  | [] => [(k, v)]
  | (k', w) :: rest =>
      if decide (k' = k) then (k', v) :: rest
      else (k', w) :: odict_set rest k v
  end.

(** ** Cell 6: the candidate coupons of each user *)

(** [{i: coupons for i in set_users}]. *)
Definition coupons_per_user (set_users coupons : list Z) : gmap Z (list Z) :=
  foldl (fun d i => <[i := coupons]> d) ∅ set_users.

(** ** Cell 7: the input matrices *)

Record Matrices : Type := {
  x : gmap VarKey LpVariable;
  a : gmap VarKey Z;
  c : gmap VarKey Q;
  d : gmap VarKey Q
}.

(** ["x_{0}_{1}".format(i, j)]. *)
Definition x_name (i j : Z) : string := "x_" +:+ pretty i +:+ "_" +:+ pretty j.

(** The body of the inner loop. *)
Definition matrices_cell (df : DataFrame) (i j : Z) (m : Matrices)
  : result Matrices :=
  let xv := mkLpVariable (x_name i j) (Some 0%Q) (Some 1%Q) LpInteger in
  ri ← loc df i;
  p ← series_get ri (prob_coupon j);
  ri' ← loc df i;
  cl ← series_get ri' cltv_label;
  Ok {| x := <[(i, j) := xv]> (x m);
        a := <[(i, j) := j]> (a m);
        c := <[(i, j) := p]> (c m);
        d := <[(i, j) := (cl - inject_Z j)%Q]> (d m) |}.

Definition matrices_user (df : DataFrame) (cpu : gmap Z (list Z)) (i : Z)
    (m : Matrices) : result Matrices :=
  js ← dict_get cpu i;
  foldM (matrices_cell df i) js m.

Definition matrices (df : DataFrame) (set_users : list Z)
    (cpu : gmap Z (list Z)) : result Matrices :=
  foldM (matrices_user df cpu) set_users
    {| x := ∅; a := ∅; c := ∅; d := ∅ |}.

(** [b = (df['cltv'].sum())/10]. *)
Definition budget (df : DataFrame) : result Q :=
  cl ← column df cltv_label;
  Ok (qsum cl / 10)%Q.

(** ** Cell 8: the constraints *)

(** [for i in set_users for j in coupons_per_user[i]]. *)
Definition user_coupon_pairs {E} (cpu : gmap Z (list Z)) (set_users : list Z)
    (f : Z -> Z -> result E) : result (list E) :=
  ess ← traverse (fun i => js ← dict_get cpu i; traverse (f i) js) set_users;
  Ok (concat ess).

(** [x[i, j]] as a summand. *)
Definition x_term (m : Matrices) (i j : Z) : result LpAffineExpression :=
  _ ← dict_get (x m) (i, j);
  Ok (varExpr (i, j)).

(** ["constraint_{0}".format(i)]. *)
Definition constraint_name (i : Z) : string := "constraint_" +:+ pretty i.

(** The value of the dictionary comprehension at the key [i]. *)
Definition user_constraint (m : Matrices) (cpu : gmap Z (list Z)) (i : Z)
  : result LpConstraint :=
  js ← dict_get cpu i;
  es ← traverse (x_term m i) js;
  js' ← dict_get cpu i;
  Ok (mkLpConstraint (lpSum es) LpConstraintEQ
        (if decide (0 < length js')%nat then 1 else 0)%Q
        (constraint_name i)).

(** [a[i, j] * x[i, j]]. *)
Definition budget_term (m : Matrices) (i j : Z) : result LpAffineExpression :=
  aij ← dict_get (a m) (i, j);
  _ ← dict_get (x m) (i, j);
  Ok (scale (varExpr (i, j)) (inject_Z aij)).

Definition budget_constraint (m : Matrices) (cpu : gmap Z (list Z))
    (set_users : list Z) (b : Q) : result LpConstraint :=
  es ← user_coupon_pairs cpu set_users (budget_term m);
  Ok (mkLpConstraint (lpSum es) LpConstraintLE b "constraint_b").

Definition constraints_dict (m : Matrices) (cpu : gmap Z (list Z))
    (set_users : list Z) (b : Q) : result (list (Z * LpConstraint)) :=
  cs ← foldM (fun i dict => ct ← user_constraint m cpu i;
                            Ok (odict_set dict i ct)) set_users [];
  cb ← budget_constraint m cpu set_users b;
  Ok (odict_set cs (-1) cb).

(** ** Cell 9: the objective and the problem *)

(** [x[i, j] * c[i, j] * d[i,j]]. *)
Definition objective_term (m : Matrices) (i j : Z)
  : result LpAffineExpression :=
  _ ← dict_get (x m) (i, j);
  cij ← dict_get (c m) (i, j);
  dij ← dict_get (d m) (i, j);
  Ok (scale (scale (varExpr (i, j)) cij) dij).

Record Formulation : Type := {
  set_users : list Z;
  inputs : Matrices;
  b : Q;
  constraints : list (Z * LpConstraint);
  opt_model : LpProblem
}.

(** Cells 6 to 9 on a frame [df] and the candidate coupons [coupons]. *)
Definition formulate (df : DataFrame) (coupons : list Z) : result Formulation :=
  let users := index df in
  let cpu := coupons_per_user users coupons in
  bud ← budget df;
  m ← matrices df users cpu;
  cs ← constraints_dict m cpu users bud;
  es ← user_coupon_pairs cpu users (objective_term m);
  let obj := lpSum es in
  p ← foldM (fun kc p => addConstraint p (snd kc)) cs
         (mkLpProblem "Optimization Coupon Model");
  Ok {| set_users := users; inputs := m; b := bud; constraints := cs;
        opt_model := setObjective (set_sense p LpMaximize) obj |}.

(** ** The cells in sequence *)

(** Cells 4 to 9, on the frame read in cell 3. *)
Definition notebook (df : DataFrame) : result Formulation :=
  coupons ← coupons_of df;
  df' ← add_bau df;
  formulate df' coupons.

(** ** Cell 10: reading the solution back

    [opt_model.solve()] hands the problem to an external solver, which
    leaves a value in each variable: [varValue] below.  What follows it in
    the cell is modelled. *)

(** [s.split(sep)]: the fields between the separators, in order; [acc]
    collects the current field. *)
Fixpoint split_go (sep : ascii) (s acc : string) : list string :=
  match s with
  | EmptyString => [acc]
  | String a s' =>
      if decide (a = sep) then acc :: split_go sep s' EmptyString
      else split_go sep s' (acc +:+ String a EmptyString)
  end.

Definition split (sep : ascii) (s : string) : list string :=
  split_go sep s EmptyString.

(** [int(var.name.split('_')[1]), int(var.name.split('_')[2])]: the tuple is
    evaluated from left to right. *)
Definition parse_name (name : string) : result (Z * Z) :=
  si ← getitem (split "_" name) 1;
  i ← int_of_str si;
  sj ← getitem (split "_" name) 2;
  j ← int_of_str sj;
  Ok (i, j).

(** The variables an expression mentions. *)
Definition expr_vars (e : LpAffineExpression) : list VarKey :=
  (map_to_list (terms e)).*1.

(** The variables of the objective and of the constraints, each once (PuLP
    collects them from the objective first, then constraint by constraint,
    skipping the ones it has seen; the order is then given by the sort
    below). *)
Definition problem_vars (p : LpProblem) : list VarKey :=
  remove_dups
    (from_option expr_vars [] (objective p) ++
     concat (map (fun nc => expr_vars (c_expr (snd nc))) (p_constraints p))).

(** Order of two variables by name: strings compare character by character,
    by code point. *)
Definition name_le (v w : VarKey * LpVariable) : Prop :=
  String.leb (var_name (snd v)) (var_name (snd w)) = true.

#[global] Instance name_le_dec v w : Decision (name_le v w).
Proof. unfold name_le. apply _. Defined.

(** [opt_model.variables()]: the variables of the problem sorted by name.
    The objects are the values of the dictionary [xs]; no expression holds a
    variable that is not one of them, each term being made from [x[i, j]].
    The names in [xs] being pairwise distinct, the sorted list is the same
    whatever the sorting algorithm. *)
Definition variables (xs : gmap VarKey LpVariable) (p : LpProblem)
  : list (VarKey * LpVariable) :=
  merge_sort name_le (omap (fun k => pair k <$> xs !! k) (problem_vars p)).

(** [var.varValue == 1]; the value is [None] until a solver has set it. *)
Definition is_one (varValue : option Q) : bool :=
  match varValue with
  | Some q => Qeq_bool q 1
  | None => false
  end.

(** The body of the loop of cell 10.  The column [coupon_opt] is kept by row
    label; [df.loc[i, 'coupon_opt'] = j] overwrites the entry of the label
    [i], or enlarges the column by that label. *)
Definition read_var (varValue : VarKey -> option Q) (var : VarKey * LpVariable)
    (coupon_opt : list (Z * option Q)) : result (list (Z * option Q)) :=
  if is_one (varValue (fst var)) then
    ij ← parse_name (var_name (snd var));
    Ok (odict_set coupon_opt (fst ij) (Some (inject_Z (snd ij))))
  else Ok coupon_opt.

(** Cell 10 after [solve()]: [df['coupon_opt'] = np.NaN], then the loop over
    [opt_model.variables()].  [varValue] is what the solver left in the
    variables. *)
Definition read_back (f : Formulation) (varValue : VarKey -> option Q)
    (df : DataFrame) : result (list (Z * option Q)) :=
  foldM (read_var varValue) (variables (x (inputs f)) (opt_model f))
    (map (fun i => (i, None)) (index df)).

(** ** The notebook's data set (the output of cell 3) *)

Definition notebook_coupons : list Z := [4; 5; 6; 7; 8; 9; 10; 11].

Definition notebook_row (mult cltv : Z) : Series :=
  zip (map prob_coupon notebook_coupons ++ [cltv_label])
      (probs_row (inject_Z mult / 100) 8 ++ [inject_Z cltv]).

Definition notebook_df : DataFrame :=
  {| columns := map prob_coupon notebook_coupons ++ [cltv_label];
     rows := [ notebook_row 6 98; notebook_row 6 82; notebook_row 3 112;
               notebook_row 1 91; notebook_row 6 80; notebook_row 1 87;
               notebook_row 4 35; notebook_row 6 40; notebook_row 4 46;
               notebook_row 1 80 ] |}.

(** * Vocabulary of the statements *)

(** ** Inputs used as examples *)

(** A random source that always draws [u]. *)
Definition rng_const (u : Q) : Rng := fun _ => u.

(** A frame with one customer inside and one outside the candidate range. *)
Definition two_customers : DataFrame :=
  {| columns := map prob_coupon notebook_coupons ++ [cltv_label];
     rows := [notebook_row 6 98; notebook_row 4 30] |}.

(** The coupons cell 10 read back from the solver in the notebook run. *)
Definition notebook_coupon_opt : list (option Q) :=
  map (fun z => Some (inject_Z z)) [11; 11; 11; 4; 11; 4; 4; 9; 6; 4].

(** ** Strings *)

(** Every character of a string satisfies [P]. *)
Fixpoint str_Forall (P : ascii -> Prop) (s : string) : Prop :=
  match s with
  | EmptyString => True
  | String a0 r => P a0 /\ str_Forall P r
  end.

Definition is_digit (a0 : ascii) : Prop := is_Some (digit_of a0).

(** ** Customers *)

(** The row [create_customers] writes for the multiplier [m] and the CLTV
    [v]. *)
Definition new_row (cols : list string) (nc : nat) (m : Q) (v : Z) : Series :=
  write_cells cols (probs_row m nc ++ [inject_Z v]) [].

Definition get0 (r : result Q) : Q :=
  match r with Ok q => q | Raise _ => 0%Q end.

(** The acceptance probability of coupon [j] for customer [i]. *)
Definition acceptance (df : DataFrame) (i j : Z) : result Q :=
  ri ← loc df i; series_get ri (prob_coupon j).

(** The CLTV of customer [i]. *)
Definition cltv_of (df : DataFrame) (i : Z) : result Q :=
  ri ← loc df i; series_get ri cltv_label.

(** ** Return of a coupon policy, in the words of the specification *)

(** Expected net return of handing the coupon [cp] to the customer of row
    [x]: acceptance probability of that coupon times (CLTV minus coupon). *)
Definition expected_return (x : Series) (cp : Q) : result Q :=
  p ← series_get x (prob_coupon (py_int cp));
  v ← series_get x cltv_label;
  Ok (p * (v - cp))%Q.

(** ROI of a policy: the sum of the expected net returns over all
    customers, [assigned] holding each customer's coupon. *)
Definition policy_roi (df : DataFrame) (assigned : list Q) : result Q :=
  rs ← traverse (fun xc => expected_return (fst xc) (snd xc))
         (zip (rows df) assigned);
  Ok (qsum rs).

(** ** Sums over customers and coupons *)

(** Sum over every customer and every candidate coupon. *)
Definition assignment_sum (users coupons : list Z) (f : Z -> Z -> Q) : Q :=
  qsum (map (fun i => qsum (map (f i) coupons)) users).

(** Every pair of a customer and a candidate coupon, in loop order. *)
Definition all_pairs (users coupons : list Z) : list VarKey :=
  concat (map (fun i => map (fun j => (i, j)) coupons) users).

(** The variable part of [value]. *)
Definition tsum (ts : gmap VarKey Q) (v : VarKey -> Q) : Q :=
  qsum (map (fun kc => snd kc * v (fst kc))%Q (map_to_list ts)).

(** ** Invariant of the loop of cell 7 *)

(** The four dictionaries agree with the frame at the key [(i, j)]. *)
Definition cell_ok (df : DataFrame) (m : Matrices) (i j : Z) : Prop :=
  x m !! (i, j) =
    Some (mkLpVariable (x_name i j) (Some 0%Q) (Some 1%Q) LpInteger) /\
  a m !! (i, j) = Some j /\
  exists p cl,
    acceptance df i j = Ok p /\ cltv_of df i = Ok cl /\
    c m !! (i, j) = Some p /\ d m !! (i, j) = Some (cl - inject_Z j)%Q.

(** The keys written so far are exactly [keys], and each is right. *)
Definition matrices_inv (df : DataFrame) (keys : list VarKey) (m : Matrices)
  : Prop :=
  (forall i j, (i, j) ∈ keys -> cell_ok df m i j) /\
  (forall k, is_Some (x m !! k) -> k ∈ keys).

(** The summand of the objective at [(i, j)], read off the frame. *)
Definition objective_summand (df : DataFrame) (i j : Z) : LpAffineExpression :=
  scale (scale (varExpr (i, j)) (get0 (acceptance df i j)))
        (get0 (cltv_of df i) - inject_Z j).

(** ** More inputs used as examples *)

(** The coupons the notebook's BAU cell assigns. *)
Definition notebook_coupons_bau : list Z := [10; 8; 11; 9; 8; 9; 4; 4; 5; 8].

(** The coupons of the solution the notebook prints. *)
Definition notebook_solution : list Z := [11; 11; 11; 4; 11; 4; 4; 9; 6; 4].

(** A frame none of whose customers can afford the cheapest coupon. *)
Definition poor_customers : DataFrame :=
  {| columns := map prob_coupon notebook_coupons ++ [cltv_label];
     rows := [notebook_row 6 35; notebook_row 4 38] |}.

(** ** The constraints, solutions and policies *)

(** The labels of the three columns cell 4 adds. *)
Definition bau_labels : list string :=
  [coupon_bau_label; prob_coupon_bau_label; roi_bau_label].

(** The constraint of customer [i], as cell 8 builds it. *)
Definition user_row (coupons : list Z) (i : Z) : LpConstraint :=
  mkLpConstraint (lpSum (map (fun j => varExpr (i, j)) coupons))
    LpConstraintEQ
    (if decide (0 < length coupons)%nat then 1 else 0)%Q
    (constraint_name i).

(** The budget constraint, as cell 8 builds it. *)
Definition budget_row (users coupons : list Z) (bud : Q) : LpConstraint :=
  mkLpConstraint
    (lpSum (concat (map (fun i =>
              map (fun j => scale (varExpr (i, j)) (inject_Z j)) coupons)
              users)))
    LpConstraintLE bud "constraint_b".

(** [constraint.valid()] as a test. *)
Definition validb (ct : LpConstraint) (v : VarKey -> Q) : bool :=
  match c_sense ct with
  | LpConstraintLE => Qle_bool (value (c_expr ct) v) 0
  | LpConstraintEQ => Qeq_bool (value (c_expr ct) v) 0
  | LpConstraintGE => Qle_bool 0 (value (c_expr ct) v)
  end.

(** A solution the solver may return: every decision variable is 0 or 1 and
    every constraint of the problem holds. *)
Definition feasible (f : Formulation) (v : VarKey -> Q) : Prop :=
  (forall k, is_Some (x (inputs f) !! k) -> (v k == 0)%Q \/ (v k == 1)%Q) /\
  (forall nc, nc ∈ p_constraints (opt_model f) -> valid (snd nc) v).

(** The assignment that gives customer number [k] the coupon [js !! k]. *)
Definition indicator (js : list Z) (k : VarKey) : Q :=
  if decide (0 <= fst k /\ js !! Z.to_nat (fst k) = Some (snd k)) then 1%Q
  else 0%Q.

(** One step of the loop of cell 10 on a variable whose name reads back as
    its key. *)
Definition mark (varValue : VarKey -> option Q) (col : list (Z * option Q))
    (k : VarKey) : list (Z * option Q) :=
  if is_one (varValue k) then odict_set col (fst k) (Some (inject_Z (snd k)))
  else col.

(** The assignment that has the single variable [k] at 1: the value of an
    expression at it is the coefficient of [k]. *)
Definition only (k k' : VarKey) : Q := if decide (k' = k) then 1%Q else 0%Q.

(** ** Frames as the data set holds them *)

(** A CLTV that is a whole number below [2^31] in absolute value, as the
    generated ones are.  On such a value the floating-point product
    [cltv * 0.1] rounds to the same integer as the exact tenth, and
    [astype(int)] cannot overflow: the exact arithmetic of [coupons_bau]
    is the arithmetic of the code. *)
Definition whole_cltvb (v : Q) : bool :=
  Qeq_bool (inject_Z (Qfloor v)) v && (Z.abs (Qfloor v) <? 2 ^ 31).

Definition whole_cltv (v : Q) : Prop := whole_cltvb v = true.

(** Every CLTV in the frame is such a number. *)
Definition whole_cltvs (df : DataFrame) : Prop :=
  forall r v, r ∈ rows df -> series_get r cltv_label = Ok v -> whole_cltv v.

Definition whole_cltvsb (df : DataFrame) : bool :=
  forallb (fun r => match series_get r cltv_label with
                    | Ok v => whole_cltvb v
                    | Raise _ => true
                    end) (rows df).

(** Every row carries exactly the labels of the header, as the rows of a
    pandas frame do. *)
Definition labelled (df : DataFrame) : Prop :=
  forall r, r ∈ rows df -> r.*1 = columns df.

Definition labelledb (df : DataFrame) : bool :=
  forallb (fun r : Series => bool_decide (r.*1 = columns df)) (rows df).

(** Two customers whose tenth of the CLTV falls halfway between two
    integers: 4.5 and 5.5. *)
Definition tie_customers : DataFrame :=
  {| columns := map prob_coupon notebook_coupons ++ [cltv_label];
     rows := [notebook_row 6 45; notebook_row 4 55] |}.

(** * Properties *)

(** ** The error monad and loops *)

Lemma bind_Ok {A B} (r : result A) (f : A -> result B) (b0 : B) :
  (r ≫= f) = Ok b0 -> exists a0, r = Ok a0 /\ f a0 = Ok b0.
Proof. destruct r as [a0|e]; simpl; [eauto | discriminate]. Qed.

Tactic Notation "inv_bind" hyp(H) "as" ident(y) ident(Hy) :=
  apply bind_Ok in H as (y & Hy & H).

Lemma is_ok_Ok {A} (r : result A) : is_ok r -> exists a0, r = Ok a0.
Proof. destruct r as [a0|e]; [eauto | done]. Qed.

Lemma result_inv {A} (P : A -> Prop) (r : result A) :
  match r with Ok a0 => P a0 | Raise _ => False end ->
  exists a0, r = Ok a0 /\ P a0.
Proof. destruct r as [a0|e]; [eauto | done]. Qed.

Lemma traverse_cons {A B} (f : A -> result B) (a0 : A) (l : list A) :
  traverse f (a0 :: l) = (b0 ← f a0; bs ← traverse f l; Ok (b0 :: bs)).
Proof. reflexivity. Qed.

Lemma traverse_Ok {A B} (f : A -> result B) l bs :
  traverse f l = Ok bs -> Forall2 (fun a0 b0 => f a0 = Ok b0) l bs.
Proof.
  revert bs. induction l as [|a0 l IH]; simpl; intros bs H.
  - injection H as <-. constructor.
  - inv_bind H as b0 Hb. inv_bind H as bs0 Hbs. injection H as <-.
    constructor; auto.
Qed.

Lemma traverse_length {A B} (f : A -> result B) l bs :
  traverse f l = Ok bs -> length bs = length l.
Proof. intros H%traverse_Ok. symmetry. eapply Forall2_length, H. Qed.

Lemma traverse_lookup {A B} (f : A -> result B) l bs (i : nat) a0 :
  traverse f l = Ok bs -> l !! i = Some a0 ->
  exists b0, bs !! i = Some b0 /\ f a0 = Ok b0.
Proof.
  intros H%traverse_Ok Hi.
  destruct (Forall2_lookup_l _ _ _ _ _ H Hi) as (b0 & ? & ?). eauto.
Qed.

Lemma traverse_map {A B} (f : A -> result B) (g : A -> B) l :
  (forall a0, a0 ∈ l -> f a0 = Ok (g a0)) -> traverse f l = Ok (map g l).
Proof.
  induction l as [|a0 l IH]; intros H; simpl; [done|].
  rewrite (H a0) by left. simpl. rewrite IH; [done|].
  intros a1 Ha1. apply H. by right.
Qed.

Lemma traverse_is_ok {A B} (f : A -> result B) (l : list A) :
  (forall a0, a0 ∈ l -> is_ok (f a0)) -> is_ok (traverse f l).
Proof.
  induction l as [|a0 l IH]; intros H; [done|].
  rewrite traverse_cons.
  destruct (is_ok_Ok (f a0)) as [b0 ->]; [apply H; left|].
  destruct (is_ok_Ok (traverse f l)) as [bs ->]; [|done].
  apply IH. intros a1 Ha1. apply H. by right.
Qed.

Lemma foldM_is_ok {A S} (f : A -> S -> result S) (l : list A) (s : S) :
  (forall a0 s0, a0 ∈ l -> is_ok (f a0 s0)) -> is_ok (foldM f l s).
Proof.
  revert s. induction l as [|a0 l IH]; intros s H; [done|]. simpl.
  destruct (is_ok_Ok (f a0 s)) as [s' ->]; [apply H; left|]. simpl.
  apply IH. intros a1 s1 Ha1. apply H. by right.
Qed.

(** ** Integers, rationals and lists *)

Lemma py_int_inject (z : Z) : py_int (inject_Z z) = z.
Proof. unfold py_int. simpl. apply Z.quot_1_r. Qed.

Lemma py_int_floor (q : Q) : (0 <= q)%Q -> py_int q = Qfloor q.
Proof.
  destruct q as [n dn]. unfold Qle, py_int, Qfloor. simpl. intros H.
  rewrite Z.mul_1_r in H. apply Z.quot_div_nonneg; lia.
Qed.

Lemma arange_length lo hi : length (arange lo hi) = Z.to_nat (hi - lo).
Proof. unfold arange. by rewrite length_map, length_seq. Qed.

Lemma arange_lookup lo hi (k : nat) :
  (k < Z.to_nat (hi - lo))%nat -> arange lo hi !! k = Some (lo + Z.of_nat k).
Proof.
  intros Hk. unfold arange. rewrite list_lookup_fmap, lookup_seq_lt by done.
  done.
Qed.

Lemma elem_of_arange lo hi z : z ∈ arange lo hi <-> lo <= z < hi.
Proof.
  unfold arange. rewrite list_elem_of_fmap. split.
  - intros (k & -> & Hk%elem_of_seq). lia.
  - intros Hz. exists (Z.to_nat (z - lo)). split; [lia|].
    apply elem_of_seq. lia.
Qed.

Lemma getitem_lookup {A} (l : list A) (k : nat) (a0 : A) :
  l !! k = Some a0 -> getitem l (Z.of_nat k) = Ok a0.
Proof.
  intros H. pose proof (lookup_lt_Some _ _ _ H) as Hlt. unfold getitem.
  destruct (Z.ltb_spec (Z.of_nat k) 0) as [?|_]; [lia|].
  destruct (Z.leb_spec 0 (Z.of_nat k)) as [_|?]; [|lia].
  destruct (Z.ltb_spec (Z.of_nat k) (Z.of_nat (length l))) as [_|?]; [|lia].
  simpl. by rewrite Nat2Z.id, H.
Qed.

Lemma getitem_nil {A} (idx : Z) : getitem (@nil A) idx = Raise IndexError.
Proof.
  unfold getitem. simpl.
  destruct (_ && _) eqn:E; [|done].
  apply andb_true_iff in E as [E1%Z.leb_le E2%Z.ltb_lt]. lia.
Qed.

Lemma getitem_elem_of {A} (l : list A) idx (a0 : A) :
  getitem l idx = Ok a0 -> a0 ∈ l.
Proof.
  unfold getitem. case_match; [|done].
  destruct (l !! _) eqn:E; [|done]. intros [= <-].
  eapply list_elem_of_lookup_2, E.
Qed.

Lemma elem_of_concat {A} (y : A) (ls : list (list A)) :
  y ∈ concat ls <-> exists l, y ∈ l /\ l ∈ ls.
Proof.
  induction ls as [|l ls IH]; simpl.
  - split; [by intros ?%elem_of_nil | by intros (l & _ & ?%elem_of_nil)].
  - rewrite elem_of_app, IH. split.
    + intros [Hy|(l' & Hy & Hl')]; [exists l; split; [done | left]|].
      exists l'. split; [done | by right].
    + intros (l' & Hy & [->|Hl']%elem_of_cons); [by left | right; eauto].
Qed.

Lemma filter_none {A} (P : A -> Prop) `{forall a0, Decision (P a0)} (l : list A) :
  Forall (fun a0 => ~ P a0) l -> filter P l = [].
Proof.
  induction 1 as [|a0 l Ha _ IH]; [done|].
  by rewrite filter_cons_False.
Qed.

(** ** Rounding *)

Lemma py_round_near (q : Q) :
  (- (1 # 2) <= inject_Z (py_round q) - q)%Q /\
  (inject_Z (py_round q) - q <= 1 # 2)%Q.
Proof.
  unfold py_round.
  pose proof (Qfloor_le q) as Hlo. pose proof (Qlt_floor q) as Hhi.
  rewrite inject_Z_plus in Hhi. change (inject_Z 1) with 1%Q in Hhi.
  set (f := Qfloor q) in *.
  destruct (Qcompare_spec (q - inject_Z f) (1 # 2)) as [E|E|E].
  - destruct (Z.even f); rewrite ?inject_Z_plus;
      change (inject_Z 1) with 1%Q; lra.
  - lra.
  - rewrite inject_Z_plus. change (inject_Z 1) with 1%Q. lra.
Qed.

Lemma py_round_ge (q : Q) (z : Z) :
  (inject_Z z - (1 # 2) < q)%Q -> z <= py_round q.
Proof.
  intros H. destruct (py_round_near q) as [Hr _].
  assert (inject_Z z - 1 < inject_Z (py_round q))%Q by lra.
  assert (inject_Z (z - 1) < inject_Z (py_round q))%Q as Hz.
  { unfold Z.sub. rewrite inject_Z_plus. change (inject_Z (- (1))) with (- 1)%Q. lra. }
  rewrite <- Zlt_Qlt in Hz. lia.
Qed.

Lemma py_round_le (q : Q) (z : Z) :
  (q < inject_Z z + (1 # 2))%Q -> py_round q <= z.
Proof.
  intros H. destruct (py_round_near q) as [_ Hr].
  assert (inject_Z (py_round q) < inject_Z (z + 1))%Q as Hz.
  { rewrite inject_Z_plus. change (inject_Z 1) with 1%Q. lra. }
  rewrite <- Zlt_Qlt in Hz. lia.
Qed.

Lemma py_round_half_even (z : Z) :
  py_round (inject_Z z + (1 # 2)) = if Z.even z then z else z + 1.
Proof.
  unfold py_round.
  assert (Hf : Qfloor (inject_Z z + (1 # 2)) = z).
  { pose proof (Qfloor_le (inject_Z z + (1 # 2))) as Hlo.
    pose proof (Qlt_floor (inject_Z z + (1 # 2))) as Hhi.
    set (f := Qfloor _) in *.
    rewrite inject_Z_plus in Hhi. change (inject_Z 1) with 1%Q in Hhi.
    assert (inject_Z f < inject_Z (z + 1))%Q as H1
      by (rewrite inject_Z_plus; change (inject_Z 1) with 1%Q; lra).
    assert (inject_Z (z - 1) < inject_Z f)%Q as H2.
    { unfold Z.sub. rewrite inject_Z_plus.
      change (inject_Z (- (1))) with (- 1)%Q. lra. }
    rewrite <- Zlt_Qlt in H1, H2. lia. }
  rewrite Hf.
  destruct (Qcompare_spec (inject_Z z + (1 # 2) - inject_Z z) (1 # 2)) as [E|E|E];
    [done | lra | lra].
Qed.

Lemma py_round_comp (q1 q2 : Q) : (q1 == q2)%Q -> py_round q1 = py_round q2.
Proof.
  intros E. unfold py_round. rewrite (Qfloor_comp _ _ E).
  assert (E' : (q1 - inject_Z (Qfloor q2) == q2 - inject_Z (Qfloor q2))%Q)
    by (rewrite E; reflexivity).
  by rewrite (Qcompare_comp _ _ E' (1 # 2) (1 # 2) (Qeq_refl _)).
Qed.

Lemma py_round_tenth_range (v : Q) :
  (4 <= py_round (v * (1 # 10)) < 12) <-> (35 <= v)%Q /\ (v < 115)%Q.
Proof.
  split.
  - intros [Hlo Hhi]. split.
    + destruct (Qlt_le_dec v 35) as [Hv|Hv]; [|done].
      assert (py_round (v * (1 # 10)) <= 3); [|lia].
      apply py_round_le. change (inject_Z 3) with 3%Q. lra.
    + destruct (Qlt_le_dec v 115) as [Hv|Hv]; [done|].
      assert (12 <= py_round (v * (1 # 10))); [|lia].
      destruct (Qle_lt_or_eq _ _ Hv) as [Hgt|Heq].
      * apply py_round_ge. change (inject_Z 12) with 12%Q. lra.
      * assert (E : (v * (1 # 10) == inject_Z 11 + (1 # 2))%Q)
          by (rewrite <- Heq; reflexivity).
        rewrite (py_round_comp _ _ E), py_round_half_even. simpl. lia.
  - intros [Hlo Hhi]. split.
    + destruct (Qle_lt_or_eq _ _ Hlo) as [Hgt|Heq].
      * apply py_round_ge. change (inject_Z 4) with 4%Q. lra.
      * assert (E : (v * (1 # 10) == inject_Z 3 + (1 # 2))%Q)
          by (rewrite <- Heq; reflexivity).
        rewrite (py_round_comp _ _ E), py_round_half_even. simpl. lia.
    + assert (py_round (v * (1 # 10)) <= 11); [|lia].
      apply py_round_le. change (inject_Z 11) with 11%Q. lra.
Qed.

(** ** Sums of rationals *)

Lemma qsum_app l1 l2 : (qsum (l1 ++ l2) == qsum l1 + qsum l2)%Q.
Proof. induction l1 as [|q l1 IH]; simpl; [ring | rewrite IH; ring]. Qed.

Lemma qsum_perm l1 l2 : l1 ≡ₚ l2 -> (qsum l1 == qsum l2)%Q.
Proof.
  induction 1 as [|q l1 l2 _ IH|q1 q2 l|l1 l2 l3 _ IH1 _ IH2]; simpl.
  - reflexivity.
  - by rewrite IH.
  - ring.
  - by rewrite IH1.
Qed.

Lemma qsum_concat_map {A} (f : A -> Q) (ls : list (list A)) :
  (qsum (map f (concat ls)) == qsum (map (fun l => qsum (map f l)) ls))%Q.
Proof.
  induction ls as [|l ls IH]; simpl; [reflexivity|].
  by rewrite map_app, qsum_app, IH.
Qed.

Lemma qsum_map_ext {A} (f g : A -> Q) (l : list A) :
  (forall a0, a0 ∈ l -> (f a0 == g a0)%Q) ->
  (qsum (map f l) == qsum (map g l))%Q.
Proof.
  induction l as [|a0 l IH]; simpl; intros H; [reflexivity|].
  rewrite (H a0) by left. rewrite IH; [reflexivity|].
  intros a1 Ha1. apply H. by right.
Qed.

Lemma qsum_nonneg (l : list Q) :
  Forall (fun q => 0 <= q)%Q l -> (0 <= qsum l)%Q.
Proof. induction 1 as [|q l Hq _ IH]; simpl; [lra | lra]. Qed.

Lemma assignment_sum_ext users coupons (f g : Z -> Z -> Q) :
  (forall i j, i ∈ users -> j ∈ coupons -> (f i j == g i j)%Q) ->
  (assignment_sum users coupons f == assignment_sum users coupons g)%Q.
Proof.
  intros H. unfold assignment_sum. apply qsum_map_ext. intros i Hi.
  apply qsum_map_ext. intros j Hj. by apply H.
Qed.

Lemma binary_sum_zero {A} (f : A -> Q) (l : list A) :
  (forall j, j ∈ l -> (f j == 0)%Q \/ (f j == 1)%Q) ->
  ((qsum (map f l) == 0)%Q <-> forall j, j ∈ l -> (f j == 0)%Q).
Proof.
  induction l as [|j0 l IH]; intros Hb; simpl.
  - split; [by intros _ j ?%elem_of_nil | reflexivity].
  - assert (Hb' : forall j, j ∈ l -> (f j == 0)%Q \/ (f j == 1)%Q)
      by (intros j Hj; apply Hb; by right).
    assert (Hnn : (0 <= qsum (map f l))%Q).
    { apply qsum_nonneg, Forall_fmap, Forall_forall. intros j Hj. simpl.
      destruct (Hb' j Hj) as [E|E]; rewrite E; lra. }
    specialize (IH Hb'). split.
    + intros Hs j [->|Hj]%elem_of_cons.
      * destruct (Hb j0 ltac:(left)) as [E|E]; [done | rewrite E in Hs; lra].
      * apply IH; [|done]. destruct (Hb j0 ltac:(left)) as [E|E];
          rewrite E in Hs; lra.
    + intros Hz. rewrite (Hz j0) by left.
      rewrite (proj2 IH); [lra|]. intros j Hj. apply Hz. by right.
Qed.

Lemma binary_sum_one (f : Z -> Q) (l : list Z) :
  NoDup l ->
  (forall j, j ∈ l -> (f j == 0)%Q \/ (f j == 1)%Q) ->
  ((qsum (map f l) == 1)%Q <->
   exists j, j ∈ l /\ (f j == 1)%Q /\
             forall j', j' ∈ l -> j' <> j -> (f j' == 0)%Q).
Proof.
  induction l as [|j0 l IH]; intros Hnd Hb; simpl.
  - split; [intros E; lra | by intros (j & ?%elem_of_nil & _)].
  - apply NoDup_cons in Hnd as [Hj0 Hnd].
    assert (Hb' : forall j, j ∈ l -> (f j == 0)%Q \/ (f j == 1)%Q)
      by (intros j Hj; apply Hb; by right).
    specialize (IH Hnd Hb'). pose proof (binary_sum_zero f l Hb') as Hz.
    destruct (Hb j0 ltac:(left)) as [E|E]; rewrite E.
    + split.
      * intros Hs. destruct (proj1 IH) as (j & Hj & Hj1 & Hothers); [lra|].
        exists j. split; [by right|]. split; [done|].
        intros j' [->|Hj']%elem_of_cons Hne; [done | by apply Hothers].
      * intros (j & [->|Hj]%elem_of_cons & Hj1 & Hothers).
        { rewrite E in Hj1. lra. }
        assert (qsum (map f l) == 1)%Q; [|lra].
        apply IH. exists j. split; [done|]. split; [done|].
        intros j' Hj' Hne. apply Hothers; [by right | done].
    + split.
      * intros Hs. exists j0. split; [left|]. split; [done|].
        intros j' [->|Hj']%elem_of_cons Hne; [done|].
        apply Hz; [lra | done].
      * intros (j & [->|Hj]%elem_of_cons & Hj1 & Hothers).
        { assert (qsum (map f l) == 0)%Q; [|lra].
          apply Hz. intros j' Hj'. apply Hothers; [by right|].
          intros ->. done. }
        exfalso. assert (f j0 == 0)%Q; [|lra].
        apply Hothers; [left|]. intros ->. done.
Qed.

(** ** Strings and printed integers *)

Lemma str_Forall_impl (P Q' : ascii -> Prop) s :
  (forall a0, P a0 -> Q' a0) -> str_Forall P s -> str_Forall Q' s.
Proof. intros H. induction s as [|a0 s IH]; simpl; [done|]. intros [? ?]. auto. Qed.

Lemma append_cons (a0 : ascii) (s r : string) :
  String a0 s +:+ r = String a0 (s +:+ r).
Proof. reflexivity. Qed.

Lemma append_empty_r (s : string) : s +:+ EmptyString = s.
Proof.
  induction s as [|a0 s IH]; [done|]. by rewrite append_cons, IH.
Qed.

Lemma append_snoc (s r : string) (a0 : ascii) :
  (s +:+ String a0 EmptyString) +:+ r = s +:+ String a0 r.
Proof.
  induction s as [|b0 s IH]; [done|]. by rewrite !append_cons, IH.
Qed.

Lemma pretty_N_char_digit (n : N) :
  (n < 10)%N -> digit_of (pretty_N_char n) = Some n.
Proof.
  intros Hn. destruct n as [|p]; [reflexivity|].
  repeat (destruct p as [p|p|]; try reflexivity; try (exfalso; lia)).
Qed.

Lemma pretty_N_go_digits (n : N) (s : string) :
  str_Forall is_digit s -> str_Forall is_digit (pretty_N_go n s).
Proof.
  revert s. induction (N.lt_wf_0 n) as [n _ IH]; intros s Hs.
  destruct (decide (n = 0)%N) as [->|Hn]; [by rewrite pretty_N_go_0|].
  rewrite pretty_N_go_step by lia. apply IH.
  - apply N.div_lt; lia.
  - split; [|done]. unfold is_digit.
    rewrite pretty_N_char_digit; [done | by apply N.mod_lt].
Qed.

Lemma pretty_N_go_nonempty (n : N) (s : string) :
  s <> EmptyString -> pretty_N_go n s <> EmptyString.
Proof.
  revert s. induction (N.lt_wf_0 n) as [n _ IH]; intros s Hs.
  destruct (decide (n = 0)%N) as [->|Hn]; [by rewrite pretty_N_go_0|].
  rewrite pretty_N_go_step by lia. apply IH; [apply N.div_lt; lia | done].
Qed.

Lemma pretty_N_go_value (n : N) :
  exists k : N, forall s acc,
    digits_go (pretty_N_go n s) acc = digits_go s (acc * 10 ^ k + n)%N.
Proof.
  induction (N.lt_wf_0 n) as [n _ IH].
  destruct (decide (n = 0)%N) as [->|Hn].
  - exists 0%N. intros s acc. rewrite pretty_N_go_0. f_equal. simpl. lia.
  - destruct (IH (n `div` 10)%N) as [k Hk]; [apply N.div_lt; lia|].
    exists (N.succ k). intros s acc. rewrite pretty_N_go_step, Hk by lia.
    simpl. rewrite pretty_N_char_digit by (by apply N.mod_lt).
    f_equal. rewrite N.pow_succ_r'.
    pose proof (N.div_mod n 10 ltac:(done)). lia.
Qed.

Lemma pretty_N_nonzero (p : positive) :
  pretty (N.pos p) = pretty_N_go (N.pos p) EmptyString.
Proof. done. Qed.

Lemma digits_pretty_pos (p : positive) :
  digits (pretty (N.pos p)) = Some (N.pos p).
Proof.
  rewrite pretty_N_nonzero.
  destruct (pretty_N_go_value (N.pos p)) as [k Hk].
  assert (Hne : pretty_N_go (N.pos p) EmptyString <> EmptyString).
  { rewrite pretty_N_go_step by lia. by apply pretty_N_go_nonempty. }
  unfold digits. destruct (pretty_N_go (N.pos p) EmptyString) eqn:E; [done|].
  rewrite <- E, Hk. simpl. f_equal.
Qed.

Lemma pretty_pos_digits (p : positive) : str_Forall is_digit (pretty (N.pos p)).
Proof. rewrite pretty_N_nonzero. by apply pretty_N_go_digits. Qed.

Lemma pretty_nonneg_digits (i : Z) : 0 <= i -> str_Forall is_digit (pretty i).
Proof.
  destruct i as [|p|p]; intros Hi; [|apply pretty_pos_digits|lia].
  simpl. split; [by eexists | done].
Qed.

Lemma pretty_Z_chars (P : ascii -> Prop) (z : Z) :
  P "-"%char -> (forall a0, is_digit a0 -> P a0) -> str_Forall P (pretty z).
Proof.
  intros Hdash Hdig. destruct z as [|p|p].
  - simpl. split; [|done]. apply Hdig. by eexists.
  - change (pretty (Z.pos p)) with (pretty (N.pos p)).
    eapply str_Forall_impl, pretty_pos_digits. done.
  - change (pretty (Z.neg p)) with ("-" +:+ pretty (N.pos p)).
    simpl. split; [done|]. eapply str_Forall_impl, pretty_pos_digits. done.
Qed.

Lemma digit_not (a0 b0 : ascii) : digit_of b0 = None -> is_digit a0 -> a0 <> b0.
Proof. intros Hb [dg Ha] ->. congruence. Qed.

Lemma int_of_str_unsigned (a0 : ascii) (r : string) :
  is_digit a0 ->
  int_of_str (String a0 r) =
  match digits (String a0 r) with
  | Some n => Ok (Z.of_N n)
  | None => Raise ValueError
  end.
Proof.
  intros [dg Hd]. unfold int_of_str.
  destruct a0 as [[|] [|] [|] [|] [|] [|] [|] [|]]; try reflexivity;
    vm_compute in Hd; discriminate.
Qed.

(** [int] reads back what [format] printed. *)
Lemma int_of_str_pretty (z : Z) : int_of_str (pretty z) = Ok z.
Proof.
  destruct z as [|p|p].
  - reflexivity.
  - change (pretty (Z.pos p)) with (pretty (N.pos p)).
    pose proof (pretty_pos_digits p) as Hd.
    pose proof (digits_pretty_pos p) as Hv.
    destruct (pretty (N.pos p)) as [|a0 r]; [done|]. destruct Hd as [Ha _].
    by rewrite int_of_str_unsigned, Hv.
  - transitivity (match digits (pretty (N.pos p)) with
                  | Some n => Ok (- Z.of_N n)
                  | None => Raise ValueError
                  end); [reflexivity|].
    by rewrite digits_pretty_pos.
Qed.

Lemma last_field_plain (sep : ascii) (s acc : string) :
  str_Forall (fun a0 => a0 <> sep) s -> last_field sep s acc = acc +:+ s.
Proof.
  revert acc. induction s as [|a0 s IH]; intros acc; simpl.
  - intros _. by rewrite append_empty_r.
  - intros [Ha Hs]. rewrite decide_False by done. rewrite IH by done.
    apply append_snoc.
Qed.

Lemma contains_cltv_plain (s : string) :
  str_Forall (fun a0 => a0 <> "c"%char) s -> contains cltv_label s = false.
Proof.
  induction s as [|a0 s IH]; simpl; [done|]. intros [Ha Hs].
  rewrite bool_decide_eq_false_2 by congruence. simpl. by apply IH.
Qed.

Lemma digit_legal (a0 : ascii) : is_digit a0 -> illegal_char a0 = false.
Proof.
  intros [dg Hd]. destruct (illegal_char a0) eqn:E; [|done].
  unfold illegal_char in E. apply bool_decide_eq_true in E.
  repeat (apply elem_of_cons in E as [->|E]; [vm_compute in Hd; discriminate|]).
  by apply elem_of_nil in E.
Qed.

Lemma lp_name_plain (s : string) :
  str_Forall (fun a0 => illegal_char a0 = false) s -> lp_name s = s.
Proof.
  induction s as [|a0 s IH]; simpl; [done|]. intros [-> Hs]. by rewrite IH.
Qed.

(** ** Labels and names *)

Lemma prob_coupon_inj j k : prob_coupon j = prob_coupon k -> j = k.
Proof. unfold prob_coupon. simpl. intros [= H]. by apply (inj pretty). Qed.

Lemma prob_coupon_not_cltv j : prob_coupon j <> cltv_label.
Proof. unfold prob_coupon, cltv_label. simpl. discriminate. Qed.

Lemma prob_coupon_not_coupon_bau j : prob_coupon j <> coupon_bau_label.
Proof. unfold prob_coupon, coupon_bau_label. simpl. discriminate. Qed.

Lemma prob_coupon_not_prob_coupon_bau j : prob_coupon j <> prob_coupon_bau_label.
Proof.
  unfold prob_coupon.
  change prob_coupon_bau_label with ("prob_coupon_" +:+ "bau")%string.
  intros H%(inj (String.app _)).
  pose proof (pretty_Z_chars (fun a0 => a0 <> "b"%char) j) as Hd.
  rewrite H in Hd. destruct Hd as [Hb _]; [done| |done].
  intros a0. by apply digit_not.
Qed.

Lemma prob_coupon_not_roi_bau j : prob_coupon j <> roi_bau_label.
Proof. unfold prob_coupon, roi_bau_label. simpl. discriminate. Qed.

Lemma header_NoDup (cs : list Z) :
  NoDup cs -> NoDup (map prob_coupon cs ++ [cltv_label]).
Proof.
  intros Hc. apply NoDup_app. split; [|split].
  - apply NoDup_fmap_2; [|done]. intros j k. apply prob_coupon_inj.
  - intros l (j & -> & _)%list_elem_of_fmap [E|E%elem_of_nil]%elem_of_cons; [|done].
    by apply prob_coupon_not_cltv in E.
  - apply NoDup_singleton.
Qed.

Lemma header_elem_of (cs : list Z) (k : Z) :
  prob_coupon k ∈ map prob_coupon cs ++ [cltv_label] <-> k ∈ cs.
Proof.
  rewrite elem_of_app, list_elem_of_fmap, list_elem_of_singleton. split.
  - intros [(j & ->%prob_coupon_inj & Hj)|E]; [done|].
    by apply prob_coupon_not_cltv in E.
  - intros Hk. left. eauto.
Qed.

Lemma last_field_prob_coupon (j : Z) :
  last_field "_" (prob_coupon j) EmptyString = pretty j.
Proof.
  unfold prob_coupon. rewrite !append_cons.
  change (EmptyString +:+ pretty j) with (pretty j). simpl.
  apply last_field_plain, pretty_Z_chars; [done|].
  intros a0. by apply digit_not.
Qed.

Lemma contains_cltv_prob_coupon (j : Z) :
  contains cltv_label (prob_coupon j) = false.
Proof.
  unfold prob_coupon. rewrite !append_cons.
  change (EmptyString +:+ pretty j) with (pretty j).
  repeat (match goal with
          | |- context [contains ?n (String ?a0 ?r)] =>
              change (contains n (String a0 r))
                with (starts_with n (String a0 r) || contains n r)
          end;
          match goal with
          | |- (?b || _) = false =>
              replace b with false by (symmetry; vm_compute; reflexivity)
          end; simpl orb).
  apply contains_cltv_plain, pretty_Z_chars; [done|].
  intros a0. by apply digit_not.
Qed.

(** The header of a frame made for the coupons [cs] gives [cs] back. *)
Lemma coupons_of_header (df : DataFrame) (cs : list Z) :
  columns df = map prob_coupon cs ++ [cltv_label] -> coupons_of df = Ok cs.
Proof.
  intros Hcols. unfold coupons_of. rewrite Hcols, filter_app.
  replace (filter _ [cltv_label]) with (@nil string) by done.
  rewrite app_nil_r. clear Hcols.
  induction cs as [|j cs IH]; [done|].
  change (map prob_coupon (j :: cs))
    with (prob_coupon j :: map prob_coupon cs).
  rewrite filter_cons_True by apply contains_cltv_prob_coupon.
  rewrite traverse_cons, last_field_prob_coupon, int_of_str_pretty, IH.
  reflexivity.
Qed.

Lemma lp_name_constraint_name (i : Z) :
  0 <= i -> lp_name (constraint_name i) = constraint_name i.
Proof.
  intros Hi. apply lp_name_plain. unfold constraint_name.
  rewrite !append_cons. change (EmptyString +:+ pretty i) with (pretty i).
  simpl. repeat (split; [reflexivity|]).
  eapply str_Forall_impl, pretty_nonneg_digits; [apply digit_legal | done].
Qed.

Lemma constraint_name_inj i j : constraint_name i = constraint_name j -> i = j.
Proof.
  unfold constraint_name. intros H%(inj (String.app _)). by apply (inj pretty).
Qed.

Lemma constraint_name_not_b (i : Z) :
  0 <= i -> constraint_name i <> "constraint_b"%string.
Proof.
  intros Hi. unfold constraint_name.
  change "constraint_b"%string with ("constraint_" +:+ "b")%string.
  intros H%(inj (String.app _)).
  pose proof (pretty_nonneg_digits i Hi) as Hd. rewrite H in Hd.
  destruct Hd as [[dg Hd] _]. vm_compute in Hd. discriminate.
Qed.

(** ** Series and frames *)

Lemma series_set_fresh (s : Series) l v :
  l ∉ s.*1 -> series_set s l v = s ++ [(l, v)].
Proof.
  induction s as [|[l' w] s IH]; simpl; intros Hl; [done|].
  apply not_elem_of_cons in Hl as [Hne Hl].
  destruct (decide (l' = l)); [congruence|]. by rewrite IH.
Qed.

Lemma write_cells_fresh cols values (r : Series) :
  NoDup cols -> (forall l, l ∈ cols -> l ∉ r.*1) ->
  write_cells cols values r = r ++ zip cols values.
Proof.
  unfold write_cells. revert values r.
  induction cols as [|l cols IH]; intros values r Hnd Hr; simpl.
  - by rewrite app_nil_r.
  - destruct values as [|v values]; simpl; [by rewrite app_nil_r|].
    apply NoDup_cons in Hnd as [Hl Hnd].
    rewrite series_set_fresh by (apply Hr; left).
    rewrite IH; [by rewrite <- app_assoc | done |].
    intros l' Hl'. rewrite fmap_app. simpl. intros [?|[->|?%elem_of_nil]%elem_of_cons]%elem_of_app; try done.
    eapply Hr; [right|]; eauto.
Qed.

Lemma series_get_zip (labels : list string) (values : list Q) j l val :
  NoDup labels -> labels !! j = Some l -> values !! j = Some val ->
  series_get (zip labels values) l = Ok val.
Proof.
  revert values j. induction labels as [|l0 labels IH]; intros values j Hnd Hl Hv.
  - done.
  - destruct values as [|v0 values]; [done|].
    apply NoDup_cons in Hnd as [Hl0 Hnd]. simpl.
    destruct j as [|j]; simpl in *.
    + injection Hl as ->. injection Hv as ->. by rewrite decide_True.
    + rewrite decide_False; [by eapply IH|].
      intros ->. apply Hl0. eapply list_elem_of_lookup_2, Hl.
Qed.

Lemma series_get_set_eq (s : Series) l v : series_get (series_set s l v) l = Ok v.
Proof.
  induction s as [|[l' w] s IH]; simpl.
  - by rewrite decide_True.
  - destruct (decide (l' = l)) as [->|Hne]; simpl.
    + by rewrite decide_True.
    + by rewrite decide_False.
Qed.

Lemma series_get_set_ne (s : Series) l l' v :
  l <> l' -> series_get (series_set s l v) l' = series_get s l'.
Proof.
  intros Hne. induction s as [|[l0 w] s IH]; simpl.
  - by rewrite decide_False.
  - destruct (decide (l0 = l)) as [->|Hne0]; simpl.
    + by rewrite !decide_False.
    + by rewrite IH.
Qed.

Lemma series_get_ok_iff (s : Series) l : is_ok (series_get s l) <-> l ∈ s.*1.
Proof.
  induction s as [|[l0 w] s IH]; simpl.
  - split; [done | by intros ?%elem_of_nil].
  - destruct (decide (l0 = l)) as [->|Hne]; simpl.
    + split; [left | done].
    + rewrite IH, elem_of_cons. split; [by right | by intros [?|?]].
Qed.

Lemma series_get_error (s : Series) l e : series_get s l = Raise e -> e = KeyError.
Proof.
  induction s as [|[l0 w] s IH]; simpl; [congruence|].
  destruct (decide (l0 = l)); [done | auto].
Qed.

Lemma series_get_missing (s : Series) l :
  l ∉ s.*1 -> series_get s l = Raise KeyError.
Proof.
  intros Hl. destruct (series_get s l) as [q|e] eqn:E.
  - exfalso. apply Hl, series_get_ok_iff. by rewrite E.
  - by rewrite (series_get_error _ _ _ E).
Qed.

Lemma set_column_rows df l vs df' :
  set_column df l vs = Ok df' ->
  length vs = length (rows df) /\
  rows df' = zip_with (fun s v => series_set s l v) (rows df) vs.
Proof.
  unfold set_column. destruct (decide _) as [E|]; [|done].
  intros [= <-]. done.
Qed.

Lemma set_column_lookup df l vs df' (i : nat) s v :
  set_column df l vs = Ok df' ->
  rows df !! i = Some s -> vs !! i = Some v ->
  rows df' !! i = Some (series_set s l v).
Proof.
  intros [_ ->]%set_column_rows Hs Hv.
  apply lookup_zip_with_Some. eauto.
Qed.

Lemma set_column_Ok df l vs :
  length vs = length (rows df) ->
  exists df', set_column df l vs = Ok df' /\
              length (rows df') = length (rows df).
Proof.
  intros E. unfold set_column. rewrite decide_True by done.
  eexists. split; [done|]. simpl. rewrite length_zip_with. lia.
Qed.

Lemma column_set_column df l vs df' :
  set_column df l vs = Ok df' -> column df' l = Ok vs.
Proof.
  intros [Hlen Hrows]%set_column_rows. unfold column. rewrite Hrows. clear Hrows.
  revert vs Hlen. induction (rows df) as [|s rs IH]; intros [|v vs] Hlen;
    simpl in *; try done.
  rewrite series_get_set_eq. simpl. rewrite IH by lia. done.
Qed.

Lemma column_set_column_ne df l l' vs df' :
  l <> l' -> set_column df l vs = Ok df' -> column df' l' = column df l'.
Proof.
  intros Hne [Hlen Hrows]%set_column_rows. unfold column. rewrite Hrows. clear Hrows.
  revert vs Hlen. induction (rows df) as [|s rs IH]; intros [|v vs] Hlen;
    simpl in *; try done.
  rewrite series_get_set_ne by done. rewrite IH by lia. done.
Qed.

Lemma index_NoDup df : NoDup (index df).
Proof.
  unfold index, range, arange. apply NoDup_fmap_2; [|apply NoDup_seq].
  intros k1 k2. lia.
Qed.

Lemma index_nonneg df i : i ∈ index df -> 0 <= i.
Proof. unfold index, range. intros ?%elem_of_arange. lia. Qed.

Lemma loc_index df i :
  i ∈ index df -> exists r, loc df i = Ok r /\ r ∈ rows df.
Proof.
  unfold index, range. intros Hi%elem_of_arange. unfold loc.
  destruct (Z.leb_spec 0 i) as [_|?]; [|lia].
  destruct (Z.ltb_spec i (Z.of_nat (length (rows df)))) as [_|?]; [|lia].
  simpl. destruct (lookup_lt_is_Some_2 (rows df) (Z.to_nat i)) as [r Hr]; [lia|].
  rewrite Hr. exists r. split; [done|]. eapply list_elem_of_lookup_2, Hr.
Qed.

(** ** Cell 2: the generated customers *)

Lemma choices_go_spec {A} (rng : Rng) (pop : list A) k cur l cur' :
  choices_go rng pop k cur = Ok (l, cur') ->
  length l = k /\ Forall (fun a0 => a0 ∈ pop) l /\ cur' = (cur + k)%nat.
Proof.
  revert cur l cur'. induction k as [|k IH]; simpl; intros cur l cur' H.
  - injection H as <- <-. split; [done|]. split; [constructor | lia].
  - inv_bind H as a0 Ha. inv_bind H as rest Hrest.
    destruct rest as [l0 c0]. simpl in H.
    injection H as <- <-. apply IH in Hrest as (Hl & Hf & ->).
    split; [simpl; lia|]. split; [|lia].
    constructor; [eapply getitem_elem_of; eauto | done].
Qed.

Lemma unit_draw_index (u : Q) (len : nat) :
  (0 <= u)%Q -> (u < 1)%Q -> (0 < len)%nat ->
  0 <= py_int (u * inject_Z (Z.of_nat len)) < Z.of_nat len.
Proof.
  intros H0 H1 Hlen.
  assert (Hl : (0 < inject_Z (Z.of_nat len))%Q).
  { rewrite <- (Zlt_Qlt 0). lia. }
  assert (Hp : (0 <= u * inject_Z (Z.of_nat len))%Q) by nra.
  rewrite py_int_floor by done. split.
  - change 0 with (Qfloor 0). by apply Qfloor_resp_le.
  - rewrite Zlt_Qlt. eapply Qle_lt_trans; [apply Qfloor_le|]. nra.
Qed.

Lemma choices_go_ok {A} (rng : Rng) (pop : list A) k cur :
  rng_unit rng -> pop <> [] -> is_ok (choices_go rng pop k cur).
Proof.
  intros Hr Hp. revert cur. induction k as [|k IH]; simpl; intros cur; [done|].
  destruct (Hr cur) as [H0 H1].
  assert (Hlen : (0 < length pop)%nat) by (destruct pop; simpl; [done | lia]).
  pose proof (unit_draw_index _ _ H0 H1 Hlen) as Hi.
  set (idx := py_int _) in *.
  destruct (lookup_lt_is_Some_2 pop (Z.to_nat idx)) as [a0 Ha0]; [lia|].
  apply getitem_lookup in Ha0. rewrite Z2Nat.id in Ha0 by lia.
  rewrite Ha0. simpl. specialize (IH (S cur)).
  destruct (choices_go rng pop k (S cur)); [done | done].
Qed.

Lemma fill_rows_spec rm rc cols nc (k s : nat) df :
  length (rows df) = s ->
  (s + k <= length rm)%nat -> (s + k <= length rc)%nat ->
  fill_rows rm rc cols nc (map (fun i : nat => 0 + Z.of_nat i) (seq s k)) df =
  Ok {| columns := columns df;
        rows := rows df ++ zip_with (new_row cols nc)
                             (take k (drop s rm)) (take k (drop s rc)) |}.
Proof.
  revert s df. induction k as [|k IH]; intros s df Hs Hm Hc; simpl.
  - rewrite app_nil_r. by destruct df.
  - destruct (lookup_lt_is_Some_2 rm s) as [m Em]; [lia|].
    destruct (lookup_lt_is_Some_2 rc s) as [v Ev]; [lia|].
    rewrite !Z.add_0_l, (getitem_lookup _ _ _ Em), (getitem_lookup _ _ _ Ev). simpl.
    unfold loc_set. rewrite Hs.
    destruct (Z.ltb_spec (Z.of_nat s) (Z.of_nat s)) as [?|_]; [lia|].
    rewrite andb_false_r.
    rewrite IH; simpl; [|rewrite length_app; simpl; lia|lia|lia].
    rewrite (drop_S _ _ _ Em), (drop_S _ _ _ Ev). simpl.
    by rewrite <- app_assoc.
Qed.

Lemma create_customers_spec rng n cs df :
  create_customers rng n cs = Ok df ->
  exists rm rc,
    length rm = Z.to_nat n /\ length rc = Z.to_nat n /\
    Forall (fun m => m ∈ mults n) rm /\ Forall (fun v => v ∈ cltvs) rc /\
    df = {| columns := map prob_coupon cs ++ [cltv_label];
            rows := zip_with (new_row (map prob_coupon cs ++ [cltv_label])
                                (length cs)) rm rc |}.
Proof.
  unfold create_customers, choices. intros H.
  inv_bind H as r1 H1. inv_bind H as r2 H2.
  destruct r1 as [rm c1], r2 as [rc c2]. simpl in H.
  apply choices_go_spec in H1 as (Hrm & Hfm & _).
  apply choices_go_spec in H2 as (Hrc & Hfc & _).
  exists rm, rc. repeat split; try done.
  unfold range, arange in H. rewrite Z.sub_0_r in H.
  rewrite fill_rows_spec in H by (simpl; lia). simpl in H.
  injection H as <-. f_equal.
  rewrite !drop_0. rewrite !take_ge by lia. done.
Qed.

Lemma create_customers_ok rng n cs :
  rng_unit rng -> 2 <= n -> is_ok (create_customers rng n cs).
Proof.
  intros Hr Hn. unfold create_customers, choices.
  pose proof (choices_go_ok rng (mults n) (Z.to_nat n) 0 Hr) as H1.
  destruct (choices_go rng (mults n) (Z.to_nat n) 0) as [[rm c1]|] eqn:E1.
  2:{ apply H1. intros E. apply (f_equal length) in E.
      unfold mults in E. rewrite length_map, arange_length in E. simpl in E. lia. }
  simpl.
  pose proof (choices_go_ok rng cltvs (Z.to_nat n) c1 Hr) as H2.
  destruct (choices_go rng cltvs (Z.to_nat n) c1) as [[rc c2]|] eqn:E2.
  2:{ apply H2. done. }
  simpl. apply choices_go_spec in E1 as (Hrm & _), E2 as (Hrc & _).
  unfold range, arange. rewrite Z.sub_0_r.
  rewrite fill_rows_spec by (simpl; lia). done.
Qed.

Lemma probs_row_lookup m nc (j : nat) :
  (j < nc)%nat ->
  probs_row m nc !! j = Some (inject_Z (Z.of_nat j + 1) * m)%Q.
Proof.
  intros Hj. unfold probs_row.
  rewrite list_lookup_fmap, arange_lookup by lia. simpl.
  by rewrite (Z.add_comm 1).
Qed.

Lemma probs_row_length m nc : length (probs_row m nc) = nc.
Proof. unfold probs_row. rewrite length_map, arange_length. lia. Qed.

Lemma mults_pos n m : m ∈ mults n -> (0 < m)%Q.
Proof.
  unfold mults. intros (k & -> & Hk%elem_of_arange)%list_elem_of_fmap.
  assert (0 < inject_Z k)%Q by (rewrite <- (Zlt_Qlt 0); lia).
  apply Qlt_shift_div_l; [reflexivity | lra].
Qed.

Lemma mults_small n : n < 2 -> mults n = [].
Proof.
  intros Hn. unfold mults, arange.
  replace (Z.to_nat (n - 1)) with 0%nat by lia. done.
Qed.

Lemma rng_const_unit u : (0 <= u)%Q -> (u < 1)%Q -> rng_unit (rng_const u).
Proof. intros H0 H1 k. by split. Qed.

Lemma new_row_zip (cs : list Z) m v :
  NoDup cs ->
  new_row (map prob_coupon cs ++ [cltv_label]) (length cs) m v =
  zip (map prob_coupon cs ++ [cltv_label])
      (probs_row m (length cs) ++ [inject_Z v]).
Proof.
  intros Hnd. unfold new_row.
  rewrite write_cells_fresh;
    [done | by apply header_NoDup | intros ? _; apply not_elem_of_nil].
Qed.

Lemma created_row_lookup (cs : list Z) m v (j : nat) cj :
  NoDup cs -> cs !! j = Some cj ->
  series_get (new_row (map prob_coupon cs ++ [cltv_label]) (length cs) m v)
    (prob_coupon cj) = Ok (inject_Z (Z.of_nat j + 1) * m)%Q.
Proof.
  intros Hnd Hj. unfold new_row.
  rewrite write_cells_fresh; [|by apply header_NoDup|intros ? _; apply not_elem_of_nil].
  simpl. pose proof (lookup_lt_Some _ _ _ Hj) as Hlt.
  eapply (series_get_zip _ _ j); [by apply header_NoDup| |].
  - rewrite lookup_app_l by (by rewrite length_map).
    by rewrite list_lookup_fmap, Hj.
  - rewrite lookup_app_l by (by rewrite probs_row_length).
    by apply probs_row_lookup.
Qed.

Lemma created_row_cltv (cs : list Z) m v :
  NoDup cs ->
  series_get (new_row (map prob_coupon cs ++ [cltv_label]) (length cs) m v)
    cltv_label = Ok (inject_Z v).
Proof.
  intros Hnd. unfold new_row.
  rewrite write_cells_fresh; [|by apply header_NoDup|intros ? _; apply not_elem_of_nil].
  simpl. eapply (series_get_zip _ _ (length cs)); [by apply header_NoDup| |].
  - rewrite lookup_app_r by (by rewrite length_map).
    by rewrite length_map, Nat.sub_diag.
  - rewrite lookup_app_r by (by rewrite probs_row_length).
    by rewrite probs_row_length, Nat.sub_diag.
Qed.

Lemma created_rows rng n cs df row :
  create_customers rng n cs = Ok df -> row ∈ rows df ->
  exists m v, m ∈ mults n /\ v ∈ cltvs /\
    row = new_row (map prob_coupon cs ++ [cltv_label]) (length cs) m v.
Proof.
  intros (rm & rc & _ & _ & Hfm & Hfc & ->)%create_customers_spec. simpl.
  intros (i & Hi)%list_elem_of_lookup_1.
  apply lookup_zip_with_Some in Hi as (m & v & -> & Hm & Hv).
  exists m, v. split; [|split; [|done]].
  - eapply Forall_lookup_1 in Hfm; eauto.
  - eapply Forall_lookup_1 in Hfc; eauto.
Qed.

(** The rows of a generated frame carry exactly the labels of its header. *)
Lemma created_rows_shape rng n (cs : list Z) df :
  NoDup cs -> create_customers rng n cs = Ok df ->
  columns df = map prob_coupon cs ++ [cltv_label] /\
  forall r, r ∈ rows df -> r.*1 = map prob_coupon cs ++ [cltv_label].
Proof.
  intros Hnd Hdf. split.
  - apply create_customers_spec in Hdf as (rm & rc & _ & _ & _ & _ & ->). done.
  - intros r Hr. destruct (created_rows _ _ _ _ _ Hdf Hr) as (m & v & _ & _ & ->).
    rewrite new_row_zip by done. apply fst_zip.
    rewrite !length_app, length_map, probs_row_length. done.
Qed.

(** The header of a generated frame gives the coupons back. *)
Lemma created_coupons rng n (cs : list Z) df :
  create_customers rng n cs = Ok df -> coupons_of df = Ok cs.
Proof.
  intros (rm & rc & _ & _ & _ & _ & ->)%create_customers_spec.
  by apply coupons_of_header.
Qed.

(** The generated CLTV lies in [[30, 120)]. *)
Lemma created_cltv_range rng n (cs : list Z) df r :
  NoDup cs -> create_customers rng n cs = Ok df -> r ∈ rows df ->
  exists v, series_get r cltv_label = Ok (inject_Z v) /\ 30 <= v < 120.
Proof.
  intros Hnd Hdf Hr.
  destruct (created_rows _ _ _ _ _ Hdf Hr) as (m & v & _ & Hv & ->).
  exists v. split; [by apply created_row_cltv|].
  by apply elem_of_arange in Hv.
Qed.

(** A generated acceptance value is positive and at most
    [len(c) * (n - 1) / 100]: a probability as long as that bound is at
    most 1, as it is for the 10 customers and 8 coupons of the notebook. *)
Lemma created_value_bound rng n (cs : list Z) df r (j : nat) cj p :
  NoDup cs -> create_customers rng n cs = Ok df -> r ∈ rows df ->
  cs !! j = Some cj -> series_get r (prob_coupon cj) = Ok p ->
  (0 < p)%Q /\
  (p <= inject_Z (Z.of_nat (length cs) * (n - 1)) / 100)%Q.
Proof.
  intros Hnd Hdf Hr Hj Hp.
  destruct (created_rows _ _ _ _ _ Hdf Hr) as (m & v & Hm & _ & ->).
  rewrite (created_row_lookup _ _ _ _ _ Hnd Hj) in Hp. injection Hp as <-.
  pose proof (mults_pos _ _ Hm) as Hpos.
  pose proof (lookup_lt_Some _ _ _ Hj) as Hlt.
  unfold mults in Hm.
  apply list_elem_of_fmap in Hm as (k & -> & Hk%elem_of_arange).
  assert (H1 : (0 < inject_Z (Z.of_nat j + 1))%Q)
    by (rewrite <- (Zlt_Qlt 0); lia).
  split; [nra|].
  assert (H2 : (inject_Z ((Z.of_nat j + 1) * k)
                <= inject_Z (Z.of_nat (length cs) * (n - 1)))%Q)
    by (rewrite <- Zle_Qle; nia).
  rewrite inject_Z_mult in H2.
  set (A := inject_Z (Z.of_nat j + 1)) in *. set (K := inject_Z k) in *.
  set (B := inject_Z _) in H2 |- *.
  assert (E : (A * (K / 100) == (A * K) / 100)%Q) by field.
  rewrite E. set (P := (A * K)%Q) in *. clearbody P B. clear -H2.
  apply Qmult_le_compat_r; [done | by compute].
Qed.

(** C8.  For every coupon array [c], the probabilities the loop of
    [create_customers(n, c)] computes for a customer with multiplier [m]
    (one of [mults n], hence positive) are [(j+1) * m] at position [j]:
    non-decreasing in the position, and strictly increasing when the
    multiplier is positive.  When the coupons of [c] are pairwise distinct
    (they become column labels, and the frame is keyed by them), the frame
    has [n] customer rows and every row holds these values: the acceptance
    probability of the coupon at position [j] of [c] is [(j+1)] times the
    customer's multiplier. *)
Theorem acceptance_increasing_in_position rng n (cs : list Z) df :
  create_customers rng n cs = Ok df ->
  (forall m, m ∈ mults n ->
     (0 < m)%Q /\
     length (probs_row m (length cs)) = length cs /\
     (forall (j : nat) pj, probs_row m (length cs) !! j = Some pj ->
        pj = (inject_Z (Z.of_nat j + 1) * m)%Q) /\
     (forall (j k : nat) pj pk,
        probs_row m (length cs) !! j = Some pj ->
        probs_row m (length cs) !! k = Some pk ->
        ((j <= k)%nat -> (pj <= pk)%Q) /\
        ((0 < m)%Q -> (j < k)%nat -> (pj < pk)%Q))) /\
  (NoDup cs ->
   length (rows df) = Z.to_nat n /\
   forall row, row ∈ rows df ->
   exists m, m ∈ mults n /\ (0 < m)%Q /\
     (forall (j : nat) cj, cs !! j = Some cj ->
        series_get row (prob_coupon cj) = Ok (inject_Z (Z.of_nat j + 1) * m)%Q) /\
     (forall (j k : nat) cj ck pj pk,
        cs !! j = Some cj -> cs !! k = Some ck ->
        series_get row (prob_coupon cj) = Ok pj ->
        series_get row (prob_coupon ck) = Ok pk ->
        ((j <= k)%nat -> (pj <= pk)%Q) /\
        ((0 < m)%Q -> (j < k)%nat -> (pj < pk)%Q))).
Proof.
  intros Hdf.
  assert (Hmono : forall (m : Q) (j k : nat),
            (0 < m)%Q ->
            ((j <= k)%nat ->
             (inject_Z (Z.of_nat j + 1) * m <= inject_Z (Z.of_nat k + 1) * m)%Q) /\
            ((j < k)%nat ->
             (inject_Z (Z.of_nat j + 1) * m < inject_Z (Z.of_nat k + 1) * m)%Q)).
  { intros m j k Hpos. split.
    - intros Hjk.
      assert (inject_Z (Z.of_nat j + 1) <= inject_Z (Z.of_nat k + 1))%Q
        by (rewrite <- Zle_Qle; lia).
      nra.
    - intros Hjk.
      assert (inject_Z (Z.of_nat j + 1) < inject_Z (Z.of_nat k + 1))%Q
        by (rewrite <- Zlt_Qlt; lia).
      nra. }
  split.
  - intros m Hm. pose proof (mults_pos _ _ Hm) as Hpos.
    split; [done|]. split; [apply probs_row_length|].
    assert (Hval : forall (j : nat) pj,
              probs_row m (length cs) !! j = Some pj ->
              pj = (inject_Z (Z.of_nat j + 1) * m)%Q).
    { intros j pj Hj. pose proof (lookup_lt_Some _ _ _ Hj) as Hlt.
      rewrite probs_row_length in Hlt.
      rewrite probs_row_lookup in Hj by done. by injection Hj as <-. }
    split; [exact Hval|].
    intros j k pj pk Hj Hk. rewrite (Hval _ _ Hj), (Hval _ _ Hk).
    destruct (Hmono m j k Hpos) as [H1 H2]. split; [exact H1|]. intros _. exact H2.
  - intros Hnd. split.
    { pose proof Hdf as (rm & rc & Hrm & Hrc & _ & _ & ->)%create_customers_spec.
      simpl. rewrite length_zip_with. lia. }
    intros row Hrow.
    destruct (created_rows _ _ _ _ _ Hdf Hrow) as (m & v & Hm & _ & ->).
    pose proof (mults_pos _ _ Hm) as Hpos.
    exists m. split; [done|]. split; [done|]. split.
    + intros j cj Hj. by apply created_row_lookup.
    + intros j k cj ck pj pk Hj Hk Hpj Hpk.
      rewrite (created_row_lookup _ _ _ _ _ Hnd Hj) in Hpj.
      rewrite (created_row_lookup _ _ _ _ _ Hnd Hk) in Hpk.
      injection Hpj as <-. injection Hpk as <-.
      destruct (Hmono m j k Hpos) as [H1 H2]. split; [exact H1|]. intros _. exact H2.
Qed.

(** The statement above on three customers and the coupons 4, 5, 6, with
    every draw equal to 0.5: the multiplier drawn is 0.02, and the first
    customer gets the probabilities 0.02, 0.04 and 0.06. *)
Lemma acceptance_increasing_in_position_witness :
  exists df, create_customers (rng_const (1 # 2)) 3 [4; 5; 6] = Ok df /\
    (exists row p4 p5 p6,
       rows df !! 0%nat = Some row /\
       series_get row (prob_coupon 4) = Ok p4 /\ (p4 == 2 # 100)%Q /\
       series_get row (prob_coupon 5) = Ok p5 /\ (p5 == 4 # 100)%Q /\
       series_get row (prob_coupon 6) = Ok p6 /\ (p6 == 6 # 100)%Q) /\
    (forall m, m ∈ mults 3 ->
       (0 < m)%Q /\
       length (probs_row m (length [4; 5; 6])) = length [4; 5; 6] /\
       (forall (j : nat) pj, probs_row m (length [4; 5; 6]) !! j = Some pj ->
          pj = (inject_Z (Z.of_nat j + 1) * m)%Q) /\
       (forall (j k : nat) pj pk,
          probs_row m (length [4; 5; 6]) !! j = Some pj ->
          probs_row m (length [4; 5; 6]) !! k = Some pk ->
          ((j <= k)%nat -> (pj <= pk)%Q) /\
          ((0 < m)%Q -> (j < k)%nat -> (pj < pk)%Q))) /\
    length (rows df) = 3%nat /\
    forall row, row ∈ rows df ->
    exists m, m ∈ mults 3 /\ (0 < m)%Q /\
      (forall (j : nat) cj, [4; 5; 6] !! j = Some cj ->
         series_get row (prob_coupon cj) = Ok (inject_Z (Z.of_nat j + 1) * m)%Q) /\
      (forall (j k : nat) cj ck pj pk,
         [4; 5; 6] !! j = Some cj -> [4; 5; 6] !! k = Some ck ->
         series_get row (prob_coupon cj) = Ok pj ->
         series_get row (prob_coupon ck) = Ok pk ->
         ((j <= k)%nat -> (pj <= pk)%Q) /\
         ((0 < m)%Q -> (j < k)%nat -> (pj < pk)%Q)).
Proof.
  destruct (result_inv (fun _ => True)
              (create_customers (rng_const (1 # 2)) 3 [4; 5; 6]))
    as (df & Hdf & _); [vm_compute; exact I|].
  assert (Hnd : NoDup [4; 5; 6]).
  { apply (bool_decide_unpack (NoDup [4; 5; 6])). vm_compute. exact I. }
  destruct (acceptance_increasing_in_position (rng_const (1 # 2)) 3 [4; 5; 6]
              df Hdf) as [Hprobs Hframe].
  exists df. split; [exact Hdf|]. split.
  { revert Hdf. vm_compute. intros [= <-].
    eexists _, _, _, _. split; [reflexivity|].
    split; [vm_compute; reflexivity|]. split; [reflexivity|].
    split; [vm_compute; reflexivity|]. split; [reflexivity|].
    split; [vm_compute; reflexivity|]. reflexivity. }
  split; [exact Hprobs|]. exact (Hframe Hnd).
Defined.

(** C10, counterexample.  For [n = 0], which is below 2, no draw is
    made and [create_customers] returns the frame without rows. *)
Lemma create_customers_zero_returns :
  0 < 2 /\
  create_customers (rng_const (1 # 2)) 0 notebook_coupons =
  Ok {| columns := map prob_coupon notebook_coupons ++ [cltv_label];
        rows := [] |}.
Proof. split; [lia | vm_compute; reflexivity]. Qed.

(** C10, amended.  For [n < 2] the multiplier population is empty, whatever
    the coupons are.  For [n = 1] the first draw raises [IndexError], before
    any row is written; for [n <= 0] nothing is drawn and the frame without
    rows comes back. *)
Theorem create_customers_small_n (rng : Rng) (n : Z) (cs : list Z) :
  n < 2 ->
  mults n = [] /\
  (n = 1 -> create_customers rng n cs = Raise IndexError) /\
  (n <= 0 ->
   create_customers rng n cs =
   Ok {| columns := map prob_coupon cs ++ [cltv_label]; rows := [] |}).
Proof.
  intros Hn. pose proof (mults_small n Hn) as Hm. split; [done|]. split.
  - intros ->. unfold create_customers, choices. rewrite Hm. simpl.
    by rewrite getitem_nil.
  - intros H0. unfold create_customers, choices, range, arange.
    replace (Z.to_nat n) with 0%nat by lia.
    replace (Z.to_nat (n - 0)) with 0%nat by lia. done.
Qed.

Lemma create_customers_small_n_witness :
  1 < 2 /\ create_customers (rng_const (1 # 2)) 1 notebook_coupons = Raise IndexError.
Proof.
  split; [lia|].
  apply (create_customers_small_n (rng_const (1 # 2)) 1 notebook_coupons); lia.
Defined.

(** C6, at a failing input.  With 20 customers and the coupons 4 to 11, a
    draw of 0.99 picks the multiplier 0.19 and the acceptance value of
    coupon 11 is 1.52, above 1. *)
Lemma create_customers_value_above_one :
  exists df row p,
    create_customers (rng_const (99 # 100)) 20 notebook_coupons = Ok df /\
    row ∈ rows df /\
    series_get row (prob_coupon 11) = Ok p /\ (1 < p)%Q.
Proof.
  eexists _, _, _. split; [vm_compute; reflexivity|].
  split; [left|]. split; [vm_compute; reflexivity|]. reflexivity.
Qed.

(** ** Cell 4: the BAU baseline *)

Lemma elem_of_notebook_coupons k : k ∈ notebook_coupons <-> 4 <= k < 12.
Proof. change notebook_coupons with (arange 4 12). apply elem_of_arange. Qed.

Lemma whole_cltvs_check df : whole_cltvsb df = true -> whole_cltvs df.
Proof.
  unfold whole_cltvsb. rewrite forallb_forall. intros H r v Hr Hv.
  apply list_elem_of_In in Hr. specialize (H r Hr). simpl in H.
  by rewrite Hv in H.
Qed.

Lemma labelled_check df : labelledb df = true -> labelled df.
Proof.
  unfold labelledb. rewrite forallb_forall. intros H r Hr.
  apply list_elem_of_In in Hr. specialize (H r Hr). simpl in H.
  by apply bool_decide_eq_true in H.
Qed.

Lemma created_cltvs_whole rng n (cs : list Z) df :
  NoDup cs -> create_customers rng n cs = Ok df -> whole_cltvs df.
Proof.
  intros Hnd Hdf r v Hr Hv.
  destruct (created_cltv_range _ _ _ _ _ Hnd Hdf Hr) as (z & Hz & Hrange).
  rewrite Hz in Hv. injection Hv as <-.
  unfold whole_cltv, whole_cltvb. rewrite Qfloor_Z.
  apply andb_true_iff. split.
  - apply Qeq_bool_iff. reflexivity.
  - apply Z.ltb_lt. lia.
Qed.

Lemma prob_lookup_bau (x : Series) (k : Z) :
  prob_lookup coupon_bau_label (series_set x coupon_bau_label (inject_Z k)) =
  series_get x (prob_coupon k).
Proof.
  unfold prob_lookup. rewrite series_get_set_eq. simpl.
  rewrite py_int_inject. apply series_get_set_ne.
  intros E. by apply (prob_coupon_not_coupon_bau k).
Qed.

Lemma coupons_bau_lookup df cb (i : nat) x :
  coupons_bau df = Ok cb -> rows df !! i = Some x ->
  exists v, series_get x cltv_label = Ok v /\
            cb !! i = Some (py_round (v * (1 # 10))).
Proof.
  unfold coupons_bau, column. intros H Hx. inv_bind H as cl Hcl.
  injection H as <-.
  destruct (traverse_lookup _ _ _ _ _ Hcl Hx) as (v & Hv & Hg).
  exists v. split; [done|]. by rewrite list_lookup_fmap, Hv.
Qed.

Lemma coupons_bau_length df cb :
  coupons_bau df = Ok cb -> length cb = length (rows df).
Proof.
  unfold coupons_bau, column. intros H. inv_bind H as cl Hcl.
  injection H as <-. rewrite length_map. by eapply traverse_length.
Qed.

(** C9.  On a frame whose columns are [prob_coupon_j] for the candidate
    coupons [cs], and [cltv], and whose CLTVs are whole numbers, the BAU
    lookup in a row succeeds exactly when [round(0.1 * cltv)] is a candidate
    coupon, and raises [KeyError] otherwise; with the coupons 4 to 11 it
    raises [KeyError] exactly for a CLTV below 35 or at least 115. *)
Theorem bau_lookup_succeeds_iff (cs : list Z) df cb df1 :
  whole_cltvs df ->
  (forall x, x ∈ rows df -> x.*1 = map prob_coupon cs ++ [cltv_label]) ->
  coupons_bau df = Ok cb ->
  set_column df coupon_bau_label (map inject_Z cb) = Ok df1 ->
  forall (i : nat) x1, rows df1 !! i = Some x1 ->
  exists v, series_get x1 cltv_label = Ok v /\
    (is_ok (prob_lookup coupon_bau_label x1) <-> py_round (v * (1 # 10)) ∈ cs) /\
    (py_round (v * (1 # 10)) ∉ cs ->
     prob_lookup coupon_bau_label x1 = Raise KeyError) /\
    (cs = notebook_coupons ->
     (prob_lookup coupon_bau_label x1 = Raise KeyError <->
      (v < 35)%Q \/ (115 <= v)%Q)).
Proof.
  intros Hwhole Hshape Hcb Hdf1 i x1 Hx1.
  apply set_column_rows in Hdf1 as [Hlen Hrows]. rewrite Hrows in Hx1.
  apply lookup_zip_with_Some in Hx1 as (x & q & -> & Hx & Hq).
  destruct (coupons_bau_lookup _ _ _ _ Hcb Hx) as (v & Hv & Hk).
  rewrite list_lookup_fmap, Hk in Hq. injection Hq as <-.
  set (k := py_round (v * (1 # 10))) in *.
  assert (Hshape' : x.*1 = map prob_coupon cs ++ [cltv_label])
    by (eapply Hshape, list_elem_of_lookup_2, Hx).
  assert (Hiff : is_ok (series_get x (prob_coupon k)) <-> k ∈ cs)
    by (by rewrite series_get_ok_iff, Hshape', header_elem_of).
  assert (Hmiss : k ∉ cs -> series_get x (prob_coupon k) = Raise KeyError).
  { intros Hk'. apply series_get_missing. by rewrite Hshape', header_elem_of. }
  exists v. split.
  { rewrite series_get_set_ne; [done|]. unfold coupon_bau_label, cltv_label. done. }
  rewrite prob_lookup_bau. split; [done|]. split; [done|].
  intros ->. pose proof (py_round_tenth_range v) as Hr. fold k in Hr.
  rewrite elem_of_notebook_coupons in Hiff, Hmiss. split.
  - intros E. rewrite E in Hiff. simpl in Hiff.
    destruct (Qlt_le_dec v 35); [by left|].
    destruct (Qlt_le_dec v 115); [|by right].
    exfalso. apply Hiff, Hr. done.
  - intros Hv'. apply Hmiss. intros Hk'. apply Hr in Hk'. lra.
Qed.

(** The statement above on two customers and the coupons 4 to 11: the one
    with a CLTV of 98 finds the column of the coupon 10, the one with a
    CLTV of 30 looks for the column of the coupon 3 and gets [KeyError]. *)
Lemma bau_lookup_succeeds_iff_witness :
  exists cb df1,
    coupons_bau two_customers = Ok cb /\ cb = [10; 3] /\
    set_column two_customers coupon_bau_label (map inject_Z cb) = Ok df1 /\
    (exists x1 p, rows df1 !! 0%nat = Some x1 /\
       series_get x1 cltv_label = Ok 98%Q /\
       prob_lookup coupon_bau_label x1 = Ok p /\ (p == 42 # 100)%Q) /\
    (exists x1, rows df1 !! 1%nat = Some x1 /\
       series_get x1 cltv_label = Ok 30%Q /\
       prob_lookup coupon_bau_label x1 = Raise KeyError) /\
    forall (i : nat) x1, rows df1 !! i = Some x1 ->
    exists v, series_get x1 cltv_label = Ok v /\
      (is_ok (prob_lookup coupon_bau_label x1) <->
       py_round (v * (1 # 10)) ∈ notebook_coupons) /\
      (py_round (v * (1 # 10)) ∉ notebook_coupons ->
       prob_lookup coupon_bau_label x1 = Raise KeyError) /\
      (notebook_coupons = notebook_coupons ->
       (prob_lookup coupon_bau_label x1 = Raise KeyError <->
        (v < 35)%Q \/ (115 <= v)%Q)).
Proof.
  eexists _, _. split; [vm_compute; reflexivity|]. split; [reflexivity|].
  split; [vm_compute; reflexivity|]. split.
  { eexists _, _. split; [vm_compute; reflexivity|].
    split; [vm_compute; reflexivity|]. split; [vm_compute; reflexivity|].
    reflexivity. }
  split.
  { eexists. split; [vm_compute; reflexivity|].
    split; [vm_compute; reflexivity|]. vm_compute; reflexivity. }
  eapply (bau_lookup_succeeds_iff notebook_coupons two_customers).
  - apply whole_cltvs_check. vm_compute; reflexivity.
  - intros x Hx. simpl in Hx.
    repeat (apply elem_of_cons in Hx as [->|Hx]; [vm_compute; reflexivity|]).
    by apply elem_of_nil in Hx.
  - vm_compute; reflexivity.
  - vm_compute; reflexivity.
Defined.

(** C4, counterexample.  The first customer of the notebook has a CLTV of
    98 and is assigned the coupon 10, which is not 9.8. *)
Lemma bau_coupon_not_tenth_of_cltv :
  exists cl cb,
    column notebook_df cltv_label = Ok cl /\
    coupons_bau notebook_df = Ok cb /\
    cl !! 0%nat = Some 98%Q /\ cb !! 0%nat = Some 10 /\
    ~ (inject_Z 10 == 98 * (1 # 10))%Q.
Proof.
  eexists _, _. split; [vm_compute; reflexivity|].
  split; [vm_compute; reflexivity|].
  split; [reflexivity|]. split; [reflexivity|]. intros E. discriminate E.
Qed.

(** C4, amended.  Under the BAU baseline, on whole-number CLTVs, every
    customer's coupon is 10% of the customer's CLTV rounded to the nearest
    integer: it differs from 10% of the CLTV by at most one half, and when
    10% of the CLTV lies halfway between two integers the coupon is the even
    one of the two (a CLTV of 45 gives 4, one of 55 gives 6). *)
Theorem bau_coupon_is_rounded_tenth df cb :
  whole_cltvs df -> coupons_bau df = Ok cb ->
  exists cl, column df cltv_label = Ok cl /\
    Forall whole_cltv cl /\
    Forall2 (fun v k =>
               k = py_round (v * (1 # 10)) /\
               (- (1 # 2) <= inject_Z k - v * (1 # 10))%Q /\
               (inject_Z k - v * (1 # 10) <= 1 # 2)%Q /\
               (forall z, (v * (1 # 10) == inject_Z z + (1 # 2))%Q ->
                  k = (if Z.even z then z else z + 1) /\ Z.even k = true))
      cl cb.
Proof.
  unfold coupons_bau. intros Hwhole H. inv_bind H as cl Hcl. injection H as <-.
  exists cl. split; [done|]. split.
  - apply Forall_forall. intros v (k & Hk)%list_elem_of_lookup_1.
    unfold column in Hcl. apply traverse_Ok in Hcl.
    destruct (Forall2_lookup_r _ _ _ _ _ Hcl Hk) as (r & Hr & Hv).
    eapply Hwhole; [eapply list_elem_of_lookup_2, Hr | exact Hv].
  - apply Forall2_fmap_r, Forall_Forall2_diag.
    apply Forall_forall. intros v _. split; [done|].
    destruct (py_round_near (v * (1 # 10))) as [Hlo Hhi].
    split; [done|]. split; [done|]. intros z Hz.
    rewrite (py_round_comp _ _ Hz), py_round_half_even.
    split; [done|]. destruct (Z.even z) eqn:E; [exact E|].
    rewrite Z.even_add, E. reflexivity.
Qed.

Lemma bau_coupon_is_rounded_tenth_witness :
  column tie_customers cltv_label = Ok [45; 55]%Q /\
  coupons_bau tie_customers = Ok [4; 6] /\
  (45 * (1 # 10) == inject_Z 4 + (1 # 2))%Q /\
  (55 * (1 # 10) == inject_Z 5 + (1 # 2))%Q /\
  exists cl, column tie_customers cltv_label = Ok cl /\
    Forall whole_cltv cl /\
    Forall2 (fun v k =>
               k = py_round (v * (1 # 10)) /\
               (- (1 # 2) <= inject_Z k - v * (1 # 10))%Q /\
               (inject_Z k - v * (1 # 10) <= 1 # 2)%Q /\
               (forall z, (v * (1 # 10) == inject_Z z + (1 # 2))%Q ->
                  k = (if Z.even z then z else z + 1) /\ Z.even k = true))
      cl [4; 6].
Proof.
  split; [vm_compute; reflexivity|]. split; [vm_compute; reflexivity|].
  split; [reflexivity|]. split; [reflexivity|].
  apply (bau_coupon_is_rounded_tenth tie_customers).
  - apply whole_cltvs_check. vm_compute; reflexivity.
  - vm_compute; reflexivity.
Defined.

(** What the BAU cell does to each row. *)
Lemma add_bau_rows df df' :
  add_bau df = Ok df' ->
  length (rows df') = length (rows df) /\
  forall (k : nat) r, rows df !! k = Some r ->
    exists cp p roi,
      rows df' !! k =
      Some (series_set
              (series_set (series_set r coupon_bau_label cp)
                 prob_coupon_bau_label p)
              roi_bau_label roi).
Proof.
  unfold add_bau. intros H.
  inv_bind H as cb Hcb. inv_bind H as df1 Hdf1. inv_bind H as pb Hpb.
  inv_bind H as df2 Hdf2. inv_bind H as p Hp. inv_bind H as cl Hcl.
  inv_bind H as cp Hcp.
  destruct (set_column_rows _ _ _ _ Hdf1) as [L1 R1].
  destruct (set_column_rows _ _ _ _ Hdf2) as [L2 R2].
  destruct (set_column_rows _ _ _ _ H) as [L3 R3].
  assert (E1 : length (rows df1) = length (rows df)).
  { rewrite R1, length_zip_with. lia. }
  assert (E2 : length (rows df2) = length (rows df)).
  { rewrite R2, length_zip_with. lia. }
  split.
  { rewrite R3, length_zip_with. lia. }
  intros k r Hr. pose proof (lookup_lt_Some _ _ _ Hr) as Hk.
  destruct (lookup_lt_is_Some_2 (map inject_Z cb) k) as [v1 Hv1]; [lia|].
  destruct (lookup_lt_is_Some_2 pb k) as [v2 Hv2]; [lia|].
  destruct (lookup_lt_is_Some_2 (roi_values p cl cp) k) as [v3 Hv3]; [lia|].
  exists v1, v2, v3.
  eapply set_column_lookup; [exact H| |exact Hv3].
  eapply set_column_lookup; [exact Hdf2| |exact Hv2].
  eapply set_column_lookup; [exact Hdf1|exact Hr|exact Hv1].
Qed.

(** The BAU columns leave the probabilities and the CLTV as they were. *)
Lemma add_bau_preserves df df' i j :
  add_bau df = Ok df' ->
  acceptance df' i j = acceptance df i j /\ cltv_of df' i = cltv_of df i.
Proof.
  intros [Hlen Hrows]%add_bau_rows. unfold acceptance, cltv_of, loc.
  rewrite Hlen. destruct (_ && _) eqn:Hin; [|done].
  apply andb_true_iff in Hin as [H0%Z.leb_le H1%Z.ltb_lt].
  destruct (lookup_lt_is_Some_2 (rows df) (Z.to_nat i)) as [r Hr]; [lia|].
  destruct (Hrows _ _ Hr) as (cp & p & roi & Hr').
  rewrite Hr, Hr'. simpl. split.
  - rewrite !series_get_set_ne; [done|..].
    + intros E. by apply (prob_coupon_not_coupon_bau j).
    + intros E. by apply (prob_coupon_not_prob_coupon_bau j).
    + intros E. by apply (prob_coupon_not_roi_bau j).
  - rewrite !series_get_set_ne; done.
Qed.

(** ** Cells 5, 11 and 12: the return of a policy *)

Lemma roi_values_length p cl cp :
  length p = length cl -> length cp = length cl ->
  length (roi_values p cl cp) = length cl.
Proof. intros Hp Hcp. unfold roi_values. rewrite !length_zip_with. lia. Qed.

Lemma apply_bau_rows (rs : list Series) (cb : list Z) pb :
  traverse (prob_lookup coupon_bau_label)
    (zip_with (fun s v => series_set s coupon_bau_label v) rs
       (map inject_Z cb)) = Ok pb ->
  Forall2 (fun xc p => series_get (fst xc) (prob_coupon (py_int (snd xc))) = Ok p)
    (zip rs (map inject_Z cb)) pb.
Proof.
  revert cb pb. induction rs as [|x rs IH]; intros [|k cb] pb H; simpl in *;
    try (injection H as <-; constructor).
  inv_bind H as p Hp. inv_bind H as ps Hps. injection H as <-.
  constructor; [|by apply IH]. simpl.
  rewrite prob_lookup_bau in Hp. by rewrite py_int_inject.
Qed.

Lemma apply_opt_rows (rs : list Series) (co : list (option Q)) po :
  length co = length rs ->
  apply_rows_opt rs co = Ok po ->
  exists cps, co = map Some cps /\
    Forall2 (fun xc p => series_get (fst xc) (prob_coupon (py_int (snd xc))) = Ok p)
      (zip rs cps) po.
Proof.
  revert co po. induction rs as [|x rs IH]; intros [|o co] po Hlen H;
    simpl in *; try done.
  - injection H as <-. exists []. split; [done | constructor].
  - inv_bind H as p Hp. inv_bind H as ps Hps. injection H as <-.
    destruct o as [cp|]; [|done]. simpl in Hp.
    destruct (IH co ps) as (cps & -> & Hf); [lia | done |].
    exists (cp :: cps). split; [done|]. by constructor.
Qed.

(** The row-wise lookup on the frame with the coupon column is the lookup
    of each customer's own coupon in the original rows. *)
Lemma apply_bau_rows_eq (rs : list Series) (cb : list Z) :
  traverse (prob_lookup coupon_bau_label)
    (zip_with (fun s v => series_set s coupon_bau_label v) rs
       (map inject_Z cb)) =
  traverse (fun xc => series_get (fst xc) (prob_coupon (py_int (snd xc))))
    (zip rs (map inject_Z cb)).
Proof.
  revert cb. induction rs as [|r rs IH]; intros [|k cb]; try done.
  cbn [map zip_with]. rewrite !traverse_cons, IH.
  cbn [fst snd]. by rewrite prob_lookup_bau, py_int_inject.
Qed.

Lemma apply_opt_rows_eq (rs : list Series) (cps : list Q) :
  apply_rows_opt rs (map Some cps) =
  traverse (fun xc => series_get (fst xc) (prob_coupon (py_int (snd xc))))
    (zip rs cps).
Proof.
  revert cps. induction rs as [|r rs IH]; intros [|cp cps]; try done.
  cbn [map zip_with apply_rows_opt]. rewrite traverse_cons, IH. done.
Qed.

Lemma policy_traverse (rs : list Series) (cps pb cl : list Q) :
  length cps = length rs ->
  Forall2 (fun x v => series_get x cltv_label = Ok v) rs cl ->
  Forall2 (fun xc p => series_get (fst xc) (prob_coupon (py_int (snd xc))) = Ok p)
    (zip rs cps) pb ->
  traverse (fun xc => expected_return (fst xc) (snd xc)) (zip rs cps) =
  Ok (roi_values pb cl cps).
Proof.
  intros Hlen Hcl. revert cps pb Hlen.
  induction Hcl as [|x v rs cl Hv Hcl IH]; intros [|cp cps] pb Hlen Hpb;
    simpl in *; try done.
  - by destruct pb.
  - apply Forall2_cons_inv_l in Hpb as (p & ps & Hp & Hps & ->). simpl in *.
    assert (Hx : expected_return x cp = Ok (p * (v - cp))%Q).
    { unfold expected_return. rewrite Hp. simpl. by rewrite Hv. }
    rewrite Hx. simpl. rewrite (IH cps ps) by (done || lia). done.
Qed.

Lemma expected_return_Ok (r : Series) (cp q : Q) :
  expected_return r cp = Ok q ->
  exists p v, series_get r (prob_coupon (py_int cp)) = Ok p /\
              series_get r cltv_label = Ok v /\ q = (p * (v - cp))%Q.
Proof.
  unfold expected_return. intros H. inv_bind H as p Hp. inv_bind H as v Hv.
  injection H as <-. eauto.
Qed.

(** From the per-customer returns back to the columns. *)
Lemma policy_columns (rs : list Series) (cps qs : list Q) :
  length cps = length rs ->
  traverse (fun xc => expected_return (fst xc) (snd xc)) (zip rs cps) = Ok qs ->
  exists pb cl,
    traverse (fun xc => series_get (fst xc) (prob_coupon (py_int (snd xc))))
      (zip rs cps) = Ok pb /\
    traverse (fun s => series_get s cltv_label) rs = Ok cl /\
    qs = roi_values pb cl cps.
Proof.
  revert cps qs. induction rs as [|r rs IH]; intros [|cp cps] qs Hlen H;
    try done.
  - injection H as <-. by exists [], [].
  - cbn [zip_with] in H. rewrite traverse_cons in H.
    inv_bind H as q Hq. inv_bind H as qs' Hqs. injection H as <-.
    cbn [fst snd] in Hq. apply expected_return_Ok in Hq as (p & v & Hp & Hv & ->).
    destruct (IH cps qs') as (pb & cl & Hpb & Hcl & ->); [simpl in Hlen; lia|done|].
    exists (p :: pb), (v :: cl). cbn [zip_with]. rewrite !traverse_cons.
    cbn [fst snd]. rewrite Hp, Hpb, Hv, Hcl. done.
Qed.

Lemma policy_roi_bau df cb r :
  coupons_bau df = Ok cb -> policy_roi df (map inject_Z cb) = Ok r ->
  ROI_BAU df = Ok r.
Proof.
  intros Hcb H. unfold policy_roi in H. inv_bind H as qs Hqs.
  injection H as <-.
  pose proof (coupons_bau_length _ _ Hcb) as Hlen.
  apply policy_columns in Hqs as (pb & cl & Hpb & Hcl & ->);
    [|by rewrite length_map].
  pose proof (traverse_length _ _ _ Hpb) as Lpb.
  pose proof (traverse_length _ _ _ Hcl) as Lcl.
  assert (Hcol : column df cltv_label = Ok cl) by exact Hcl.
  rewrite length_zip_with, length_map in Lpb.
  unfold ROI_BAU, add_bau. rewrite Hcb. simpl.
  destruct (set_column_Ok df coupon_bau_label (map inject_Z cb))
    as (df1 & Hdf1 & L1); [by rewrite length_map|].
  rewrite Hdf1. simpl.
  unfold apply_rows. rewrite (proj2 (set_column_rows _ _ _ _ Hdf1)).
  rewrite apply_bau_rows_eq, Hpb. simpl.
  destruct (set_column_Ok df1 prob_coupon_bau_label pb)
    as (df2 & Hdf2 & L2); [lia|].
  rewrite Hdf2. simpl.
  rewrite (column_set_column _ _ _ _ Hdf2). simpl.
  rewrite (column_set_column_ne _ prob_coupon_bau_label cltv_label _ _
             ltac:(by compute) Hdf2).
  rewrite (column_set_column_ne _ coupon_bau_label cltv_label _ _
             ltac:(by compute) Hdf1).
  rewrite Hcol. simpl.
  rewrite (column_set_column_ne _ prob_coupon_bau_label coupon_bau_label _ _
             ltac:(by compute) Hdf2).
  rewrite (column_set_column _ _ _ _ Hdf1). simpl.
  destruct (set_column_Ok df2 roi_bau_label
              (roi_values pb cl (map inject_Z cb))) as (df3 & Hdf3 & L3).
  { rewrite roi_values_length; rewrite ?length_map; lia. }
  rewrite Hdf3. simpl. by rewrite (column_set_column _ _ _ _ Hdf3).
Qed.

Lemma policy_roi_opt df cps r :
  length cps = length (rows df) -> policy_roi df cps = Ok r ->
  ROI_OPT df (map Some cps) = Ok r.
Proof.
  intros Hlen H. unfold policy_roi in H. inv_bind H as qs Hqs.
  injection H as <-.
  apply policy_columns in Hqs as (pb & cl & Hpb & Hcl & ->); [|done].
  pose proof (traverse_length _ _ _ Hpb) as Lpb.
  pose proof (traverse_length _ _ _ Hcl) as Lcl.
  assert (Hcol : column df cltv_label = Ok cl) by exact Hcl.
  rewrite length_zip_with in Lpb.
  unfold ROI_OPT, add_opt. rewrite apply_opt_rows_eq, Hpb. simpl.
  destruct (set_column_Ok df prob_coupon_opt_label pb)
    as (df1 & Hdf1 & L1); [lia|].
  rewrite Hdf1. simpl.
  rewrite (column_set_column _ _ _ _ Hdf1). simpl.
  rewrite (column_set_column_ne _ prob_coupon_opt_label cltv_label _ _
             ltac:(by compute) Hdf1).
  rewrite Hcol. simpl.
  assert (Hd : map (default 0%Q) (map Some cps) = cps).
  { rewrite map_map. apply map_id. }
  rewrite Hd.
  destruct (set_column_Ok df1 roi_opt_label (roi_values pb cl cps))
    as (df2 & Hdf2 & L2).
  { rewrite roi_values_length; lia. }
  rewrite Hdf2. simpl. by rewrite (column_set_column _ _ _ _ Hdf2).
Qed.

(** The column [roi_bau] holds, customer by customer, the expected return
    of the BAU coupon. *)
Lemma add_bau_returns df df' cb :
  add_bau df = Ok df' -> coupons_bau df = Ok cb ->
  exists qs, column df' roi_bau_label = Ok qs /\
    traverse (fun xc => expected_return (fst xc) (snd xc))
      (zip (rows df) (map inject_Z cb)) = Ok qs.
Proof.
  intros Hdf' Hcb0. unfold add_bau in Hdf'.
  inv_bind Hdf' as cb' Hcb. rewrite Hcb0 in Hcb. injection Hcb as <-.
  inv_bind Hdf' as df1 Hdf1. inv_bind Hdf' as pb Hpb.
  inv_bind Hdf' as df2 Hdf2.
  inv_bind Hdf' as p Hp. inv_bind Hdf' as cl Hcl. inv_bind Hdf' as cp Hcp.
  rewrite (column_set_column _ _ _ _ Hdf2) in Hp. injection Hp as <-.
  rewrite (column_set_column_ne _ prob_coupon_bau_label cltv_label _ _
             ltac:(by compute) Hdf2) in Hcl.
  rewrite (column_set_column_ne _ prob_coupon_bau_label coupon_bau_label _ _
             ltac:(by compute) Hdf2) in Hcp.
  rewrite (column_set_column_ne _ coupon_bau_label cltv_label _ _
             ltac:(by compute) Hdf1) in Hcl.
  rewrite (column_set_column _ _ _ _ Hdf1) in Hcp. injection Hcp as <-.
  eexists. split; [apply (column_set_column _ _ _ _ Hdf')|].
  unfold apply_rows in Hpb.
  destruct (set_column_rows _ _ _ _ Hdf1) as [Hlen Hrows].
  rewrite Hrows in Hpb. apply apply_bau_rows in Hpb.
  rewrite (policy_traverse _ _ pb cl); [done | done | | done].
  by apply traverse_Ok.
Qed.

(** The column [roi_opt] holds, customer by customer, the expected return
    of the coupon left in [coupon_opt]. *)
Lemma add_opt_returns df cps qs :
  length cps = length (rows df) ->
  traverse (fun xc => expected_return (fst xc) (snd xc)) (zip (rows df) cps)
    = Ok qs ->
  exists df', add_opt df (map Some cps) = Ok df' /\
    column df' roi_opt_label = Ok qs.
Proof.
  intros Hlen Hqs.
  apply policy_columns in Hqs as (pb & cl & Hpb & Hcl & ->); [|done].
  pose proof (traverse_length _ _ _ Hpb) as Lpb.
  pose proof (traverse_length _ _ _ Hcl) as Lcl.
  assert (Hcol : column df cltv_label = Ok cl) by exact Hcl.
  rewrite length_zip_with in Lpb.
  unfold add_opt. rewrite apply_opt_rows_eq, Hpb. simpl.
  destruct (set_column_Ok df prob_coupon_opt_label pb)
    as (df1 & Hdf1 & L1); [lia|].
  rewrite Hdf1. simpl.
  rewrite (column_set_column _ _ _ _ Hdf1). simpl.
  rewrite (column_set_column_ne _ prob_coupon_opt_label cltv_label _ _
             ltac:(by compute) Hdf1).
  rewrite Hcol. simpl.
  assert (Hd : map (default 0%Q) (map Some cps) = cps).
  { rewrite map_map. apply map_id. }
  rewrite Hd.
  destruct (set_column_Ok df1 roi_opt_label (roi_values pb cl cps))
    as (df2 & Hdf2 & L2).
  { rewrite roi_values_length; lia. }
  exists df2. split; [done|]. by rewrite (column_set_column _ _ _ _ Hdf2).
Qed.

(** C5.  On a frame with at least one customer and whole-number CLTVs, for
    both policies the cells report an ROI exactly when the sum over all
    customers of the acceptance probability of the assigned coupon times
    (CLTV minus that coupon) is defined, and they report that sum:
    [ROI_BAU] with the BAU coupons, [ROI_OPT] with the coupons left in
    [coupon_opt]. *)
Theorem roi_is_expected_net_return df :
  rows df <> [] -> whole_cltvs df ->
  (forall r, ROI_BAU df = Ok r <->
     exists cb, coupons_bau df = Ok cb /\
                policy_roi df (map inject_Z cb) = Ok r) /\
  (forall coupon_opt r,
     length coupon_opt = length (rows df) ->
     (ROI_OPT df coupon_opt = Ok r <->
      exists cps, coupon_opt = map Some cps /\ policy_roi df cps = Ok r)).
Proof.
  intros _ _. split.
  - intros r. split; [|intros (cb & Hcb & Hr); by eapply policy_roi_bau].
    intros H. unfold ROI_BAU in H.
    inv_bind H as df' Hdf'. inv_bind H as roi Hroi. injection H as <-.
    unfold add_bau in Hdf'.
    inv_bind Hdf' as cb Hcb. inv_bind Hdf' as df1 Hdf1.
    inv_bind Hdf' as pb Hpb. inv_bind Hdf' as df2 Hdf2.
    inv_bind Hdf' as p Hp. inv_bind Hdf' as cl Hcl. inv_bind Hdf' as cp Hcp.
    rewrite (column_set_column _ _ _ _ Hdf') in Hroi. injection Hroi as <-.
    rewrite (column_set_column _ _ _ _ Hdf2) in Hp. injection Hp as <-.
    rewrite (column_set_column_ne _ prob_coupon_bau_label cltv_label _ _
               ltac:(by compute) Hdf2) in Hcl.
    rewrite (column_set_column_ne _ prob_coupon_bau_label coupon_bau_label _ _
               ltac:(by compute) Hdf2) in Hcp.
    rewrite (column_set_column_ne _ coupon_bau_label cltv_label _ _
               ltac:(by compute) Hdf1) in Hcl.
    rewrite (column_set_column _ _ _ _ Hdf1) in Hcp. injection Hcp as <-.
    exists cb. split; [done|]. unfold policy_roi.
    unfold apply_rows in Hpb.
    destruct (set_column_rows _ _ _ _ Hdf1) as [Hlen Hrows].
    rewrite Hrows in Hpb. apply apply_bau_rows in Hpb.
    rewrite (policy_traverse _ _ pb cl); [done | done | | done].
    by apply traverse_Ok.
  - intros co r Hlen. split.
    2:{ intros (cps & -> & Hr). rewrite length_map in Hlen.
        by apply policy_roi_opt. }
    intros H. unfold ROI_OPT in H.
    inv_bind H as df' Hdf'. inv_bind H as roi Hroi. injection H as <-.
    unfold add_opt in Hdf'.
    inv_bind Hdf' as po Hpo. inv_bind Hdf' as df1 Hdf1.
    inv_bind Hdf' as p Hp. inv_bind Hdf' as cl Hcl.
    rewrite (column_set_column _ _ _ _ Hdf') in Hroi. injection Hroi as <-.
    rewrite (column_set_column _ _ _ _ Hdf1) in Hp. injection Hp as <-.
    rewrite (column_set_column_ne _ prob_coupon_opt_label cltv_label _ _
               ltac:(by compute) Hdf1) in Hcl.
    destruct (apply_opt_rows _ _ _ Hlen Hpo) as (cps & -> & Hf).
    exists cps. split; [done|]. unfold policy_roi.
    rewrite length_map in Hlen.
    rewrite (policy_traverse _ _ po cl); [|done|by apply traverse_Ok|done].
    simpl. do 3 f_equal. rewrite <- list_fmap_compose. symmetry. apply list_fmap_id.
Qed.

Lemma roi_is_expected_net_return_witness :
  (exists r, ROI_BAU notebook_df = Ok r /\ (r == 12488 # 100)%Q /\
     exists cb, coupons_bau notebook_df = Ok cb /\
                policy_roi notebook_df (map inject_Z cb) = Ok r) /\
  (exists r, ROI_OPT notebook_df notebook_coupon_opt = Ok r /\
     (r == 15286 # 100)%Q /\
     exists cps, notebook_coupon_opt = map Some cps /\
                 policy_roi notebook_df cps = Ok r).
Proof.
  assert (Hrows : rows notebook_df <> []) by discriminate.
  assert (Hwhole : whole_cltvs notebook_df)
    by (apply whole_cltvs_check; vm_compute; reflexivity).
  split.
  - eexists. split; [vm_compute; reflexivity|]. split; [reflexivity|].
    apply (proj1 (proj1 (roi_is_expected_net_return notebook_df Hrows Hwhole) _)).
    vm_compute; reflexivity.
  - eexists. split; [vm_compute; reflexivity|]. split; [reflexivity|].
    apply (proj1 (proj2 (roi_is_expected_net_return notebook_df Hrows Hwhole)
                    notebook_coupon_opt _ eq_refl)).
    vm_compute; reflexivity.
Defined.

(** ** The value of an expression *)

Lemma tsum_empty v : tsum ∅ v = 0%Q.
Proof. unfold tsum. by rewrite map_to_list_empty. Qed.

Lemma tsum_insert_fresh (ts : gmap VarKey Q) k q v :
  ts !! k = None -> (tsum (<[k := q]> ts) v == q * v k + tsum ts v)%Q.
Proof.
  intros Hk. unfold tsum.
  rewrite (qsum_perm _ _ (fmap_Permutation _ _ _ (map_to_list_insert ts k q Hk))).
  simpl. reflexivity.
Qed.

Lemma tsum_insert (ts : gmap VarKey Q) k q y v :
  ts !! k = Some y ->
  (tsum (<[k := q]> ts) v == q * v k - y * v k + tsum ts v)%Q.
Proof.
  intros Hk. rewrite <- (insert_delete_eq ts k q).
  rewrite tsum_insert_fresh by apply lookup_delete_eq.
  rewrite <- (insert_id ts k y Hk) at 2. rewrite <- (insert_delete_eq ts k y).
  rewrite (tsum_insert_fresh (delete k ts) k y) by apply lookup_delete_eq.
  ring.
Qed.

Lemma Qnonzero_false q : Qnonzero q = false -> (q == 0)%Q.
Proof.
  unfold Qnonzero. intros H%negb_false_iff. by apply Qeq_bool_eq.
Qed.

Lemma tsum_addterm (ts : gmap VarKey Q) k q v :
  (tsum (addterm ts k q) v == tsum ts v + q * v k)%Q.
Proof.
  unfold addterm. destruct (ts !! k) as [y|] eqn:Hk.
  - destruct (Qnonzero y) eqn:Hy.
    + rewrite (tsum_insert _ _ _ _ _ Hk). ring.
    + rewrite (tsum_insert _ _ _ _ _ Hk), (Qnonzero_false _ Hy). ring.
  - rewrite tsum_insert_fresh by done. ring.
Qed.

Lemma value_tsum e v : value e v = (constant e + tsum (terms e) v)%Q.
Proof. done. Qed.

Lemma value_emptyExpr v : (value emptyExpr v == 0)%Q.
Proof. rewrite value_tsum. simpl. rewrite tsum_empty. ring. Qed.

Lemma value_varExpr k v : (value (varExpr k) v == v k)%Q.
Proof.
  rewrite value_tsum. simpl. unfold tsum.
  rewrite map_to_list_singleton. simpl. ring.
Qed.

Lemma tsum_fmap (ts : gmap VarKey Q) q v :
  (tsum ((fun coef => q * coef)%Q <$> ts) v == q * tsum ts v)%Q.
Proof.
  unfold tsum. rewrite map_to_list_fmap.
  induction (map_to_list ts) as [|[k y] l IH]; simpl; [ring|].
  rewrite IH. ring.
Qed.

Lemma value_scale e q v : (value (scale e q) v == q * value e v)%Q.
Proof.
  unfold scale. destruct (Qnonzero q) eqn:Hq.
  - rewrite !value_tsum. simpl. rewrite tsum_fmap. ring.
  - rewrite value_emptyExpr, (Qnonzero_false _ Hq). ring.
Qed.

Lemma value_addInPlace e o v :
  (value (addInPlace e o) v == value e v + value o v)%Q.
Proof.
  rewrite !value_tsum. unfold addInPlace. simpl.
  assert (H : (tsum (map_fold (fun key val ts => addterm ts key val)
                      (terms e) (terms o)) v
               == tsum (terms e) v + tsum (terms o) v)%Q).
  { apply (map_fold_weak_ind
             (fun r m => (tsum r v == tsum (terms e) v + tsum m v)%Q)).
    - rewrite tsum_empty. ring.
    - intros k q m r Hk IH.
      rewrite tsum_addterm, IH, (tsum_insert_fresh m k q v Hk). ring. }
  rewrite H. ring.
Qed.

Lemma value_foldl_addInPlace es e v :
  (value (foldl addInPlace e es) v
   == value e v + qsum (map (fun e' => value e' v) es))%Q.
Proof.
  revert e. induction es as [|e' es IH]; intros e; simpl; [ring|].
  rewrite IH, value_addInPlace. ring.
Qed.

Lemma value_lpSum es v :
  (value (lpSum es) v == qsum (map (fun e => value e v) es))%Q.
Proof.
  unfold lpSum. rewrite value_foldl_addInPlace, value_emptyExpr. ring.
Qed.

Lemma value_mkLpConstraint e sn rhs name v :
  (value (c_expr (mkLpConstraint e sn rhs name)) v == value e v - rhs)%Q.
Proof. rewrite !value_tsum. simpl. ring. Qed.

Lemma value_lpSum_pairs users coupons (g : Z -> Z -> LpAffineExpression) v :
  (value (lpSum (concat (map (fun i => map (g i) coupons) users))) v
   == assignment_sum users coupons (fun i j => value (g i j) v))%Q.
Proof.
  rewrite value_lpSum, qsum_concat_map. unfold assignment_sum.
  rewrite map_map. apply qsum_map_ext. intros i _.
  rewrite map_map. reflexivity.
Qed.

Lemma value_objective_summand df i j v :
  (value (objective_summand df i j) v
   == v (i, j) * get0 (acceptance df i j)
      * (get0 (cltv_of df i) - inject_Z j))%Q.
Proof.
  unfold objective_summand. rewrite !value_scale, value_varExpr. ring.
Qed.

(** ** The variables of an expression *)

Lemma addterm_mentions (ts : gmap VarKey Q) k q k' :
  is_Some (addterm ts k q !! k') <-> k' = k \/ is_Some (ts !! k').
Proof.
  unfold addterm.
  assert (H : forall y, is_Some (<[k := y]> ts !! k') <->
                        k' = k \/ is_Some (ts !! k')).
  { intros y. rewrite lookup_insert_is_Some. split.
    - intros [->|[_ ?]]; [by left | by right].
    - intros [->|?]; [by left|].
      destruct (decide (k = k')); [by left | by right]. }
  destruct (ts !! k) as [y|]; [destruct (Qnonzero y)|]; apply H.
Qed.

Lemma addInPlace_mentions e o k :
  is_Some (terms (addInPlace e o) !! k) ->
  is_Some (terms e !! k) \/ is_Some (terms o !! k).
Proof.
  unfold addInPlace. simpl.
  apply (map_fold_weak_ind
           (fun r m => is_Some (r !! k) ->
                       is_Some (terms e !! k) \/ is_Some (m !! k))).
  - by left.
  - intros k0 q m r Hk0 IH [->|Hr]%addterm_mentions.
    + right. rewrite lookup_insert_eq. eauto.
    + destruct (IH Hr) as [?|Hm]; [by left|]. right.
      rewrite lookup_insert_is_Some. destruct (decide (k0 = k)); eauto.
Qed.

Lemma lpSum_mentions es k :
  is_Some (terms (lpSum es) !! k) ->
  exists e, e ∈ es /\ is_Some (terms e !! k).
Proof.
  unfold lpSum.
  assert (H : forall e0, is_Some (terms (foldl addInPlace e0 es) !! k) ->
            is_Some (terms e0 !! k) \/
            exists e, e ∈ es /\ is_Some (terms e !! k)).
  { induction es as [|e es IH]; intros e0 H; simpl in *; [by left|].
    destruct (IH _ H) as [[?|?]%addInPlace_mentions|(e' & ? & ?)].
    - by left.
    - right. exists e. split; [left | done].
    - right. exists e'. split; [by right | done]. }
  intros [Hk|?]%H; [|done]. simpl in Hk. rewrite lookup_empty in Hk.
  by destruct Hk.
Qed.

Lemma scale_mentions e q k :
  is_Some (terms (scale e q) !! k) -> is_Some (terms e !! k).
Proof.
  unfold scale. destruct (Qnonzero q); simpl.
  - rewrite lookup_fmap. by intros ?%fmap_is_Some.
  - rewrite lookup_empty. by intros [].
Qed.

Lemma varExpr_mentions k k' : is_Some (terms (varExpr k) !! k') -> k' = k.
Proof.
  simpl. intros [q Hq]. apply lookup_singleton_Some in Hq as [-> _]. done.
Qed.

Lemma pairs_mentions users coupons (g : Z -> Z -> LpAffineExpression) k :
  (forall i j k', is_Some (terms (g i j) !! k') -> k' = (i, j)) ->
  is_Some (terms (lpSum (concat (map (fun i => map (g i) coupons) users))) !! k)
  -> k.1 ∈ users /\ k.2 ∈ coupons.
Proof.
  intros Hg (e & He & Hk)%lpSum_mentions.
  apply elem_of_concat in He as (l & He & (i & -> & Hi)%list_elem_of_fmap).
  apply list_elem_of_fmap in He as (j & -> & Hj).
  apply Hg in Hk as ->. done.
Qed.

(** ** Cells 6 and 7: the input matrices *)

Lemma coupons_per_user_lookup users coupons i :
  coupons_per_user users coupons !! i =
  if decide (i ∈ users) then Some coupons else None.
Proof.
  unfold coupons_per_user.
  assert (H : forall (d0 : gmap Z (list Z)),
            foldl (fun dd i => <[i := coupons]> dd) d0 users !! i =
            if decide (i ∈ users) then Some coupons else d0 !! i).
  { induction users as [|u users IH]; intros d0.
    - simpl. destruct (decide (i ∈ [])) as [Hi|Hi];
        [by apply elem_of_nil in Hi | done].
    - cbn [foldl]. rewrite IH. destruct (decide (i ∈ users)) as [Hi|Hi].
      + rewrite decide_True; [done | by right].
      + destruct (decide (u = i)) as [->|Hne].
        * rewrite lookup_insert_eq, decide_True; [done | by left].
        * rewrite lookup_insert_ne by done.
          rewrite decide_False; [done|].
          intros [?|?]%elem_of_cons; congruence. }
  rewrite H. by destruct (decide _).
Qed.

Lemma dict_get_cpu users coupons i :
  i ∈ users -> dict_get (coupons_per_user users coupons) i = Ok coupons.
Proof.
  intros Hi. unfold dict_get.
  rewrite coupons_per_user_lookup, decide_True; done.
Qed.

Lemma elem_of_all_pairs users coupons i j :
  (i, j) ∈ all_pairs users coupons <-> i ∈ users /\ j ∈ coupons.
Proof.
  unfold all_pairs. rewrite elem_of_concat. split.
  - intros (l & Hl & (i' & -> & Hi')%list_elem_of_fmap).
    apply list_elem_of_fmap in Hl as (j' & [= -> ->] & Hj'). done.
  - intros [Hi Hj]. exists (map (fun j => (i, j)) coupons). split.
    + apply list_elem_of_fmap. eauto.
    + apply list_elem_of_fmap. eauto.
Qed.

Lemma matrices_cell_inv df i j m0 m keys :
  matrices_cell df i j m0 = Ok m -> matrices_inv df keys m0 ->
  matrices_inv df (keys ++ [(i, j)]) m.
Proof.
  unfold matrices_cell. intros H [Hok Hdom].
  inv_bind H as ri Hri. inv_bind H as p Hp. inv_bind H as ri' Hri'.
  inv_bind H as cl Hcl. injection H as <-.
  assert (Hacc : acceptance df i j = Ok p)
    by (unfold acceptance; rewrite Hri; done).
  assert (Hcltv : cltv_of df i = Ok cl)
    by (unfold cltv_of; rewrite Hri'; done).
  split.
  - intros i' j' Hin. destruct (decide ((i, j) = (i', j'))) as [E|Hne].
    + injection E as <- <-. unfold cell_ok; simpl.
      rewrite !lookup_insert_eq. split; [done|]. split; [done|].
      exists p, cl. done.
    + apply elem_of_app in Hin as [Hin|Hin%list_elem_of_singleton];
        [|congruence].
      destruct (Hok _ _ Hin) as (Hx & Ha & p' & cl' & ? & ? & ? & ?).
      unfold cell_ok; simpl. rewrite !lookup_insert_ne by done.
      split; [done|]. split; [done|]. exists p', cl'. done.
  - intros k. simpl. rewrite lookup_insert. case_decide as E.
    + intros _. subst k. apply elem_of_app. right. by left.
    + intros Hk. apply elem_of_app. left. by apply Hdom.
Qed.

Lemma matrices_row_inv df i js m0 m keys :
  foldM (matrices_cell df i) js m0 = Ok m -> matrices_inv df keys m0 ->
  matrices_inv df (keys ++ map (fun j => (i, j)) js) m.
Proof.
  revert m0 keys. induction js as [|j js IH]; intros m0 keys H Hinv; simpl in *.
  - injection H as <-. by rewrite app_nil_r.
  - inv_bind H as m1 Hm1.
    rewrite (cons_middle (i, j)), app_assoc.
    eapply IH; [done|]. by eapply matrices_cell_inv.
Qed.

Lemma matrices_users_inv df all coupons users m0 m keys :
  (forall i, i ∈ users -> i ∈ all) ->
  foldM (matrices_user df (coupons_per_user all coupons)) users m0 = Ok m ->
  matrices_inv df keys m0 ->
  matrices_inv df (keys ++ all_pairs users coupons) m.
Proof.
  revert m0 keys. induction users as [|i users IH]; intros m0 keys Hsub H Hinv;
    simpl in *.
  - injection H as <-. unfold all_pairs. simpl. by rewrite app_nil_r.
  - inv_bind H as m1 Hm1. unfold matrices_user in Hm1.
    rewrite dict_get_cpu in Hm1 by (apply Hsub; left). simpl in Hm1.
    unfold all_pairs. simpl. rewrite app_assoc.
    eapply IH; [|done|].
    + intros i' Hi'. apply Hsub. by right.
    + by eapply matrices_row_inv.
Qed.

Lemma matrices_spec df users coupons m :
  matrices df users (coupons_per_user users coupons) = Ok m ->
  (forall i j, i ∈ users -> j ∈ coupons -> cell_ok df m i j) /\
  (forall k, is_Some (x m !! k) -> k.1 ∈ users /\ k.2 ∈ coupons).
Proof.
  unfold matrices. intros H.
  eapply (matrices_users_inv _ _ _ _ _ _ []) in H as [Hok Hdom]; [|done|].
  - simpl in *. split.
    + intros i j Hi Hj. apply Hok, elem_of_all_pairs. done.
    + intros [i j] Hk. apply elem_of_all_pairs. by apply Hdom.
  - split; simpl.
    + by intros i j ?%elem_of_nil.
    + intros k [? Hk]. by rewrite lookup_empty in Hk.
Qed.

Lemma matrices_is_ok df coupons :
  (forall r, r ∈ rows df ->
     is_ok (series_get r cltv_label) /\
     forall j, j ∈ coupons -> is_ok (series_get r (prob_coupon j))) ->
  is_ok (matrices df (index df) (coupons_per_user (index df) coupons)).
Proof.
  intros Hrows. unfold matrices. apply foldM_is_ok. intros i m Hi.
  unfold matrices_user. rewrite dict_get_cpu by done. simpl.
  apply foldM_is_ok. intros j m' Hj. unfold matrices_cell.
  destruct (loc_index df i Hi) as (r & -> & Hr). simpl.
  destruct (Hrows r Hr) as [Hcl Hp].
  destruct (is_ok_Ok _ (Hp j Hj)) as [p ->]. simpl.
  destruct (is_ok_Ok _ Hcl) as [cl ->]. done.
Qed.

(** ** Cells 8 and 9: the program *)

Lemma user_coupon_pairs_spec {E} cpu users coupons
    (f : Z -> Z -> result E) (g : Z -> Z -> E) :
  (forall i, i ∈ users -> dict_get cpu i = Ok coupons) ->
  (forall i j, i ∈ users -> j ∈ coupons -> f i j = Ok (g i j)) ->
  user_coupon_pairs cpu users f =
  Ok (concat (map (fun i => map (g i) coupons) users)).
Proof.
  intros Hcpu Hf. unfold user_coupon_pairs.
  rewrite (traverse_map _ (fun i => map (g i) coupons)); [done|].
  intros i Hi. rewrite (Hcpu i Hi). simpl.
  apply traverse_map. intros j Hj. by apply Hf.
Qed.

Lemma x_term_ok df m i j :
  cell_ok df m i j -> x_term m i j = Ok (varExpr (i, j)).
Proof.
  intros (Hx & _). unfold x_term, dict_get. by rewrite Hx.
Qed.

Lemma budget_term_ok df m i j :
  cell_ok df m i j ->
  budget_term m i j = Ok (scale (varExpr (i, j)) (inject_Z j)).
Proof.
  intros (Hx & Ha & _). unfold budget_term, dict_get.
  rewrite Ha. simpl. by rewrite Hx.
Qed.

Lemma objective_term_ok df m i j :
  cell_ok df m i j ->
  exists p cl, acceptance df i j = Ok p /\ cltv_of df i = Ok cl /\
    objective_term m i j =
    Ok (scale (scale (varExpr (i, j)) p) (cl - inject_Z j)).
Proof.
  intros (Hx & _ & p & cl & Hp & Hcl & Hc & Hd). exists p, cl.
  split; [done|]. split; [done|]. unfold objective_term, dict_get.
  rewrite Hx. simpl. rewrite Hc. simpl. by rewrite Hd.
Qed.

Lemma objective_term_summand df m i j :
  cell_ok df m i j -> objective_term m i j = Ok (objective_summand df i j).
Proof.
  intros (p & cl & Hp & Hcl & ->)%objective_term_ok.
  unfold objective_summand. by rewrite Hp, Hcl.
Qed.

Lemma odict_set_fresh {V} (dd : list (Z * V)) k v :
  k ∉ dd.*1 -> odict_set dd k v = dd ++ [(k, v)].
Proof.
  induction dd as [|[k' w] dd IH]; simpl; intros Hk; [done|].
  apply not_elem_of_cons in Hk as [Hne Hk].
  destruct (decide (k' = k)); [congruence|]. by rewrite IH.
Qed.

Lemma user_constraint_ok df m users coupons i :
  i ∈ users -> (forall j, j ∈ coupons -> cell_ok df m i j) ->
  user_constraint m (coupons_per_user users coupons) i =
  Ok (mkLpConstraint (lpSum (map (fun j => varExpr (i, j)) coupons))
        LpConstraintEQ
        (if decide (0 < length coupons)%nat then 1 else 0)%Q
        (constraint_name i)).
Proof.
  intros Hi Hok. unfold user_constraint.
  rewrite dict_get_cpu by done. simpl.
  rewrite (traverse_map _ (fun j => varExpr (i, j))); [done|].
  intros j Hj. eapply x_term_ok, Hok, Hj.
Qed.

Lemma user_constraint_sense m cpu i ct :
  user_constraint m cpu i = Ok ct -> c_sense ct = LpConstraintEQ.
Proof.
  unfold user_constraint. intros H.
  inv_bind H as js Hjs. inv_bind H as es Hes. inv_bind H as js' Hjs'.
  by injection H as <-.
Qed.

Lemma budget_constraint_ok df m users coupons bud :
  (forall i j, i ∈ users -> j ∈ coupons -> cell_ok df m i j) ->
  budget_constraint m (coupons_per_user users coupons) users bud =
  Ok (mkLpConstraint
        (lpSum (concat (map (fun i =>
                  map (fun j => scale (varExpr (i, j)) (inject_Z j)) coupons)
                  users)))
        LpConstraintLE bud "constraint_b").
Proof.
  intros Hok. unfold budget_constraint.
  rewrite (user_coupon_pairs_spec _ _ coupons _
             (fun i j => scale (varExpr (i, j)) (inject_Z j))); [done| |].
  - intros i Hi. by apply dict_get_cpu.
  - intros i j Hi Hj. eapply budget_term_ok, Hok; done.
Qed.

Lemma user_constraints_spec m cpu users d0 dd :
  NoDup users -> (forall i, i ∈ users -> i ∉ d0.*1) ->
  foldM (fun i dict => ct ← user_constraint m cpu i; Ok (odict_set dict i ct))
    users d0 = Ok dd ->
  exists cts, Forall2 (fun i ct => user_constraint m cpu i = Ok ct) users cts /\
              dd = d0 ++ zip users cts.
Proof.
  revert d0. induction users as [|i users IH]; intros d0 Hnd Hfresh H;
    simpl in *.
  - injection H as <-. exists []. split; [constructor | by rewrite app_nil_r].
  - inv_bind H as d1 Hd1. inv_bind Hd1 as ct Hct. injection Hd1 as <-.
    apply NoDup_cons in Hnd as [Hi Hnd].
    rewrite odict_set_fresh in H by (apply Hfresh; left).
    apply IH in H as (cts & Hcts & ->); [|done|].
    + exists (ct :: cts). split; [by constructor|].
      simpl. by rewrite <- app_assoc.
    + intros i' Hi'. rewrite fmap_app. simpl.
      intros [?|[->|?%elem_of_nil]%elem_of_cons]%elem_of_app; try done.
      eapply Hfresh; [right|]; eauto.
Qed.

Lemma user_constraint_names df m users coupons (l : list Z) cts :
  (forall i, i ∈ l ->
     i ∈ users /\ 0 <= i /\ forall j, j ∈ coupons -> cell_ok df m i j) ->
  Forall2 (fun i ct =>
             user_constraint m (coupons_per_user users coupons) i = Ok ct)
    l cts ->
  map (fun kc : Z * LpConstraint => c_name kc.2) (zip l cts) =
  map constraint_name l.
Proof.
  intros Hl Hcts. induction Hcts as [|i ct l cts Hct _ IH]; [done|].
  destruct (Hl i ltac:(left)) as (Hi & Hnn & Hok).
  rewrite (user_constraint_ok df) in Hct by done.
  injection Hct as <-. cbn [map zip_with c_name mkLpConstraint snd].
  rewrite IH.
  - by rewrite lp_name_constraint_name.
  - intros i' Hi'. apply Hl. by right.
Qed.

Lemma addConstraint_fresh (p : LpProblem) (ct : LpConstraint) :
  c_name ct ∉ (p_constraints p).*1 ->
  addConstraint p ct =
  Ok {| p_name := p_name p; sense := sense p; objective := objective p;
        p_constraints := p_constraints p ++ [(c_name ct, ct)] |}.
Proof. intros Hct. unfold addConstraint. by rewrite decide_False. Qed.

Lemma addConstraints_spec (cs : list (Z * LpConstraint)) p0 p :
  foldM (fun kc p => addConstraint p (snd kc)) cs p0 = Ok p ->
  p_name p = p_name p0 /\ sense p = sense p0 /\ objective p = objective p0 /\
  p_constraints p =
  p_constraints p0 ++ map (fun kc => (c_name (snd kc), snd kc)) cs.
Proof.
  revert p0. induction cs as [|[k ct] cs IH]; intros p0 H; simpl in *.
  - injection H as <-. by rewrite app_nil_r.
  - inv_bind H as p1 Hp1. unfold addConstraint in Hp1.
    destruct (decide _); [done|]. injection Hp1 as <-.
    apply IH in H as (-> & -> & -> & ->). simpl.
    by rewrite <- app_assoc.
Qed.

Lemma addConstraints_is_ok (cs : list (Z * LpConstraint)) (p0 : LpProblem) :
  NoDup ((p_constraints p0).*1 ++ map (fun kc => c_name (snd kc)) cs) ->
  is_ok (foldM (fun kc p => addConstraint p (snd kc)) cs p0).
Proof.
  revert p0. induction cs as [|[k ct] cs IH]; intros p0 Hnd; [done|].
  change (map (fun kc => c_name kc.2) ((k, ct) :: cs))
    with (c_name ct :: map (fun kc : Z * LpConstraint => c_name kc.2) cs)
    in Hnd.
  apply NoDup_app in Hnd as (Hnd0 & Hdisj & Hnd1).
  apply NoDup_cons in Hnd1 as [Hct Hnd1].
  change (is_ok (p1 ← addConstraint p0 ct;
                 foldM (fun kc p => addConstraint p kc.2) cs p1)).
  rewrite addConstraint_fresh by (intros Hin; apply (Hdisj _ Hin); left).
  simpl. apply IH. simpl. rewrite fmap_app. simpl.
  rewrite <- app_assoc. apply NoDup_app. split; [done|]. split.
  - intros nm Hin [->|Hin']%elem_of_cons.
    + apply (Hdisj _ Hin). left.
    + apply (Hdisj _ Hin). by right.
  - by apply NoDup_cons.
Qed.

(** What cells 6 to 9 build, when they run through. *)
Lemma formulate_spec df coupons f :
  formulate df coupons = Ok f ->
  set_users f = index df /\
  budget df = Ok (b f) /\
  (forall i j, i ∈ index df -> j ∈ coupons -> cell_ok df (inputs f) i j) /\
  (forall k, is_Some (x (inputs f) !! k) -> k.1 ∈ index df /\ k.2 ∈ coupons) /\
  exists cts cb,
    Forall2 (fun i ct =>
               user_constraint (inputs f)
                 (coupons_per_user (index df) coupons) i = Ok ct)
      (index df) cts /\
    budget_constraint (inputs f) (coupons_per_user (index df) coupons)
      (index df) (b f) = Ok cb /\
    constraints f = zip (index df) cts ++ [(-1, cb)] /\
    sense (opt_model f) = LpMaximize /\
    objective (opt_model f) =
      Some (lpSum (concat (map (fun i => map (objective_summand df i) coupons)
                             (index df)))) /\
    p_constraints (opt_model f) =
      map (fun kc => (c_name (snd kc), snd kc)) (constraints f).
Proof.
  unfold formulate. intros H.
  inv_bind H as bud Hbud. inv_bind H as m Hm. inv_bind H as cs Hcs.
  inv_bind H as es Hes. inv_bind H as p Hp. injection H as <-. simpl.
  destruct (matrices_spec _ _ _ _ Hm) as [Hok Hdom].
  split; [done|]. split; [done|]. split; [done|]. split; [done|].
  unfold constraints_dict in Hcs.
  inv_bind Hcs as cs0 Hcs0. inv_bind Hcs as cb Hcb. injection Hcs as <-.
  apply user_constraints_spec in Hcs0 as (cts & Hcts & ->);
    [|apply index_NoDup|by intros ? _ ?%elem_of_nil].
  simpl in *. exists cts, cb. split; [done|]. split; [done|].
  assert (Hfresh : -1 ∉ (zip (index df) cts).*1).
  { intros Hin. apply list_elem_of_fmap in Hin as ([i ct] & Hi & Hin).
    simpl in Hi. subst i. apply elem_of_zip_l, index_nonneg in Hin. lia. }
  rewrite odict_set_fresh in Hp |- * by done.
  split; [done|]. split; [done|].
  apply addConstraints_spec in Hp as (_ & _ & _ & ->). simpl.
  split; [|done]. do 2 f_equal.
  rewrite (user_coupon_pairs_spec _ _ coupons _ (objective_summand df)) in Hes.
  - by injection Hes as <-.
  - intros i Hi. by apply dict_get_cpu.
  - intros i j Hi Hj. eapply objective_term_summand, Hok; done.
Qed.

(** Cells 6 to 9 run through on every frame that has the CLTV and the
    probability of every candidate coupon in each row. *)
Lemma formulate_is_ok df coupons :
  (forall r, r ∈ rows df ->
     is_ok (series_get r cltv_label) /\
     forall j, j ∈ coupons -> is_ok (series_get r (prob_coupon j))) ->
  is_ok (formulate df coupons).
Proof.
  intros Hrows. unfold formulate.
  destruct (is_ok_Ok (budget df)) as [bud ->].
  { unfold budget, column.
    destruct (is_ok_Ok (traverse (fun s => series_get s cltv_label) (rows df)))
      as [cl ->]; [|done].
    apply traverse_is_ok. intros r Hr. apply Hrows, Hr. }
  simpl.
  destruct (is_ok_Ok _ (matrices_is_ok df coupons Hrows)) as [m Hm].
  rewrite Hm. simpl.
  destruct (matrices_spec _ _ _ _ Hm) as [Hok _].
  unfold constraints_dict.
  destruct (is_ok_Ok (foldM (fun i dict =>
              ct ← user_constraint m (coupons_per_user (index df) coupons) i;
              Ok (odict_set dict i ct)) (index df) [])) as [cs0 Hcs0].
  { apply foldM_is_ok. intros i dd Hi.
    rewrite (user_constraint_ok df) by auto. done. }
  rewrite Hcs0. simpl.
  rewrite (budget_constraint_ok df) by done. simpl.
  rewrite (user_coupon_pairs_spec _ _ coupons _ (objective_summand df));
    [|intros i Hi; by apply dict_get_cpu
     |intros i j Hi Hj; eapply objective_term_summand, Hok; done].
  simpl.
  pose proof Hcs0 as (cts & Hcts & ->)%user_constraints_spec;
    [|apply index_NoDup|by intros ? _ ?%elem_of_nil].
  simpl.
  assert (Hfresh : -1 ∉ (zip (index df) cts).*1).
  { intros Hin. apply list_elem_of_fmap in Hin as ([i ct] & Hi & Hin).
    simpl in Hi. subst i. apply elem_of_zip_l, index_nonneg in Hin. lia. }
  rewrite odict_set_fresh by done.
  match goal with
  | |- is_ok (?r ≫= _) => destruct (is_ok_Ok r) as [p ->]; [|done]
  end.
  apply addConstraints_is_ok. simpl. rewrite map_app. simpl.
  rewrite (user_constraint_names df m (index df) coupons).
  2:{ intros i Hi. split; [done|]. split; [by apply (index_nonneg df) | auto]. }
  2:{ done. }
  apply NoDup_app. split; [|split].
  - apply NoDup_fmap_2; [|apply index_NoDup].
    intros i j. apply constraint_name_inj.
  - intros nm (i & -> & Hi)%list_elem_of_fmap [E|E%elem_of_nil]%elem_of_cons;
      [|done].
    by apply (constraint_name_not_b i (index_nonneg df i Hi)).
  - apply NoDup_singleton.
Qed.

(** Cells 6 to 9 run through on a generated frame and its own coupons. *)
Lemma created_formulate_is_ok rng n (cs : list Z) df :
  NoDup cs -> create_customers rng n cs = Ok df -> is_ok (formulate df cs).
Proof.
  intros Hnd Hdf. apply formulate_is_ok. intros r Hr.
  destruct (created_rows _ _ _ _ _ Hdf Hr) as (m & v & _ & _ & ->). split.
  - by rewrite created_row_cltv.
  - intros j (k & Hk)%list_elem_of_lookup_1.
    by rewrite (created_row_lookup _ _ _ _ _ Hnd Hk).
Qed.

(** From here on [f] is what cells 6 to 9 build from the frame [df] and the
    candidate coupons [coupons]. *)

Section Formulated.

Context (df : DataFrame) (coupons : list Z) (f : Formulation).
Hypothesis Hf : formulate df coupons = Ok f.


(** C1.  The objective of the formulated program evaluates, under every
    assignment [v] of the variables, to the sum over every customer [i] (the
    whole index of the frame) and every candidate coupon [j] of [v (i, j)]
    times the acceptance probability of [j] for [i] times (CLTV of [i]
    minus [j]); the sense of the problem is maximisation. *)
Theorem objective_is_expected_net_return :
  sense (opt_model f) = LpMaximize /\
  set_users f = index df /\
  (forall i j, i ∈ set_users f -> j ∈ coupons ->
     is_ok (acceptance df i j) /\ is_ok (cltv_of df i)) /\
  exists obj, objective (opt_model f) = Some obj /\
    forall v : VarKey -> Q,
      (value obj v ==
       assignment_sum (set_users f) coupons
         (fun i j => v (i, j) * get0 (acceptance df i j)
                     * (get0 (cltv_of df i) - inject_Z j)))%Q.
Proof.
  destruct (formulate_spec _ _ _ Hf)
    as (Hu & _ & Hok & _ & cts & cb & _ & _ & _ & Hs & Hobj & _).
  rewrite Hu. split; [done|]. split; [done|]. split.
  - intros i j Hi Hj.
    destruct (Hok i j Hi Hj) as (_ & _ & p & cl & -> & -> & _). done.
  - eexists. split; [exact Hobj|]. intros v.
    rewrite value_lpSum_pairs. apply assignment_sum_ext.
    intros i j _ _. apply value_objective_summand.
Qed.


(** C3.  The budget [b] is one tenth of the sum of the CLTV column, which
    holds one value for each customer.  The problem contains exactly one
    [<=] constraint, stored under the key -1; it holds exactly when the sum
    over all customers (the whole index of the frame) and candidate coupons
    of the coupon's face value times [x[i, j]] is at most [b]. *)
Theorem global_budget_constraint :
  set_users f = index df /\
  (exists cl, column df cltv_label = Ok cl /\
     length cl = length (set_users f) /\ b f = (qsum cl / 10)%Q) /\
  exists cb,
    (-1, cb) ∈ constraints f /\
    c_sense cb = LpConstraintLE /\
    filter (fun nc => c_sense (snd nc) = LpConstraintLE)
      (p_constraints (opt_model f)) = [(c_name cb, cb)] /\
    forall v : VarKey -> Q,
      valid cb v <->
      (assignment_sum (set_users f) coupons
         (fun i j => inject_Z j * v (i, j)) <= b f)%Q.
Proof.
  destruct (formulate_spec _ _ _ Hf)
    as (Hu & Hb & Hok & _ & cts & cb & Hcts & Hcb & Hcs & _ & _ & Hpc).
  split; [exact Hu|]. split.
  { unfold budget in Hb. inv_bind Hb as cl Hcl. injection Hb as <-.
    exists cl. split; [done|]. split; [|done].
    rewrite Hu. unfold column in Hcl. rewrite (traverse_length _ _ _ Hcl).
    unfold index, range. rewrite arange_length. lia. }
  rewrite (budget_constraint_ok df) in Hcb by done. injection Hcb as <-.
  eexists. split; [|split; [|split]].
  - rewrite Hcs. apply elem_of_app. right. left.
  - done.
  - rewrite Hpc, Hcs, map_app, filter_app. simpl.
    rewrite filter_cons_True by done. rewrite filter_nil.
    replace (filter _ _) with (@nil (string * LpConstraint)); [done|].
    symmetry. apply filter_none, Forall_forall.
    intros [nm ct] ([i ct'] & [= -> ->] & Hin)%list_elem_of_fmap. simpl.
    apply list_elem_of_lookup_1 in Hin as (k & Hk).
    apply lookup_zip_with_Some in Hk as (i' & ct'' & [= <- <-] & Hi & Hct).
    destruct (Forall2_lookup_r _ _ _ _ _ Hcts Hct) as (i'' & _ & Huc).
    rewrite (user_constraint_sense _ _ _ _ Huc). done.
  - intros v. unfold valid. cbn [c_sense mkLpConstraint].
    rewrite value_mkLpConstraint, value_lpSum_pairs, Hu.
    rewrite (assignment_sum_ext _ _ _ (fun i j => inject_Z j * v (i, j))%Q).
    + split; intros E; lra.
    + intros i j _ _. rewrite value_scale, value_varExpr. reflexivity.
Qed.

(** C7.  Every decision variable [x[(i, j)]] is the variable made by
    [LpVariable(cat=LpInteger, lowBound=0, upBound=1)]: of category integer
    with lower bound 0 and upper bound 1; there is one for each customer of
    the frame (the users are its whole index) and each candidate coupon, and
    the objective and the constraints, which are affine, mention no other
    variable. *)
Theorem decision_variables_binary :
  set_users f = index df /\
  (forall i j, i ∈ index df -> j ∈ coupons ->
     x (inputs f) !! (i, j) =
     Some {| var_name := lp_name (x_name i j); cat := LpInteger;
             lowBound := Some 0%Q; upBound := Some 1%Q |}) /\
  (forall k xv, x (inputs f) !! k = Some xv ->
     xv = mkLpVariable (x_name k.1 k.2) (Some 0%Q) (Some 1%Q) LpInteger /\
     cat xv = LpInteger /\ lowBound xv = Some 0%Q /\ upBound xv = Some 1%Q) /\
  (forall i j, is_Some (x (inputs f) !! (i, j)) <->
               i ∈ set_users f /\ j ∈ coupons) /\
  (forall obj k, objective (opt_model f) = Some obj ->
     is_Some (terms obj !! k) -> is_Some (x (inputs f) !! k)) /\
  (forall nm ct k, (nm, ct) ∈ p_constraints (opt_model f) ->
     is_Some (terms (c_expr ct) !! k) -> is_Some (x (inputs f) !! k)).
Proof.
  destruct (formulate_spec _ _ _ Hf)
    as (Hu & Hb & Hok & Hdom & cts & cb & Hcts & Hcb & Hcs & _ & Hobj & Hpc).
  assert (Hkeys : forall k, k.1 ∈ index df -> k.2 ∈ coupons ->
                            is_Some (x (inputs f) !! k)).
  { intros [i j] Hi Hj. destruct (Hok i j Hi Hj) as (Hx & _). by rewrite Hx. }
  split; [exact Hu|]. split.
  { intros i j Hi Hj. by destruct (Hok i j Hi Hj) as (Hx & _). }
  split; [|split; [|split]].
  - intros [i j] xv Hxv.
    destruct (Hdom (i, j)) as [Hi Hj]; [by rewrite Hxv|].
    destruct (Hok i j Hi Hj) as (Hx & _). rewrite Hx in Hxv.
    by injection Hxv as <-.
  - intros i j. rewrite Hu. split; [apply (Hdom (i, j))|].
    intros [Hi Hj]. by apply Hkeys.
  - intros obj k. rewrite Hobj. intros [= <-] Hk.
    apply pairs_mentions in Hk as [Hi Hj]; [by apply Hkeys|].
    intros i j k' Hk'. unfold objective_summand in Hk'.
    by apply scale_mentions, scale_mentions, varExpr_mentions in Hk'.
  - intros nm ct k. rewrite Hpc, Hcs.
    intros ([i ct'] & [= -> ->] & Hin)%list_elem_of_fmap. simpl.
    apply elem_of_app in Hin as [Hin|Hin%list_elem_of_singleton].
    + apply list_elem_of_lookup_1 in Hin as (n & Hn).
      apply lookup_zip_with_Some in Hn as (i' & ct'' & [= <- <-] & Hi & Hct).
      destruct (Forall2_lookup_l _ _ _ _ _ Hcts Hi) as (ct3 & Hct3 & Huc).
      rewrite Hct in Hct3. injection Hct3 as <-.
      assert (Hiu : i ∈ index df) by (eapply list_elem_of_lookup_2, Hi).
      rewrite (user_constraint_ok df) in Huc by (auto).
      injection Huc as <-. simpl.
      intros (e & (j & -> & Hj)%list_elem_of_fmap & ->%varExpr_mentions)%lpSum_mentions.
      by apply Hkeys.
    + injection Hin as _ ->.
      rewrite (budget_constraint_ok df) in Hcb by done. injection Hcb as <-.
      simpl. intros Hk.
      apply pairs_mentions in Hk as [Hi Hj]; [by apply Hkeys|].
      intros i' j' k' Hk'.
      by apply scale_mentions, varExpr_mentions in Hk'.
Qed.

End Formulated.

(** The four statements on the data of the notebook. *)

Lemma objective_is_expected_net_return_witness :
  exists f, formulate notebook_df notebook_coupons = Ok f /\
    sense (opt_model f) = LpMaximize /\
    set_users f = index notebook_df /\
    (forall i j, i ∈ set_users f -> j ∈ notebook_coupons ->
       is_ok (acceptance notebook_df i j) /\ is_ok (cltv_of notebook_df i)) /\
    exists obj, objective (opt_model f) = Some obj /\
      forall v : VarKey -> Q,
        (value obj v ==
         assignment_sum (set_users f) notebook_coupons
           (fun i j => v (i, j) * get0 (acceptance notebook_df i j)
                       * (get0 (cltv_of notebook_df i) - inject_Z j)))%Q.
Proof.
  destruct (result_inv (fun _ => True)
              (formulate notebook_df notebook_coupons)) as (f & Hf & _);
    [vm_compute; exact I|].
  exists f. split; [exact Hf|].
  apply (objective_is_expected_net_return notebook_df notebook_coupons f Hf).
Defined.


(** On the data of the notebook the ten customers are all there, the budget
    is 75.1, the BAU coupons (76 in all) break the constraint and the
    coupons of the printed solution (75 in all) keep it. *)
Lemma global_budget_constraint_witness :
  exists f, formulate notebook_df notebook_coupons = Ok f /\
    (b f == 751 # 10)%Q /\
    set_users f = [0; 1; 2; 3; 4; 5; 6; 7; 8; 9] /\
    (assignment_sum (set_users f) notebook_coupons
       (fun i j => inject_Z j * indicator notebook_coupons_bau (i, j))
     == 76)%Q /\
    (assignment_sum (set_users f) notebook_coupons
       (fun i j => inject_Z j * indicator notebook_solution (i, j))
     == 75)%Q /\
    set_users f = index notebook_df /\
    (exists cl, column notebook_df cltv_label = Ok cl /\
       length cl = length (set_users f) /\ b f = (qsum cl / 10)%Q) /\
    exists cb,
      ((-1, cb) ∈ constraints f /\
       c_sense cb = LpConstraintLE /\
       filter (fun nc => c_sense (snd nc) = LpConstraintLE)
         (p_constraints (opt_model f)) = [(c_name cb, cb)] /\
       forall v : VarKey -> Q,
         valid cb v <->
         (assignment_sum (set_users f) notebook_coupons
            (fun i j => inject_Z j * v (i, j)) <= b f)%Q) /\
      ~ valid cb (indicator notebook_coupons_bau) /\
      valid cb (indicator notebook_solution).
Proof.
  destruct (result_inv
              (fun f => (b f == 751 # 10)%Q /\
                        set_users f = [0; 1; 2; 3; 4; 5; 6; 7; 8; 9])
              (formulate notebook_df notebook_coupons)) as (f & Hf & Hb & Hu);
    [vm_compute; split; reflexivity|].
  assert (Hbau : (assignment_sum (set_users f) notebook_coupons
                    (fun i j => inject_Z j * indicator notebook_coupons_bau (i, j))
                  == 76)%Q) by (rewrite Hu; vm_compute; reflexivity).
  assert (Hopt : (assignment_sum (set_users f) notebook_coupons
                    (fun i j => inject_Z j * indicator notebook_solution (i, j))
                  == 75)%Q) by (rewrite Hu; vm_compute; reflexivity).
  exists f. split; [exact Hf|]. split; [exact Hb|]. split; [exact Hu|].
  split; [exact Hbau|]. split; [exact Hopt|].
  destruct (global_budget_constraint notebook_df notebook_coupons f Hf)
    as (Hidx & Hcl & cb & Hin & Hs & Hflt & Hv).
  split; [exact Hidx|]. split; [exact Hcl|].
  exists cb. split; [exact (conj Hin (conj Hs (conj Hflt Hv)))|]. split.
  - intros Hval. apply Hv in Hval. rewrite Hbau, Hb in Hval.
    vm_compute in Hval. by apply Hval.
  - apply Hv. rewrite Hopt, Hb. vm_compute. discriminate.
Defined.

(** On the data of the notebook: the variable of customer 0 and coupon 4 is
    the integer variable [x_0_4] with bounds 0 and 1, and there are 80
    variables. *)
Lemma decision_variables_binary_witness :
  exists f, formulate notebook_df notebook_coupons = Ok f /\
    x (inputs f) !! (0, 4) =
      Some {| var_name := "x_0_4"%string; cat := LpInteger;
              lowBound := Some 0%Q; upBound := Some 1%Q |} /\
    size (x (inputs f)) = 80%nat /\
    set_users f = index notebook_df /\
    (forall i j, i ∈ index notebook_df -> j ∈ notebook_coupons ->
       x (inputs f) !! (i, j) =
       Some {| var_name := lp_name (x_name i j); cat := LpInteger;
               lowBound := Some 0%Q; upBound := Some 1%Q |}) /\
    (forall k xv, x (inputs f) !! k = Some xv ->
       xv = mkLpVariable (x_name k.1 k.2) (Some 0%Q) (Some 1%Q) LpInteger /\
       cat xv = LpInteger /\ lowBound xv = Some 0%Q /\ upBound xv = Some 1%Q) /\
    (forall i j, is_Some (x (inputs f) !! (i, j)) <->
                 i ∈ set_users f /\ j ∈ notebook_coupons) /\
    (forall obj k, objective (opt_model f) = Some obj ->
       is_Some (terms obj !! k) -> is_Some (x (inputs f) !! k)) /\
    (forall nm ct k, (nm, ct) ∈ p_constraints (opt_model f) ->
       is_Some (terms (c_expr ct) !! k) -> is_Some (x (inputs f) !! k)).
Proof.
  destruct (result_inv
              (fun f => x (inputs f) !! (0, 4) =
                          Some {| var_name := "x_0_4"%string; cat := LpInteger;
                                  lowBound := Some 0%Q; upBound := Some 1%Q |} /\
                        size (x (inputs f)) = 80%nat)
              (formulate notebook_df notebook_coupons)) as (f & Hf & Hx & Hsz);
    [vm_compute; split; reflexivity|].
  exists f. split; [exact Hf|]. split; [exact Hx|]. split; [exact Hsz|].
  apply (decision_variables_binary notebook_df notebook_coupons f Hf).
Defined.

(** The objective the notebook hands to the solver, in terms of the frame
    read in cell 3 and the coupons of its header. *)
Lemma notebook_objective df f :
  notebook df = Ok f ->
  exists coupons obj,
    coupons_of df = Ok coupons /\
    sense (opt_model f) = LpMaximize /\
    objective (opt_model f) = Some obj /\
    forall v : VarKey -> Q,
      (value obj v ==
       assignment_sum (set_users f) coupons
         (fun i j => v (i, j) * get0 (acceptance df i j)
                     * (get0 (cltv_of df i) - inject_Z j)))%Q.
Proof.
  unfold notebook. intros H. inv_bind H as coupons Hc. inv_bind H as df' Hdf'.
  apply formulate_spec in H
    as (-> & _ & _ & _ & cts & cb & _ & _ & _ & Hs & Hobj & _).
  eexists coupons, _. split; [done|]. split; [done|]. split; [exact Hobj|].
  intros v. rewrite value_lpSum_pairs. apply assignment_sum_ext.
  intros i j _ _. rewrite value_objective_summand.
  destruct (add_bau_preserves _ _ i j Hdf') as [-> ->]. reflexivity.
Qed.

(** * Further properties of the cells *)

(** # * How loops and lookups fail *)

Lemma bind_Raise {A B} (r : result A) (g : A -> result B) (e : exn) :
  (r ≫= g) = Raise e -> r = Raise e \/ exists a0, r = Ok a0 /\ g a0 = Raise e.
Proof. destruct r as [a0|e']; simpl; [eauto | intros [= ->]; by left]. Qed.

Lemma traverse_Raise {A B} (g : A -> result B) (l : list A) (e : exn) :
  traverse g l = Raise e -> exists a0, a0 ∈ l /\ g a0 = Raise e.
Proof.
  induction l as [|a0 l IH]; [done|]. rewrite traverse_cons.
  intros [H|(b0 & Hb & H)]%bind_Raise.
  - exists a0. split; [left | done].
  - apply bind_Raise in H as [H|(bs & _ & [=])].
    destruct (IH H) as (a1 & ? & ?). exists a1. split; [by right | done].
Qed.

Lemma foldM_Raise {A S} (g : A -> S -> result S) (l : list A) (s : S) (e : exn) :
  foldM g l s = Raise e -> exists a0 s0, a0 ∈ l /\ g a0 s0 = Raise e.
Proof.
  revert s. induction l as [|a0 l IH]; intros s; [done|].
  change (foldM g (a0 :: l) s) with (s' ← g a0 s; foldM g l s').
  intros [H|(s' & _ & H)]%bind_Raise.
  - exists a0, s. split; [left | done].
  - destruct (IH _ H) as (a1 & s1 & ? & ?). exists a1, s1.
    split; [by right | done].
Qed.

Lemma foldM_ext {A S} (g h : A -> S -> result S) (l : list A) (s : S) :
  (forall a0 s0, a0 ∈ l -> g a0 s0 = h a0 s0) -> foldM g l s = foldM h l s.
Proof.
  revert s. induction l as [|a0 l IH]; intros s Hgh; [done|].
  change (foldM g (a0 :: l) s) with (s' ← g a0 s; foldM g l s').
  change (foldM h (a0 :: l) s) with (s' ← h a0 s; foldM h l s').
  rewrite (Hgh a0 s) by left. destruct (h a0 s) as [s'|e]; [|done]. simpl.
  apply IH. intros a1 s1 Ha1. apply Hgh. by right.
Qed.

(** A comprehension whose body can only raise [e] raises [e] as soon as it
    raises on one element. *)
Lemma traverse_raises {A B} (g : A -> result B) (l : list A) (e : exn) (a0 : A) :
  (forall a1 e', g a1 = Raise e' -> e' = e) ->
  a0 ∈ l -> g a0 = Raise e -> traverse g l = Raise e.
Proof.
  intros Hg Hin Ha. induction l as [|a1 l IH]; [by apply elem_of_nil in Hin|].
  rewrite traverse_cons. destruct (g a1) as [b1|e'] eqn:E1; simpl.
  - apply elem_of_cons in Hin as [->|Hin]; [congruence|].
    by rewrite IH.
  - by rewrite (Hg _ _ E1).
Qed.

Lemma loc_error df i e : loc df i = Raise e -> e = KeyError.
Proof.
  unfold loc. destruct (_ && _); [|by intros [= <-]].
  destruct (rows df !! _); [done | by intros [= <-]].
Qed.

Lemma dict_get_error `{Countable K} {V} (dd : gmap K V) k e :
  dict_get dd k = Raise e -> e = KeyError.
Proof. unfold dict_get. destruct (dd !! k); [done | by intros [= <-]]. Qed.

Lemma int_of_str_error (s : string) (e : exn) :
  int_of_str s = Raise e -> e = ValueError.
Proof.
  unfold int_of_str. intros H.
  repeat match type of H with
         | match ?t with _ => _ end = _ => destruct t
         end; congruence.
Qed.

(** # * More on sums, lists and frames *)

Lemma qsum_pointwise (l1 l2 : list Q) :
  Forall2 Qeq l1 l2 -> (qsum l1 == qsum l2)%Q.
Proof. induction 1 as [|q1 q2 l1 l2 Hq _ IH]; simpl; [reflexivity | lra]. Qed.

Lemma qsum_le {A} (g h : A -> Q) (l : list A) :
  (forall a0, a0 ∈ l -> (g a0 <= h a0)%Q) ->
  (qsum (map g l) <= qsum (map h l))%Q.
Proof.
  induction l as [|a0 l IH]; intros Hgh; simpl; [lra|].
  pose proof (Hgh a0 ltac:(left)).
  assert (qsum (map g l) <= qsum (map h l))%Q; [|lra].
  apply IH. intros a1 Ha1. apply Hgh. by right.
Qed.

Lemma qsum_scale {A} (q : Q) (g : A -> Q) (l : list A) :
  (qsum (map (fun a0 => q * g a0) l) == q * qsum (map g l))%Q.
Proof. induction l as [|a0 l IH]; simpl; [ring | rewrite IH; ring]. Qed.

Lemma qsum_const {A} (q : Q) (l : list A) :
  (qsum (map (fun _ => q) l) == inject_Z (Z.of_nat (length l)) * q)%Q.
Proof.
  induction l as [|a0 l IH]; [simpl; ring|].
  cbn [map qsum foldr length]. fold (qsum (map (fun _ : A => q) l)).
  rewrite IH, Nat2Z.inj_succ. unfold Z.succ. rewrite inject_Z_plus. ring.
Qed.

(** A sum weighted by a 0/1 choice of one element is the term chosen. *)
Lemma onehot_sum (w g : Z -> Q) (l : list Z) (j0 : Z) :
  NoDup l -> j0 ∈ l ->
  (forall j, j ∈ l -> (w j == if decide (j = j0) then 1 else 0)%Q) ->
  (qsum (map (fun j => w j * g j) l) == g j0)%Q.
Proof.
  intros Hnd Hj0 Hw.
  assert (Hzero : forall l', j0 ∉ l' ->
            (forall j, j ∈ l' -> (w j == if decide (j = j0) then 1 else 0)%Q) ->
            (qsum (map (fun j => w j * g j) l') == 0)%Q).
  { induction l' as [|j l' IH]; intros Hn Hw'; simpl; [reflexivity|].
    rewrite IH.
    - rewrite (Hw' j) by left. rewrite decide_False; [ring|].
      intros ->. apply Hn. left.
    - intros Hin. apply Hn. by right.
    - intros j' Hj'. apply Hw'. by right. }
  induction l as [|j l IH]; [by apply elem_of_nil in Hj0|].
  apply NoDup_cons in Hnd as [Hj Hnd]. simpl.
  rewrite (Hw j) by left. destruct (decide (j = j0)) as [->|Hne].
  - rewrite Hzero; [ring | done |]. intros j' Hj'. apply Hw. by right.
  - rewrite IH; [ring | done | |].
    + by apply elem_of_cons in Hj0 as [->|Hj0].
    + intros j' Hj'. apply Hw. by right.
Qed.

(** A sum over customers and coupons weighted by the assignment with a
    single variable at 1 is the term of that variable. *)
Lemma assignment_sum_only users coupons (g : Z -> Z -> Q) i j :
  NoDup users -> NoDup coupons -> i ∈ users -> j ∈ coupons ->
  (assignment_sum users coupons (fun i' j' => only (i, j) (i', j') * g i' j')
   == g i j)%Q.
Proof.
  intros Hu Hc Hi Hj. unfold assignment_sum.
  set (W := fun i' : Z => if decide (i' = i) then 1%Q else 0%Q).
  set (V := fun j' : Z => if decide (j' = j) then 1%Q else 0%Q).
  transitivity (qsum (map (fun i' => W i' * qsum (map (fun j' => V j' * g i' j')%Q
                                                   coupons))%Q users)).
  - apply qsum_map_ext. intros i' _. rewrite <- qsum_scale.
    apply qsum_map_ext. intros j' _. unfold only, W, V.
    destruct (decide (i' = i)) as [->|Hne].
    + destruct (decide (j' = j)) as [->|Hne'].
      * rewrite decide_True by done. ring.
      * rewrite decide_False by congruence. ring.
    + rewrite decide_False by congruence. ring.
  - etransitivity.
    + apply (onehot_sum W
               (fun i' => qsum (map (fun j' => V j' * g i' j')%Q coupons))
               users i Hu Hi).
      intros; reflexivity.
    + apply (onehot_sum V (g i) coupons j Hc Hj). intros; reflexivity.
Qed.

Lemma Qfloor_unique (q : Q) (z : Z) :
  (inject_Z z <= q)%Q -> (q < inject_Z z + 1)%Q -> Qfloor q = z.
Proof.
  intros H0 H1. pose proof (Qfloor_le q) as Hl. pose proof (Qlt_floor q) as Hu.
  assert (Hz : (inject_Z (Qfloor q) < inject_Z (z + 1))%Q).
  { rewrite inject_Z_plus. change (inject_Z 1) with 1%Q. lra. }
  assert (Hz' : (inject_Z z < inject_Z (Qfloor q + 1))%Q) by lra.
  rewrite <- Zlt_Qlt in Hz, Hz'. lia.
Qed.

Lemma getitem_nonneg {A} (l : list A) (idx : Z) (a0 : A) :
  0 <= idx -> getitem l idx = Ok a0 -> l !! Z.to_nat idx = Some a0.
Proof.
  intros Hidx. unfold getitem.
  destruct (Z.ltb_spec idx 0) as [?|_]; [lia|].
  destruct (_ && _); [|done].
  destruct (l !! Z.to_nat idx); [by intros [= ->] | done].
Qed.

Lemma index_lookup df (k : nat) :
  (k < length (rows df))%nat -> index df !! k = Some (Z.of_nat k).
Proof.
  intros Hk. unfold index, range. rewrite arange_lookup by lia. f_equal; lia.
Qed.

Lemma index_length df : length (index df) = length (rows df).
Proof. unfold index, range. rewrite arange_length. lia. Qed.

Lemma elem_of_index df i :
  i ∈ index df <-> 0 <= i < Z.of_nat (length (rows df)).
Proof. unfold index, range. rewrite elem_of_arange. lia. Qed.

Lemma loc_lookup df (k : nat) r :
  rows df !! k = Some r -> loc df (Z.of_nat k) = Ok r.
Proof.
  intros Hr. unfold loc. pose proof (lookup_lt_Some _ _ _ Hr) as Hlt.
  rewrite Nat2Z.id, Hr.
  destruct (_ && _) eqn:E; [done|].
  apply andb_false_iff in E as [E|E]; [apply Z.leb_gt in E | apply Z.ltb_ge in E];
    lia.
Qed.

(** A sum over the row labels, position by position. *)
Lemma qsum_index df (F : Z -> Q) (qs : list Q) :
  length qs = length (rows df) ->
  (forall (k : nat) q, qs !! k = Some q -> (q == F (Z.of_nat k))%Q) ->
  (qsum qs == qsum (map F (index df)))%Q.
Proof.
  intros Hlen Hqs. apply qsum_pointwise, Forall2_same_length_lookup. split.
  - by rewrite length_map, index_length.
  - intros k q q' Hq Hq'. rewrite list_lookup_fmap in Hq'.
    rewrite index_lookup in Hq'.
    + injection Hq' as <-. by apply Hqs.
    + apply lookup_lt_Some in Hq. lia.
Qed.

Lemma set_column_columns df l vs df' l' :
  set_column df l vs = Ok df' ->
  l' ∈ columns df' <-> l' ∈ columns df \/ l' = l.
Proof.
  unfold set_column. destruct (decide (length vs = _)); [|done].
  intros [= <-]. simpl. destruct (decide (l ∈ columns df)) as [Hl|Hl].
  - split; [by left | by intros [?| ->]].
  - rewrite elem_of_app, list_elem_of_singleton. done.
Qed.

Lemma set_column_index df l vs df' :
  set_column df l vs = Ok df' -> index df' = index df.
Proof.
  intros [Hlen Hrows]%set_column_rows. unfold index.
  rewrite Hrows, length_zip_with. do 2 f_equal. lia.
Qed.

Lemma traverse_zip_ext {A B C} (F : A * B -> result C) (rs rs' : list A)
    (cps : list B) :
  Forall2 (fun r r' => forall cp, F (r', cp) = F (r, cp)) rs rs' ->
  traverse F (zip rs' cps) = traverse F (zip rs cps).
Proof.
  intros HF. revert cps. induction HF as [|r r' rs rs' Hr _ IH]; intros cps.
  - done.
  - destruct cps as [|cp cps]; [done|]. simpl. by rewrite Hr, IH.
Qed.

Lemma odict_set_keys {V} (dd : list (Z * V)) k v :
  k ∈ dd.*1 -> (odict_set dd k v).*1 = dd.*1.
Proof.
  induction dd as [|[k' w] dd IH]; simpl; [by intros ?%elem_of_nil|].
  intros Hk. destruct (decide (k' = k)) as [->|Hne]; [done|]. simpl.
  f_equal. apply IH. by apply elem_of_cons in Hk as [->|Hk].
Qed.

Lemma elem_of_odict_set {V} (dd : list (Z * V)) k v i o :
  NoDup dd.*1 -> (i, o) ∈ odict_set dd k v ->
  (i = k /\ o = v) \/ (i <> k /\ (i, o) ∈ dd).
Proof.
  induction dd as [|[k' w] dd IH]; simpl; intros Hnd.
  - intros [= -> ->]%list_elem_of_singleton. by left.
  - apply NoDup_cons in Hnd as [Hk' Hnd].
    destruct (decide (k' = k)) as [->|Hne].
    + intros [[= -> ->]|Hin]%elem_of_cons; [by left|]. right. split.
      * intros ->. apply Hk'. apply list_elem_of_fmap. by exists (k, o).
      * by right.
    + intros [[= -> ->]|Hin]%elem_of_cons.
      * right. split; [done | left].
      * destruct (IH Hnd Hin) as [?|[? ?]]; [by left|]. right.
        split; [done | by right].
Qed.

Lemma all_pairs_length users coupons :
  length (all_pairs users coupons) = (length users * length coupons)%nat.
Proof.
  unfold all_pairs. induction users as [|i users IH]; [done|].
  simpl. rewrite length_app, length_map, IH. done.
Qed.

Lemma all_pairs_NoDup users coupons :
  NoDup users -> NoDup coupons -> NoDup (all_pairs users coupons).
Proof.
  intros Hu Hc. unfold all_pairs.
  induction Hu as [|i users Hi Hu IH]; simpl; [constructor|].
  apply NoDup_app. split; [|split; [|done]].
  - apply NoDup_fmap_2; [|done]. by intros j j' [= ->].
  - intros k (j & -> & Hj)%list_elem_of_fmap Hk.
    apply (elem_of_all_pairs users coupons) in Hk as [? _]. done.
Qed.

Lemma notebook_coupons_NoDup : NoDup notebook_coupons.
Proof. apply (bool_decide_unpack (NoDup notebook_coupons)). vm_compute. exact I. Qed.

Lemma notebook_coupons_nonneg j : j ∈ notebook_coupons -> 0 <= j.
Proof. intros ?%elem_of_notebook_coupons. lia. Qed.

Lemma rng_half_unit : rng_unit (rng_const (1 # 2)).
Proof. intros k. split; [discriminate | reflexivity]. Qed.

(** # * Cell 2: the frame [create_customers] returns *)

(** Each element of a sample is the member of the population that its own
    draw points at. *)
Lemma choices_go_values {A} (rng : Rng) (pop : list A) k cur l cur' :
  choices_go rng pop k cur = Ok (l, cur') ->
  forall (i : nat) a0, l !! i = Some a0 ->
    getitem pop (py_int (rng (cur + i)%nat
                         * inject_Z (Z.of_nat (length pop)))) = Ok a0.
Proof.
  revert cur l cur'. induction k as [|k IH]; simpl; intros cur l cur' H.
  - injection H as <- <-. by intros i a0 ?.
  - inv_bind H as a1 Ha1. inv_bind H as rest Hrest.
    destruct rest as [l0 c0]. simpl in H. injection H as <- <-.
    intros [|i] a0 Hi; simpl in Hi.
    + injection Hi as <-. by rewrite Nat.add_0_r.
    + rewrite <- Nat.add_succ_comm. by apply (IH _ _ _ Hrest).
Qed.

Lemma mults_lookup n (k : nat) :
  (k < Z.to_nat (n - 1))%nat ->
  mults n !! k = Some (inject_Z (1 + Z.of_nat k) / 100)%Q.
Proof.
  intros Hk. unfold mults. by rewrite list_lookup_fmap, arange_lookup.
Qed.

Lemma mults_length n : length (mults n) = Z.to_nat (n - 1).
Proof. unfold mults. by rewrite length_map, arange_length. Qed.

(** The row of customer [i] as a function of the draws: the multiplier comes
    from draw [i], the CLTV from draw [n + i]. *)
Lemma created_row_values rng n (cs : list Z) df (i : nat) row :
  NoDup cs -> rng_unit rng -> create_customers rng n cs = Ok df ->
  rows df !! i = Some row ->
  2 <= n /\ (i < Z.to_nat n)%nat /\
  series_get row cltv_label
    = Ok (inject_Z (30 + Qfloor (rng (Z.to_nat n + i)%nat * 90))) /\
  forall (j : nat) cj, cs !! j = Some cj ->
    series_get row (prob_coupon cj)
    = Ok (inject_Z (Z.of_nat j + 1)
          * (inject_Z (1 + Qfloor (rng i * inject_Z (n - 1))) / 100))%Q.
Proof.
  intros Hnd Hr Hdf Hrow. unfold create_customers, choices in Hdf.
  inv_bind Hdf as r1 H1. inv_bind Hdf as r2 H2.
  destruct r1 as [rm c1], r2 as [rc c2]. simpl in Hdf.
  pose proof (choices_go_values _ _ _ _ _ _ H1) as V1.
  pose proof (choices_go_values _ _ _ _ _ _ H2) as V2.
  apply choices_go_spec in H1 as (Hrm & Hfm & ->).
  apply choices_go_spec in H2 as (Hrc & Hfc & _).
  unfold range, arange in Hdf. rewrite Z.sub_0_r in Hdf.
  rewrite fill_rows_spec in Hdf by (simpl; lia). simpl in Hdf.
  injection Hdf as <-. simpl in Hrow.
  rewrite !drop_0, !take_ge in Hrow by lia.
  apply lookup_zip_with_Some in Hrow as (m & v & -> & Hm & Hv).
  pose proof (lookup_lt_Some _ _ _ Hm) as Hi. rewrite Hrm in Hi.
  assert (Hn : 2 <= n).
  { destruct (Z.le_gt_cases 2 n) as [|Hlt]; [done|].
    eapply Forall_lookup_1 in Hfm; [|exact Hm].
    rewrite mults_small in Hfm by lia. by apply elem_of_nil in Hfm. }
  split; [done|]. split; [done|].
  destruct (Hr i) as [Hi0 Hi1]. destruct (Hr (Z.to_nat n + i)%nat) as [Hv0 Hv1].
  apply V1 in Hm. apply V2 in Hv. simpl in Hm.
  rewrite mults_length in Hm.
  assert (Hpos1 : (0 < Z.to_nat (n - 1))%nat) by lia.
  pose proof (unit_draw_index _ (Z.to_nat (n - 1)) Hi0 Hi1 Hpos1) as Hidx.
  apply getitem_nonneg in Hm; [|lia].
  rewrite mults_lookup in Hm by lia. injection Hm as <-.
  change (length cltvs) with 90%nat in Hv. rewrite Nat.add_0_l in Hv.
  cbn [snd] in Hv.
  assert (Hpos2 : (0 < 90)%nat) by lia.
  pose proof (unit_draw_index _ 90 Hv0 Hv1 Hpos2) as Hvdx.
  apply getitem_nonneg in Hv; [|lia].
  unfold cltvs in Hv. rewrite arange_lookup in Hv by lia. injection Hv as <-.
  rewrite !Z2Nat.id by lia.
  assert (E1 : py_int (rng i * inject_Z (n - 1))
               = Qfloor (rng i * inject_Z (n - 1))).
  { apply py_int_floor.
    assert (0 < inject_Z (n - 1))%Q by (rewrite <- (Zlt_Qlt 0); lia). nra. }
  assert (E2 : py_int (rng (Z.to_nat n + i)%nat * inject_Z (Z.of_nat 90))
               = Qfloor (rng (Z.to_nat n + i)%nat * 90)).
  { change (inject_Z (Z.of_nat 90)) with 90%Q. apply py_int_floor. nra. }
  rewrite E1, E2. split.
  - by apply created_row_cltv.
  - intros j cj Hj. by apply created_row_lookup.
Qed.

(** X1.  For [n >= 2], draws in [[0, 1)] and pairwise distinct coupons,
    [create_customers(n, c)] returns a frame: its header is the columns
    [prob_coupon_j] for the coupons of [c], in order, followed by [cltv];
    its row labels are [0 .. n-1]; every row has exactly the labels of the
    header, and its CLTV is an integer of [[30, 120)]. *)
Theorem create_customers_frame rng n (cs : list Z) :
  rng_unit rng -> 2 <= n -> NoDup cs ->
  exists df, create_customers rng n cs = Ok df /\
    columns df = map prob_coupon cs ++ [cltv_label] /\
    index df = range n /\
    forall r, r ∈ rows df ->
      r.*1 = columns df /\
      exists v, series_get r cltv_label = Ok (inject_Z v) /\ 30 <= v < 120.
Proof.
  intros Hr Hn Hnd.
  destruct (is_ok_Ok _ (create_customers_ok rng n cs Hr Hn)) as [df Hdf].
  exists df. split; [done|].
  destruct (created_rows_shape _ _ _ _ Hnd Hdf) as [Hcols Hlab].
  split; [done|]. split.
  - apply create_customers_spec in Hdf as (rm & rc & Hrm & Hrc & _ & _ & ->).
    unfold index. simpl. rewrite length_zip_with, Hrm, Hrc, Nat.min_id.
    f_equal. lia.
  - intros r Hin. split; [by rewrite Hcols; apply Hlab|].
    by apply (created_cltv_range rng n cs df).
Qed.

Lemma create_customers_frame_witness :
  exists df, create_customers (rng_const (1 # 2)) 3 [4; 5; 6] = Ok df /\
    columns df = map prob_coupon [4; 5; 6] ++ [cltv_label] /\
    index df = range 3 /\
    forall r, r ∈ rows df ->
      r.*1 = columns df /\
      exists v, series_get r cltv_label = Ok (inject_Z v) /\ 30 <= v < 120.
Proof.
  apply (create_customers_frame (rng_const (1 # 2)) 3 [4; 5; 6]).
  - exact rng_half_unit.
  - lia.
  - apply (bool_decide_unpack (NoDup [4; 5; 6])). vm_compute. exact I.
Defined.

(** X2.  Which draw feeds which customer.  For [n >= 2] the frame has [n]
    rows; all the multipliers are drawn before the first CLTV, so that the
    multiplier of customer [i] comes from draw [i] alone and the CLTV from
    draw [n + i] alone: compared with the run on another stream of draws,
    a draw [i] that is not smaller gives a multiplier that is not smaller,
    and a draw [n + i] that is not smaller gives a CLTV that is not smaller
    (equal draws give equal values).  A draw of 0 gives the least
    multiplier, 0.01, and the least CLTV, 30.  The value in the column of
    the coupon at position [j] is [(j+1)] times the multiplier. *)
Theorem create_customers_by_draws rng rng' n (cs : list Z) :
  rng_unit rng -> rng_unit rng' -> 2 <= n -> NoDup cs ->
  exists df df',
    create_customers rng n cs = Ok df /\
    create_customers rng' n cs = Ok df' /\
    length (rows df) = Z.to_nat n /\ length (rows df') = Z.to_nat n /\
    forall (i : nat) row row',
      rows df !! i = Some row -> rows df' !! i = Some row' ->
      exists m m' v v',
        series_get row cltv_label = Ok (inject_Z v) /\
        series_get row' cltv_label = Ok (inject_Z v') /\
        (forall (j : nat) cj, cs !! j = Some cj ->
           series_get row (prob_coupon cj)
             = Ok (inject_Z (Z.of_nat j + 1) * m)%Q /\
           series_get row' (prob_coupon cj)
             = Ok (inject_Z (Z.of_nat j + 1) * m')%Q) /\
        ((rng i <= rng' i)%Q -> (m <= m')%Q) /\
        ((rng (Z.to_nat n + i)%nat <= rng' (Z.to_nat n + i)%nat)%Q -> v <= v') /\
        ((rng i == 0)%Q -> (m == 1 # 100)%Q) /\
        ((rng (Z.to_nat n + i)%nat == 0)%Q -> v = 30).
Proof.
  intros Hr Hr' Hn Hnd.
  destruct (is_ok_Ok _ (create_customers_ok rng n cs Hr Hn)) as [df Hdf].
  destruct (is_ok_Ok _ (create_customers_ok rng' n cs Hr' Hn)) as [df' Hdf'].
  exists df, df'. split; [done|]. split; [done|]. split; [|split].
  - pose proof Hdf as (rm & rc & Hrm & Hrc & _ & _ & ->)%create_customers_spec.
    simpl. rewrite length_zip_with. lia.
  - pose proof Hdf' as (rm & rc & Hrm & Hrc & _ & _ & ->)%create_customers_spec.
    simpl. rewrite length_zip_with. lia.
  - intros i row row' Hrow Hrow'.
    destruct (created_row_values rng n cs df i row Hnd Hr Hdf Hrow)
      as (_ & _ & Hc & Hp).
    destruct (created_row_values rng' n cs df' i row' Hnd Hr' Hdf' Hrow')
      as (_ & _ & Hc' & Hp').
    eexists _, _, _, _. split; [exact Hc|]. split; [exact Hc'|]. split.
    { intros j cj Hj. split; [by apply Hp | by apply Hp']. }
    assert (Hpos : (0 < inject_Z (n - 1))%Q) by (rewrite <- (Zlt_Qlt 0); lia).
    split; [|split; [|split]].
    + intros Hle.
      assert (Hf : Qfloor (rng i * inject_Z (n - 1))
                   <= Qfloor (rng' i * inject_Z (n - 1)))
        by (apply Qfloor_resp_le; nra).
      unfold Qdiv. apply Qmult_le_compat_r; [|discriminate].
      rewrite <- Zle_Qle. lia.
    + intros Hle.
      assert (Hf : Qfloor (rng (Z.to_nat n + i)%nat * 90)
                   <= Qfloor (rng' (Z.to_nat n + i)%nat * 90))
        by (apply Qfloor_resp_le; lra).
      lia.
    + intros E.
      assert (E0 : (rng i * inject_Z (n - 1) == 0)%Q) by (rewrite E; ring).
      rewrite (Qfloor_comp _ _ E0). reflexivity.
    + intros E.
      assert (E0 : (rng (Z.to_nat n + i)%nat * 90 == 0)%Q) by (rewrite E; ring).
      rewrite (Qfloor_comp _ _ E0). reflexivity.
Qed.

(** Three customers and the coupons 4, 5, 6, once with every draw equal to
    0.5 and once with every draw equal to 0.99: the first customer gets the
    CLTV 75 in the first run and 119 in the second. *)
Lemma create_customers_by_draws_witness :
  (df ← create_customers (rng_const (1 # 2)) 3 [4; 5; 6]; cltv_of df 0)
    = Ok 75%Q /\
  (df ← create_customers (rng_const (99 # 100)) 3 [4; 5; 6]; cltv_of df 0)
    = Ok 119%Q /\
  exists df df',
    create_customers (rng_const (1 # 2)) 3 [4; 5; 6] = Ok df /\
    create_customers (rng_const (99 # 100)) 3 [4; 5; 6] = Ok df' /\
    length (rows df) = 3%nat /\ length (rows df') = 3%nat /\
    forall (i : nat) row row',
      rows df !! i = Some row -> rows df' !! i = Some row' ->
      exists m m' v v',
        series_get row cltv_label = Ok (inject_Z v) /\
        series_get row' cltv_label = Ok (inject_Z v') /\
        (forall (j : nat) cj, [4; 5; 6] !! j = Some cj ->
           series_get row (prob_coupon cj)
             = Ok (inject_Z (Z.of_nat j + 1) * m)%Q /\
           series_get row' (prob_coupon cj)
             = Ok (inject_Z (Z.of_nat j + 1) * m')%Q) /\
        ((rng_const (1 # 2) i <= rng_const (99 # 100) i)%Q -> (m <= m')%Q) /\
        ((rng_const (1 # 2) (Z.to_nat 3 + i)%nat
          <= rng_const (99 # 100) (Z.to_nat 3 + i)%nat)%Q -> v <= v') /\
        ((rng_const (1 # 2) i == 0)%Q -> (m == 1 # 100)%Q) /\
        ((rng_const (1 # 2) (Z.to_nat 3 + i)%nat == 0)%Q -> v = 30).
Proof.
  split; [vm_compute; reflexivity|]. split; [vm_compute; reflexivity|].
  apply (create_customers_by_draws (rng_const (1 # 2)) (rng_const (99 # 100))
           3 [4; 5; 6]).
  - exact rng_half_unit.
  - apply rng_const_unit; [discriminate | reflexivity].
  - lia.
  - apply (bool_decide_unpack (NoDup [4; 5; 6])). vm_compute. exact I.
Defined.

(** X3.  For [n >= 2] and pairwise distinct coupons, the values
    [create_customers(n, c)] writes in the probability columns lie in
    [(0, 1]] whatever the draws exactly when [len(c) * (n - 1) <= 100]. *)
Theorem created_values_probabilities_iff n (cs : list Z) :
  NoDup cs -> 2 <= n ->
  (forall rng df r (j : nat) cj p,
     rng_unit rng -> create_customers rng n cs = Ok df -> r ∈ rows df ->
     cs !! j = Some cj -> series_get r (prob_coupon cj) = Ok p ->
     (0 < p)%Q /\ (p <= 1)%Q) <->
  Z.of_nat (length cs) * (n - 1) <= 100.
Proof.
  intros Hnd Hn. split.
  - intros Hall. destruct (Z.le_gt_cases (Z.of_nat (length cs) * (n - 1)) 100)
      as [|Hbig]; [done|]. exfalso.
    set (u := ((2 * n - 3) # Z.to_pos (2 * n - 2))%Q).
    assert (Hden : inject_Z (Z.pos (Z.to_pos (2 * n - 2)))
                   = inject_Z (2 * n - 2)) by (rewrite Z2Pos.id; [done | lia]).
    assert (Hu : (u * inject_Z (n - 1) == inject_Z (n - 2) + (1 # 2))%Q).
    { unfold u. rewrite (Qmake_Qdiv (2 * n - 3)), Hden.
      replace (2 * n - 2) with (2 * (n - 1)) by lia.
      replace (2 * n - 3) with (2 * (n - 2) + 1) by lia.
      rewrite !inject_Z_plus, !inject_Z_mult.
      change (inject_Z 2) with 2%Q. change (inject_Z 1) with 1%Q.
      assert (~ inject_Z (n - 1) == 0)%Q.
      { intros E. assert (0 < inject_Z (n - 1))%Q
          by (rewrite <- (Zlt_Qlt 0); lia). lra. }
      field. done. }
    assert (Hunit : rng_unit (rng_const u)).
    { apply rng_const_unit.
      - unfold u, Qle. simpl. lia.
      - unfold u, Qlt. simpl. rewrite Z2Pos.id by lia. lia. }
    destruct (is_ok_Ok _ (create_customers_ok (rng_const u) n cs Hunit Hn))
      as [df Hdf].
    pose proof Hdf as (rm & rc & Hrm & Hrc & _ & _ & Edf)%create_customers_spec.
    destruct (lookup_lt_is_Some_2 (rows df) 0) as [row Hrow].
    { rewrite Edf. simpl. rewrite length_zip_with. lia. }
    assert (Hlen : (0 < length cs)%nat) by (destruct cs; simpl in *; lia).
    destruct (lookup_lt_is_Some_2 cs (length cs - 1)) as [cj Hcj]; [lia|].
    destruct (created_row_values _ _ _ _ _ _ Hnd Hunit Hdf Hrow)
      as (_ & _ & _ & Hval).
    specialize (Hval _ _ Hcj).
    destruct (Hall (rng_const u) df row _ cj _ Hunit Hdf
                (list_elem_of_lookup_2 _ _ _ Hrow) Hcj Hval) as [_ Hle].
    unfold rng_const in Hle.
    rewrite (Qfloor_unique _ (n - 2)) in Hle; [| rewrite Hu; lra | rewrite Hu; lra].
    replace (1 + (n - 2)) with (n - 1) in Hle by lia.
    replace (Z.of_nat (length cs - 1) + 1) with (Z.of_nat (length cs)) in Hle
      by lia.
    assert (Hb : (100 < inject_Z (Z.of_nat (length cs) * (n - 1)))%Q)
      by (rewrite <- (Zlt_Qlt 100); lia).
    rewrite inject_Z_mult in Hb.
    set (L := inject_Z (Z.of_nat (length cs))) in *.
    set (N := inject_Z (n - 1)) in *.
    assert (E : (L * (N / 100) == (L * N) / 100)%Q) by field.
    rewrite E in Hle.
    apply (Qmult_le_compat_r _ _ 100) in Hle; [|done].
    assert (E' : (L * N / 100 * 100 == L * N)%Q) by field.
    rewrite E' in Hle. lra.
  - intros Hsmall rng df r j cj p Hr Hdf Hin Hj Hp.
    destruct (created_value_bound rng n cs df r j cj p Hnd Hdf Hin Hj Hp)
      as [H0 H1].
    split; [done|]. eapply Qle_trans; [exact H1|].
    assert (Hb : (inject_Z (Z.of_nat (length cs) * (n - 1)) <= 100)%Q)
      by (rewrite <- (Zle_Qle _ 100); lia).
    apply Qle_shift_div_r; [done | lra].
Qed.

Lemma created_values_probabilities_iff_witness :
  2 <= 10 /\
  ((forall rng df r (j : nat) cj p,
      rng_unit rng -> create_customers rng 10 notebook_coupons = Ok df ->
      r ∈ rows df -> notebook_coupons !! j = Some cj ->
      series_get r (prob_coupon cj) = Ok p ->
      (0 < p)%Q /\ (p <= 1)%Q) <->
   Z.of_nat (length notebook_coupons) * (10 - 1) <= 100).
Proof.
  assert (H : 2 <= 10) by lia. split; [exact H|].
  apply (created_values_probabilities_iff 10 notebook_coupons
           notebook_coupons_NoDup H).
Defined.

(** # * Cell 4: the coupons of the header and the BAU columns *)

(** X4.  The first line of cell 4 reads back the coupons the header was
    made from, negative ones included: on the columns [prob_coupon_j] for
    [j] in [cs], followed by any columns whose label contains [cltv],
    it returns [cs]. *)
Theorem coupons_of_round_trip (df : DataFrame) (cs : list Z) (extra : list string) :
  columns df = map prob_coupon cs ++ extra ->
  Forall (fun l => contains cltv_label l = true) extra ->
  coupons_of df = Ok cs.
Proof.
  intros Hcols Hextra. unfold coupons_of. rewrite Hcols, filter_app.
  replace (filter _ extra) with (@nil string).
  2:{ symmetry. apply filter_none. eapply Forall_impl; [exact Hextra|].
      intros l Hl. simpl. congruence. }
  rewrite app_nil_r. clear Hcols.
  induction cs as [|j cs IH]; [done|].
  change (map prob_coupon (j :: cs))
    with (prob_coupon j :: map prob_coupon cs).
  rewrite filter_cons_True by apply contains_cltv_prob_coupon.
  rewrite traverse_cons, last_field_prob_coupon, int_of_str_pretty, IH.
  reflexivity.
Qed.

Lemma coupons_of_round_trip_witness :
  coupons_of notebook_df = Ok notebook_coupons /\
  coupons_of {| columns := map prob_coupon [-2; 0; 15]
                           ++ ["cltv"; "cltv_segment"]%string;
                rows := [] |} = Ok [-2; 0; 15].
Proof.
  split.
  - apply (coupons_of_round_trip notebook_df notebook_coupons [cltv_label]).
    + reflexivity.
    + apply (bool_decide_unpack
               (Forall (fun l => contains cltv_label l = true) [cltv_label])).
      vm_compute. exact I.
  - apply (coupons_of_round_trip _ [-2; 0; 15] ["cltv"; "cltv_segment"]%string).
    + reflexivity.
    + apply (bool_decide_unpack
               (Forall (fun l => contains cltv_label l = true)
                  ["cltv"; "cltv_segment"]%string)).
      vm_compute. exact I.
Defined.

(** What cell 4 leaves in the frame. *)
Lemma add_bau_columns df df' :
  add_bau df = Ok df' ->
  index df' = index df /\
  (forall l, l ∈ columns df' <-> l ∈ columns df \/ l ∈ bau_labels) /\
  (forall l, l ∉ bau_labels -> column df' l = column df l) /\
  exists cb pb cl,
    coupons_bau df = Ok cb /\ column df cltv_label = Ok cl /\
    column df' coupon_bau_label = Ok (map inject_Z cb) /\
    column df' prob_coupon_bau_label = Ok pb /\
    column df' roi_bau_label = Ok (roi_values pb cl (map inject_Z cb)).
Proof.
  unfold add_bau. intros H.
  inv_bind H as cb Hcb. inv_bind H as df1 Hdf1. inv_bind H as pb Hpb.
  inv_bind H as df2 Hdf2. inv_bind H as p Hp. inv_bind H as cl Hcl.
  inv_bind H as cp Hcp. rename H into Hdf3.
  rewrite (column_set_column _ _ _ _ Hdf2) in Hp. injection Hp as <-.
  rewrite (column_set_column_ne _ prob_coupon_bau_label cltv_label _ _
             ltac:(by compute) Hdf2) in Hcl.
  rewrite (column_set_column_ne _ coupon_bau_label cltv_label _ _
             ltac:(by compute) Hdf1) in Hcl.
  rewrite (column_set_column_ne _ prob_coupon_bau_label coupon_bau_label _ _
             ltac:(by compute) Hdf2) in Hcp.
  rewrite (column_set_column _ _ _ _ Hdf1) in Hcp. injection Hcp as <-.
  split; [|split; [|split]].
  - rewrite (set_column_index _ _ _ _ Hdf3), (set_column_index _ _ _ _ Hdf2).
    apply (set_column_index _ _ _ _ Hdf1).
  - intros l. rewrite (set_column_columns _ _ _ _ l Hdf3).
    rewrite (set_column_columns _ _ _ _ l Hdf2).
    rewrite (set_column_columns _ _ _ _ l Hdf1).
    unfold bau_labels. rewrite !elem_of_cons, elem_of_nil. tauto.
  - intros l Hl. unfold bau_labels in Hl.
    rewrite !not_elem_of_cons in Hl. destruct Hl as (H1 & H2 & H3 & _).
    assert (N1 : coupon_bau_label <> l) by congruence.
    assert (N2 : prob_coupon_bau_label <> l) by congruence.
    assert (N3 : roi_bau_label <> l) by congruence.
    rewrite (column_set_column_ne _ _ l _ _ N3 Hdf3).
    rewrite (column_set_column_ne _ _ l _ _ N2 Hdf2).
    apply (column_set_column_ne _ _ l _ _ N1 Hdf1).
  - exists cb, pb, cl. split; [done|]. split; [done|]. split; [|split].
    + rewrite (column_set_column_ne _ roi_bau_label coupon_bau_label _ _
                 ltac:(by compute) Hdf3).
      rewrite (column_set_column_ne _ prob_coupon_bau_label coupon_bau_label _ _
                 ltac:(by compute) Hdf2).
      apply (column_set_column _ _ _ _ Hdf1).
    + rewrite (column_set_column_ne _ roi_bau_label prob_coupon_bau_label _ _
                 ltac:(by compute) Hdf3).
      apply (column_set_column _ _ _ _ Hdf2).
    + apply (column_set_column _ _ _ _ Hdf3).
Qed.

(** X5.  Cell 4 cannot be run twice on the same frame: once the BAU columns
    are in the frame, the comprehension that extracts the coupons meets the
    label [coupon_bau], whose last field is not an integer, and raises
    [ValueError]. *)
Theorem coupons_of_after_bau df df' :
  add_bau df = Ok df' -> coupons_of df' = Raise ValueError.
Proof.
  intros Hdf'. destruct (add_bau_columns _ _ Hdf') as (_ & Hcols & _).
  unfold coupons_of.
  apply (traverse_raises _ _ _ coupon_bau_label).
  - intros col e. apply int_of_str_error.
  - apply list_elem_of_filter. split; [by vm_compute|].
    apply Hcols. right. left.
  - by vm_compute.
Qed.

Lemma coupons_of_after_bau_witness :
  exists df', add_bau notebook_df = Ok df' /\
    coupons_of notebook_df = Ok notebook_coupons /\
    coupons_of df' = Raise ValueError.
Proof.
  destruct (result_inv (fun _ => True) (add_bau notebook_df))
    as (df' & Hdf' & _); [vm_compute; exact I|].
  exists df'. split; [exact Hdf'|]. split; [vm_compute; reflexivity|].
  apply (coupons_of_after_bau notebook_df df' Hdf').
Defined.

(** X6.  On a frame with at least one row and whole-number CLTVs, the BAU
    part of cell 4 runs through exactly when every row has a CLTV and a
    probability column for its BAU coupon [round(0.1 * cltv)]; when it
    fails, it fails with [KeyError]. *)
Theorem add_bau_succeeds_iff df :
  rows df <> [] -> whole_cltvs df ->
  (is_ok (add_bau df) <->
   forall r, r ∈ rows df ->
     exists v, series_get r cltv_label = Ok v /\
       is_ok (series_get r (prob_coupon (py_round (v * (1 # 10)))))) /\
  (forall e, add_bau df = Raise e -> e = KeyError).
Proof.
  intros _ _.
  assert (Hsuff : (forall r, r ∈ rows df ->
             exists v, series_get r cltv_label = Ok v /\
               is_ok (series_get r (prob_coupon (py_round (v * (1 # 10)))))) ->
           is_ok (add_bau df)).
  { intros Hrows.
    destruct (is_ok_Ok (coupons_bau df)) as [cb Hcb].
    { unfold coupons_bau, column.
      destruct (is_ok_Ok (traverse (fun s => series_get s cltv_label) (rows df)))
        as [cl ->]; [|done].
      apply traverse_is_ok. intros r Hr.
      destruct (Hrows r Hr) as (v & -> & _). done. }
    destruct (is_ok_Ok (policy_roi df (map inject_Z cb))) as [q Hq].
    { unfold policy_roi.
      destruct (is_ok_Ok (traverse (fun xc => expected_return xc.1 xc.2)
                            (zip (rows df) (map inject_Z cb)))) as [rs ->];
        [|done].
      apply traverse_is_ok. intros [r cp] (k & Hk)%list_elem_of_lookup_1.
      apply lookup_zip_with_Some in Hk as (r' & cp' & [= <- <-] & Hr & Hcp).
      destruct (coupons_bau_lookup _ _ _ _ Hcb Hr) as (v & Hv & Hcbk).
      rewrite list_lookup_fmap, Hcbk in Hcp. injection Hcp as <-.
      destruct (Hrows r (list_elem_of_lookup_2 _ _ _ Hr)) as (v' & Hv' & Hp).
      rewrite Hv in Hv'. injection Hv' as <-.
      simpl. unfold expected_return. rewrite py_int_inject.
      destruct (is_ok_Ok _ Hp) as [p ->]. simpl. by rewrite Hv. }
    pose proof (policy_roi_bau _ _ _ Hcb Hq) as Hroi.
    unfold ROI_BAU in Hroi. by destruct (add_bau df). }
  assert (Hnec : forall cb df1 pb,
            coupons_bau df = Ok cb ->
            set_column df coupon_bau_label (map inject_Z cb) = Ok df1 ->
            apply_rows (prob_lookup coupon_bau_label) df1 = Ok pb ->
            forall r, r ∈ rows df ->
              exists v, series_get r cltv_label = Ok v /\
                is_ok (series_get r (prob_coupon (py_round (v * (1 # 10)))))).
  { intros cb df1 pb Hcb Hdf1 Hpb r (k & Hr)%list_elem_of_lookup_1.
    destruct (coupons_bau_lookup _ _ _ _ Hcb Hr) as (v & Hv & Hk).
    exists v. split; [done|].
    assert (Hr1 : rows df1 !! k
                  = Some (series_set r coupon_bau_label
                            (inject_Z (py_round (v * (1 # 10)))))).
    { eapply set_column_lookup; [exact Hdf1 | exact Hr |].
      by rewrite list_lookup_fmap, Hk. }
    destruct (traverse_lookup _ _ _ _ _ Hpb Hr1) as (p' & _ & Hl).
    rewrite prob_lookup_bau in Hl. by rewrite Hl. }
  split.
  - split; [|exact Hsuff].
    intros Hok. destruct (is_ok_Ok _ Hok) as [df' Hdf'].
    unfold add_bau in Hdf'. inv_bind Hdf' as cb Hcb.
    inv_bind Hdf' as df1 Hdf1. inv_bind Hdf' as pb Hpb.
    by apply (Hnec cb df1 pb).
  - intros e He.
    destruct (coupons_bau df) as [cb|e'] eqn:Hcb.
    2:{ unfold add_bau in He. rewrite Hcb in He. injection He as <-.
        unfold coupons_bau in Hcb.
        apply bind_Raise in Hcb as [Hc|(cl & _ & [=])].
        apply traverse_Raise in Hc as (r & _ & Hr).
        by apply series_get_error in Hr. }
    destruct (set_column_Ok df coupon_bau_label (map inject_Z cb))
      as (df1 & Hdf1 & _).
    { by rewrite length_map, (coupons_bau_length _ _ Hcb). }
    destruct (apply_rows (prob_lookup coupon_bau_label) df1) as [pb|e'] eqn:Hpb.
    + pose proof (Hsuff (Hnec cb df1 pb eq_refl Hdf1 Hpb)) as Hok.
      rewrite He in Hok. done.
    + unfold add_bau in He. rewrite Hcb in He. simpl in He.
      rewrite Hdf1 in He. simpl in He. rewrite Hpb in He. injection He as <-.
      apply traverse_Raise in Hpb as (r & _ & Hr). unfold prob_lookup in Hr.
      apply bind_Raise in Hr as [Hr|(cp & _ & Hr)];
        by apply series_get_error in Hr.
Qed.

Lemma add_bau_succeeds_iff_witness :
  is_ok (add_bau notebook_df) /\
  add_bau two_customers = Raise KeyError.
Proof.
  split.
  - assert (H : rows notebook_df <> []) by discriminate.
    assert (Hw : whole_cltvs notebook_df)
      by (apply whole_cltvs_check; vm_compute; reflexivity).
    apply (proj2 (proj1 (add_bau_succeeds_iff notebook_df H Hw))).
    intros r Hr. simpl in Hr.
    repeat (apply elem_of_cons in Hr as [->|Hr];
            [eexists; split; [vm_compute; reflexivity | vm_compute; exact I]|]).
    by apply elem_of_nil in Hr.
  - assert (H : rows two_customers <> []) by discriminate.
    assert (Hw : whole_cltvs two_customers)
      by (apply whole_cltvs_check; vm_compute; reflexivity).
    destruct (add_bau two_customers) as [df'|e] eqn:E.
    + exfalso. revert E. vm_compute. discriminate.
    + f_equal. apply (proj2 (add_bau_succeeds_iff two_customers H Hw) e E).
Defined.

(** X7.  What the BAU part of cell 4 does to a frame of whole-number
    CLTVs: the row labels are unchanged, the header gains the labels
    [coupon_bau], [prob_coupon_bau] and [roi_bau] and nothing else, every
    other column keeps its values, and the three columns hold, row by row,
    the rounded tenth of the CLTV, the probability found in the column of
    that coupon, and that probability times (CLTV minus coupon). *)
Theorem add_bau_adds_three_columns df df' :
  whole_cltvs df -> add_bau df = Ok df' ->
  index df' = index df /\
  (forall l, l ∈ columns df' <-> l ∈ columns df \/ l ∈ bau_labels) /\
  (forall l, l ∉ bau_labels -> column df' l = column df l) /\
  exists cl pb,
    column df cltv_label = Ok cl /\
    column df' coupon_bau_label
      = Ok (map (fun v => inject_Z (py_round (v * (1 # 10)))) cl) /\
    column df' prob_coupon_bau_label = Ok pb /\
    Forall2 (fun r p =>
               exists v, series_get r cltv_label = Ok v /\
                 series_get r (prob_coupon (py_round (v * (1 # 10)))) = Ok p)
      (rows df) pb /\
    column df' roi_bau_label
      = Ok (roi_values pb cl
              (map (fun v => inject_Z (py_round (v * (1 # 10)))) cl)).
Proof.
  intros _ Hdf'.
  destruct (add_bau_columns _ _ Hdf')
    as (Hidx & Hcols & Hkeep & cb & pb & cl & Hcb & Hcl & H1 & H2 & H3).
  split; [done|]. split; [done|]. split; [done|].
  assert (Ecb : map inject_Z cb
                = map (fun v => inject_Z (py_round (v * (1 # 10)))) cl).
  { unfold coupons_bau in Hcb. rewrite Hcl in Hcb. simpl in Hcb.
    injection Hcb as <-. by rewrite map_map. }
  exists cl, pb. rewrite <- Ecb. split; [done|]. split; [done|].
  split; [done|]. split; [|done].
  unfold add_bau in Hdf'. rewrite Hcb in Hdf'. simpl in Hdf'.
  inv_bind Hdf' as df1 Hdf1. inv_bind Hdf' as pb' Hpb.
  inv_bind Hdf' as df2 Hdf2.
  assert (pb' = pb) as ->.
  { inv_bind Hdf' as p Hp. inv_bind Hdf' as cl' Hcl'.
    inv_bind Hdf' as cp Hcp.
    rewrite (column_set_column_ne _ roi_bau_label prob_coupon_bau_label _ _
               ltac:(by compute) Hdf') in H2.
    rewrite (column_set_column _ _ _ _ Hdf2) in H2. by injection H2. }
  unfold apply_rows in Hpb.
  apply Forall2_same_length_lookup. split.
  - rewrite (traverse_length _ _ _ Hpb).
    destruct (set_column_rows _ _ _ _ Hdf1) as [Hlen ->].
    rewrite length_zip_with. lia.
  - intros k r p Hr Hp.
    destruct (coupons_bau_lookup _ _ _ _ Hcb Hr) as (v & Hv & Hk).
    exists v. split; [done|].
    assert (Hr1 : rows df1 !! k
                  = Some (series_set r coupon_bau_label
                            (inject_Z (py_round (v * (1 # 10)))))).
    { eapply set_column_lookup; [exact Hdf1 | exact Hr |].
      by rewrite list_lookup_fmap, Hk. }
    destruct (traverse_lookup _ _ _ _ _ Hpb Hr1) as (p' & Hp' & Hl).
    rewrite Hp in Hp'. injection Hp' as <-.
    by rewrite prob_lookup_bau in Hl.
Qed.

Lemma add_bau_adds_three_columns_witness :
  exists df', add_bau notebook_df = Ok df' /\
    index df' = index notebook_df /\
    (forall l, l ∈ columns df' <-> l ∈ columns notebook_df \/ l ∈ bau_labels) /\
    (forall l, l ∉ bau_labels -> column df' l = column notebook_df l) /\
    exists cl pb,
      column notebook_df cltv_label = Ok cl /\
      column df' coupon_bau_label
        = Ok (map (fun v => inject_Z (py_round (v * (1 # 10)))) cl) /\
      column df' prob_coupon_bau_label = Ok pb /\
      Forall2 (fun r p =>
                 exists v, series_get r cltv_label = Ok v /\
                   series_get r (prob_coupon (py_round (v * (1 # 10)))) = Ok p)
        (rows notebook_df) pb /\
      column df' roi_bau_label
        = Ok (roi_values pb cl
                (map (fun v => inject_Z (py_round (v * (1 # 10)))) cl)).
Proof.
  destruct (result_inv (fun _ => True) (add_bau notebook_df))
    as (df' & Hdf' & _); [vm_compute; exact I|].
  exists df'. split; [exact Hdf'|].
  apply (add_bau_adds_three_columns notebook_df df'); [|exact Hdf'].
  apply whole_cltvs_check. vm_compute; reflexivity.
Defined.

(** X8.  The budget [b] of the program is one tenth of the total CLTV,
    and the BAU policy spends the sum of the rounded tenths: on whole-number
    CLTVs the two differ by at most half a unit per customer, in either
    direction. *)
Theorem bau_spend_near_budget df cb bud :
  whole_cltvs df -> coupons_bau df = Ok cb -> budget df = Ok bud ->
  (qsum (map inject_Z cb) - bud
   <= inject_Z (Z.of_nat (length (rows df))) / 2)%Q /\
  (bud - qsum (map inject_Z cb)
   <= inject_Z (Z.of_nat (length (rows df))) / 2)%Q.
Proof.
  unfold coupons_bau, budget. intros _ Hcb Hbud.
  inv_bind Hcb as cl Hcl. injection Hcb as <-.
  rewrite Hcl in Hbud. simpl in Hbud. injection Hbud as <-.
  rewrite <- (traverse_length _ _ _ Hcl). clear Hcl.
  rewrite map_map.
  assert (H : (qsum (map (fun v => inject_Z (py_round (v * (1 # 10)))) cl)
               - qsum cl / 10
               <= inject_Z (Z.of_nat (length cl)) / 2)%Q /\
              (qsum cl / 10
               - qsum (map (fun v => inject_Z (py_round (v * (1 # 10)))) cl)
               <= inject_Z (Z.of_nat (length cl)) / 2)%Q); [|done].
  induction cl as [|v cl IH].
  - simpl. split; by compute.
  - cbn [map qsum foldr length].
    fold (qsum cl).
    fold (qsum (map (fun v => inject_Z (py_round (v * (1 # 10)))) cl)).
    rewrite Nat2Z.inj_succ. unfold Z.succ. rewrite inject_Z_plus.
    change (inject_Z 1) with 1%Q.
    destruct (py_round_near (v * (1 # 10))) as [Hlo Hhi].
    destruct IH as [IH1 IH2].
    set (R := inject_Z (py_round (v * (1 # 10)))) in *.
    set (S1 := qsum (map _ cl)) in *. set (S0 := qsum cl) in *.
    set (N := inject_Z (Z.of_nat (length cl))) in *.
    assert (E1 : ((v + S0) / 10 == v * (1 # 10) + S0 / 10)%Q) by field.
    assert (E2 : ((N + 1) / 2 == N / 2 + (1 # 2))%Q) by field.
    rewrite E1, E2. split; lra.
Qed.

Lemma bau_spend_near_budget_witness :
  exists bud,
    coupons_bau notebook_df = Ok notebook_coupons_bau /\
    budget notebook_df = Ok bud /\
    (bud == 751 # 10)%Q /\
    (qsum (map inject_Z notebook_coupons_bau) == 76)%Q /\
    (qsum (map inject_Z notebook_coupons_bau) - bud
     <= inject_Z (Z.of_nat (length (rows notebook_df))) / 2)%Q /\
    (bud - qsum (map inject_Z notebook_coupons_bau)
     <= inject_Z (Z.of_nat (length (rows notebook_df))) / 2)%Q.
Proof.
  destruct (result_inv (fun bud => bud == 751 # 10)%Q (budget notebook_df))
    as (bud & Hbud & Hb); [vm_compute; reflexivity|].
  assert (Hcb : coupons_bau notebook_df = Ok notebook_coupons_bau)
    by (vm_compute; reflexivity).
  exists bud. split; [exact Hcb|]. split; [exact Hbud|]. split; [exact Hb|].
  split; [reflexivity|].
  apply (bau_spend_near_budget notebook_df notebook_coupons_bau bud);
    [|exact Hcb|exact Hbud].
  apply whole_cltvs_check. vm_compute; reflexivity.
Defined.

(** The BAU columns do not change the return of a policy. *)
Lemma policy_roi_add_bau df df' cps :
  add_bau df = Ok df' -> policy_roi df' cps = policy_roi df cps.
Proof.
  intros Hdf'. destruct (add_bau_rows _ _ Hdf') as [Hlen Hrows].
  unfold policy_roi. f_equal. apply traverse_zip_ext.
  apply Forall2_same_length_lookup. split; [done|].
  intros k r r' Hr Hr' cp. simpl.
  destruct (Hrows k r Hr) as (c0 & p0 & roi0 & Hk). rewrite Hk in Hr'.
  injection Hr' as <-. unfold expected_return.
  rewrite !series_get_set_ne; [done|..]; try done;
    first [ intros E; symmetry in E; revert E; apply prob_coupon_not_roi_bau
          | intros E; symmetry in E; revert E; apply prob_coupon_not_prob_coupon_bau
          | intros E; symmetry in E; revert E; apply prob_coupon_not_coupon_bau ].
Qed.

(** # * Cells 6 to 9: the program *)

Lemma addInPlace_keeps e o k :
  is_Some (terms e !! k) \/ is_Some (terms o !! k) ->
  is_Some (terms (addInPlace e o) !! k).
Proof.
  unfold addInPlace. simpl.
  apply (map_fold_weak_ind
           (fun r m => is_Some (terms e !! k) \/ is_Some (m !! k) ->
                       is_Some (r !! k))).
  - intros [?|Hm]; [done|]. rewrite lookup_empty in Hm. by destruct Hm.
  - intros k0 q m r Hk0 IH Hk. apply addterm_mentions.
    destruct (decide (k = k0)) as [->|Hne]; [by left|]. right. apply IH.
    destruct Hk as [?|Hk]; [by left|]. right.
    by rewrite lookup_insert_ne in Hk.
Qed.

Lemma lpSum_keeps es e k :
  e ∈ es -> is_Some (terms e !! k) -> is_Some (terms (lpSum es) !! k).
Proof.
  unfold lpSum. intros He Hk.
  assert (H : forall e0,
            is_Some (terms e0 !! k) \/ (exists e', e' ∈ es /\ is_Some (terms e' !! k)) ->
            is_Some (terms (foldl addInPlace e0 es) !! k)).
  { clear He Hk e. induction es as [|e es IH]; intros e0 H; simpl.
    - destruct H as [?|(e' & []%elem_of_nil & _)]. done.
    - apply IH. destruct H as [?|(e' & [->|He']%elem_of_cons & Hk)].
      + left. apply addInPlace_keeps. by left.
      + left. apply addInPlace_keeps. by right.
      + right. eauto. }
  apply H. right. eauto.
Qed.

Lemma varExpr_keeps k : is_Some (terms (varExpr k) !! k).
Proof. simpl. rewrite lookup_singleton_eq. eauto. Qed.

Lemma elem_of_expr_vars e k : k ∈ expr_vars e <-> is_Some (terms e !! k).
Proof.
  unfold expr_vars. rewrite list_elem_of_fmap. split.
  - intros ([k' q] & -> & Hin%elem_of_map_to_list). simpl. eauto.
  - intros [q Hq]. exists (k, q). split; [done|]. by apply elem_of_map_to_list.
Qed.

(** What [constraints] holds after cell 8. *)
Lemma formulate_constraints df coupons f :
  formulate df coupons = Ok f ->
  constraints f =
  map (fun i => (i, user_row coupons i)) (index df) ++
  [(-1, budget_row (index df) coupons (b f))].
Proof.
  intros Hf.
  destruct (formulate_spec _ _ _ Hf)
    as (Hu & Hb & Hok & _ & cts & cb & Hcts & Hcb & Hcs & _ & _ & Hpc).
  rewrite Hcs. f_equal.
  - assert (H : forall l, (forall i, i ∈ l -> i ∈ index df) ->
                forall cts', Forall2 (fun i ct =>
                   user_constraint (inputs f)
                     (coupons_per_user (index df) coupons) i = Ok ct) l cts' ->
                zip l cts' = map (fun i => (i, user_row coupons i)) l).
    { intros l Hl cts' HF. induction HF as [|i ct l cts' Hi HF IH]; [done|].
      simpl. rewrite (user_constraint_ok df) in Hi.
      - injection Hi as <-. f_equal. apply IH. intros i' Hi'. apply Hl. by right.
      - apply Hl. left.
      - intros j Hj. apply Hok; [apply Hl; left | done]. }
    by apply H.
  - rewrite (budget_constraint_ok df) in Hcb by done. by injection Hcb as <-.
Qed.

Lemma formulate_problem_constraints df coupons f :
  formulate df coupons = Ok f ->
  p_constraints (opt_model f) =
  map (fun i => (c_name (user_row coupons i), user_row coupons i)) (index df) ++
  [("constraint_b"%string, budget_row (index df) coupons (b f))].
Proof.
  intros Hf.
  destruct (formulate_spec _ _ _ Hf)
    as (_ & _ & _ & _ & cts & cb & _ & _ & _ & _ & _ & Hpc).
  rewrite Hpc, (formulate_constraints _ _ _ Hf), map_app, map_map. done.
Qed.

Lemma user_row_valid coupons i v :
  valid (user_row coupons i) v <->
  (qsum (map (fun j => v (i, j)) coupons)
   == if decide (0 < length coupons)%nat then 1 else 0)%Q.
Proof.
  unfold valid, user_row. cbn [c_sense mkLpConstraint].
  rewrite value_mkLpConstraint, value_lpSum, map_map.
  rewrite (qsum_map_ext _ (fun j => v (i, j))) by
    (intros j _; apply value_varExpr).
  split; intros E; lra.
Qed.

Lemma budget_row_valid users coupons bud v :
  valid (budget_row users coupons bud) v <->
  (assignment_sum users coupons (fun i j => inject_Z j * v (i, j)) <= bud)%Q.
Proof.
  unfold valid, budget_row. cbn [c_sense mkLpConstraint].
  rewrite value_mkLpConstraint, value_lpSum_pairs.
  rewrite (assignment_sum_ext _ _ _ (fun i j => inject_Z j * v (i, j))%Q).
  - split; intros E; lra.
  - intros i j _ _. rewrite value_scale, value_varExpr. reflexivity.
Qed.

(** The variables of the problem are those of the dictionary [x]. *)
Lemma formulate_problem_vars df coupons f k :
  formulate df coupons = Ok f ->
  k ∈ problem_vars (opt_model f) <-> k.1 ∈ index df /\ k.2 ∈ coupons.
Proof.
  intros Hf.
  destruct (formulate_spec _ _ _ Hf)
    as (_ & _ & _ & _ & cts & cb & _ & _ & _ & _ & Hobj & _).
  unfold problem_vars. rewrite elem_of_remove_dups, elem_of_app, Hobj.
  rewrite (formulate_problem_constraints _ _ _ Hf). simpl. split.
  - intros [Hk|Hk].
    + apply elem_of_expr_vars, pairs_mentions in Hk; [done|].
      intros i j k' Hk'. unfold objective_summand in Hk'.
      by apply scale_mentions, scale_mentions, varExpr_mentions in Hk'.
    + apply elem_of_concat in Hk as (l & Hk & Hl).
      apply list_elem_of_fmap in Hl as ([nm ct] & -> & Hin). simpl in Hk.
      apply elem_of_expr_vars in Hk.
      apply elem_of_app in Hin as [Hin|Hin%list_elem_of_singleton].
      * apply list_elem_of_fmap in Hin as (i & [= -> ->] & Hi).
        simpl in Hk.
        apply lpSum_mentions in Hk
          as (e & (j & -> & Hj)%list_elem_of_fmap & ->%varExpr_mentions).
        done.
      * injection Hin as -> ->. simpl in Hk.
        apply pairs_mentions in Hk; [done|].
        intros i' j' k' Hk'.
        by apply scale_mentions, varExpr_mentions in Hk'.
  - intros [Hi Hj]. right. destruct k as [i j]. simpl in *.
    apply elem_of_concat. exists (expr_vars (c_expr (user_row coupons i))).
    split.
    + apply elem_of_expr_vars. simpl.
      apply (lpSum_keeps _ (varExpr (i, j))); [|apply varExpr_keeps].
      apply list_elem_of_fmap. eauto.
    + apply list_elem_of_fmap.
      exists (c_name (user_row coupons i), user_row coupons i).
      split; [done|]. apply elem_of_app. left.
      apply list_elem_of_fmap. eauto.
Qed.

Lemma elem_of_variables xs p kv :
  kv ∈ variables xs p <-> kv.1 ∈ problem_vars p /\ xs !! kv.1 = Some kv.2.
Proof.
  unfold variables. rewrite merge_sort_Permutation, list_elem_of_omap. split.
  - intros (k & Hk & Hkv). destruct (xs !! k) as [xv|] eqn:E; [|done].
    simpl in Hkv. injection Hkv as <-. done.
  - intros [Hk Hx]. exists kv.1. split; [done|]. rewrite Hx. by destruct kv.
Qed.

Lemma formulate_variables df coupons f kv :
  formulate df coupons = Ok f ->
  kv ∈ variables (x (inputs f)) (opt_model f) <->
  (kv.1.1 ∈ index df /\ kv.1.2 ∈ coupons) /\
  kv.2 = mkLpVariable (x_name kv.1.1 kv.1.2) (Some 0%Q) (Some 1%Q) LpInteger.
Proof.
  intros Hf.
  destruct (formulate_spec _ _ _ Hf) as (_ & _ & Hok & _).
  rewrite elem_of_variables, (formulate_problem_vars _ _ _ _ Hf).
  destruct kv as [[i j] xv]. simpl. split.
  - intros [[Hi Hj] Hx]. split; [done|].
    destruct (Hok i j Hi Hj) as (Hx' & _). rewrite Hx' in Hx.
    by injection Hx as <-.
  - intros [[Hi Hj] ->]. split; [done|]. by destruct (Hok i j Hi Hj) as (Hx' & _).
Qed.

(** X9.  On a frame with at least one row, whose rows carry the labels of
    the header, cells 6 to 9 run through exactly when the header has the
    column [cltv] and a column [prob_coupon_j] for every candidate coupon
    [j], that is, when every row has a CLTV and a probability for every
    candidate coupon; when they fail, they fail with [KeyError] (no
    constraint name is ever refused by PuLP). *)
Theorem formulate_succeeds_iff df coupons :
  rows df <> [] -> labelled df ->
  (is_ok (formulate df coupons) <->
   cltv_label ∈ columns df /\
   forall j, j ∈ coupons -> prob_coupon j ∈ columns df) /\
  (is_ok (formulate df coupons) <->
   forall r, r ∈ rows df ->
     is_ok (series_get r cltv_label) /\
     forall j, j ∈ coupons -> is_ok (series_get r (prob_coupon j))) /\
  (forall e, formulate df coupons = Raise e -> e = KeyError).
Proof.
  intros Hne Hlab.
  assert (Hhead : (cltv_label ∈ columns df /\
                   forall j, j ∈ coupons -> prob_coupon j ∈ columns df) <->
                  forall r, r ∈ rows df ->
                    is_ok (series_get r cltv_label) /\
                    forall j, j ∈ coupons -> is_ok (series_get r (prob_coupon j))).
  { split.
    - intros [Hc Hp] r Hr. rewrite !series_get_ok_iff, (Hlab r Hr).
      split; [done|]. intros j Hj. rewrite series_get_ok_iff, (Hlab r Hr). auto.
    - intros Hall. destruct (rows df) as [|r rs] eqn:Er; [done|].
      assert (Hr : r ∈ rows df) by (rewrite Er; left).
      destruct (Hall r) as [Hc Hp]; [left|].
      rewrite series_get_ok_iff, (Hlab r Hr) in Hc. split; [done|].
      intros j Hj. specialize (Hp j Hj).
      by rewrite series_get_ok_iff, (Hlab r Hr) in Hp. }
  rewrite Hhead. clear Hhead Hne Hlab.
  cut ((is_ok (formulate df coupons) <->
        forall r, r ∈ rows df ->
          is_ok (series_get r cltv_label) /\
          forall j, j ∈ coupons -> is_ok (series_get r (prob_coupon j))) /\
       (forall e, formulate df coupons = Raise e -> e = KeyError)).
  { intros [H1 H2]. done. }
  assert (Hrows : forall bud m,
            budget df = Ok bud ->
            matrices df (index df) (coupons_per_user (index df) coupons) = Ok m ->
            forall r, r ∈ rows df ->
              is_ok (series_get r cltv_label) /\
              forall j, j ∈ coupons -> is_ok (series_get r (prob_coupon j))).
  { intros bud m Hbud Hm r (k & Hk)%list_elem_of_lookup_1. split.
    - unfold budget in Hbud. inv_bind Hbud as cl Hcl.
      destruct (traverse_lookup _ _ _ _ _ Hcl Hk) as (q & _ & ->). done.
    - intros j Hj. destruct (matrices_spec _ _ _ _ Hm) as [Hok _].
      destruct (Hok (Z.of_nat k) j) as (_ & _ & p & cl & Hp & _); [|done|].
      { apply elem_of_index. apply lookup_lt_Some in Hk. lia. }
      unfold acceptance in Hp. rewrite (loc_lookup _ _ _ Hk) in Hp.
      simpl in Hp. by rewrite Hp. }
  split.
  - split; [|apply formulate_is_ok].
    intros Hok. destruct (is_ok_Ok _ Hok) as [f Hf].
    unfold formulate in Hf. inv_bind Hf as bud Hbud. inv_bind Hf as m Hm.
    by apply (Hrows bud m).
  - intros e He.
    destruct (budget df) as [bud|e'] eqn:Hbud.
    2:{ unfold formulate in He. rewrite Hbud in He. injection He as <-.
        unfold budget in Hbud.
        apply bind_Raise in Hbud as [Hc|(cl & _ & [=])].
        apply traverse_Raise in Hc as (r & _ & Hr).
        by apply series_get_error in Hr. }
    destruct (matrices df (index df) (coupons_per_user (index df) coupons))
      as [m|e'] eqn:Hm.
    + pose proof (formulate_is_ok df coupons (Hrows bud m eq_refl eq_refl)) as Hok.
      rewrite He in Hok. done.
    + unfold formulate in He. rewrite Hbud in He. simpl in He.
      rewrite Hm in He. injection He as <-.
      apply foldM_Raise in Hm as (i & m0 & _ & Hu).
      unfold matrices_user in Hu.
      apply bind_Raise in Hu as [Hd|(js & _ & Hu)];
        [by apply dict_get_error in Hd|].
      apply foldM_Raise in Hu as (j & m1 & _ & Hc).
      unfold matrices_cell in Hc.
      apply bind_Raise in Hc as [Hc|(ri & _ & Hc)]; [by apply loc_error in Hc|].
      apply bind_Raise in Hc as [Hc|(p & _ & Hc)];
        [by apply series_get_error in Hc|].
      apply bind_Raise in Hc as [Hc|(ri' & _ & Hc)]; [by apply loc_error in Hc|].
      apply bind_Raise in Hc as [Hc|(cl & _ & Hc)];
        [by apply series_get_error in Hc|].
      done.
Qed.

Lemma matrices_cell_acceptance df i j m :
  matrices_cell df i j m =
  (p ← acceptance df i j;
   cl ← cltv_of df i;
   Ok {| x := <[(i, j) := mkLpVariable (x_name i j) (Some 0%Q) (Some 1%Q)
                            LpInteger]> (x m);
         a := <[(i, j) := j]> (a m);
         c := <[(i, j) := p]> (c m);
         d := <[(i, j) := (cl - inject_Z j)%Q]> (d m) |}).
Proof.
  unfold matrices_cell, acceptance, cltv_of.
  destruct (loc df i) as [ri|e]; [|done]. simpl.
  destruct (series_get ri (prob_coupon j)); [|done]. done.
Qed.

Lemma formulate_succeeds_iff_witness :
  is_ok (formulate notebook_df notebook_coupons) /\
  formulate notebook_df [4; 12] = Raise KeyError.
Proof.
  assert (Hne : rows notebook_df <> []) by discriminate.
  assert (Hlab : labelled notebook_df)
    by (apply labelled_check; vm_compute; reflexivity).
  split.
  - apply (proj1 (formulate_succeeds_iff notebook_df notebook_coupons Hne Hlab)).
    split.
    + apply (bool_decide_unpack (cltv_label ∈ columns notebook_df)).
      vm_compute. exact I.
    + intros j Hj. by apply header_elem_of.
  - destruct (formulate notebook_df [4; 12]) as [f|e] eqn:E.
    + exfalso. revert E. vm_compute. discriminate.
    + f_equal.
      apply (proj2 (proj2 (formulate_succeeds_iff notebook_df [4; 12] Hne Hlab))
               e E).
Defined.

(** X18.  The program does not depend on the BAU columns: cells 6 to 9
    build the same dictionaries, constraints, objective and problem from the
    frame before and after cell 4 has added its three columns. *)
Theorem formulate_ignores_bau_columns df df' coupons :
  add_bau df = Ok df' -> formulate df' coupons = formulate df coupons.
Proof.
  intros Hdf'.
  destruct (add_bau_columns _ _ Hdf') as (Hidx & _ & Hkeep & _).
  assert (Hbud : budget df' = budget df).
  { unfold budget. rewrite Hkeep; [done|]. intros H.
    repeat (apply elem_of_cons in H as [H|H]; [vm_compute in H; discriminate|]).
    by apply elem_of_nil in H. }
  assert (Hm : forall users cpu, matrices df' users cpu = matrices df users cpu).
  { intros users cpu. unfold matrices. apply foldM_ext. intros i m _.
    unfold matrices_user. destruct (dict_get cpu i) as [js|e]; [|done]. simpl.
    apply foldM_ext. intros j m' _. rewrite !matrices_cell_acceptance.
    by destruct (add_bau_preserves _ _ i j Hdf') as [-> ->]. }
  unfold formulate. rewrite Hidx, Hbud, Hm. done.
Qed.

Lemma formulate_ignores_bau_columns_witness :
  exists df', add_bau notebook_df = Ok df' /\
    formulate df' notebook_coupons = formulate notebook_df notebook_coupons.
Proof.
  destruct (result_inv (fun _ => True) (add_bau notebook_df))
    as (df' & Hdf' & _); [vm_compute; exact I|].
  exists df'. split; [exact Hdf'|].
  apply (formulate_ignores_bau_columns notebook_df df' notebook_coupons Hdf').
Defined.

(** No variable is listed twice. *)
Lemma variables_NoDup xs p : NoDup (variables xs p).*1.
Proof.
  unfold variables. rewrite merge_sort_Permutation.
  assert (H : forall l, NoDup l ->
            NoDup (omap (fun k => pair k <$> xs !! k) l).*1).
  { induction 1 as [|k l Hk Hl IH]; simpl; [constructor|].
    destruct (xs !! k) as [xv|]; simpl; [|done].
    apply NoDup_cons. split; [|done].
    intros ([k' xv'] & -> & Hin)%list_elem_of_fmap. simpl in Hk.
    apply list_elem_of_omap in Hin as (k'' & Hk'' & E).
    destruct (xs !! k''); [|done]. simpl in E.
    injection E as <- _. done. }
  apply H, NoDup_remove_dups.
Qed.

(** X10.  The size of the program built from a frame of [n] rows and
    pairwise distinct candidate coupons: its constraints are named
    [constraint_0 .. constraint_(n-1)] and [constraint_b], in this order and
    without repetition, [n + 1] in all; [opt_model.variables()] lists one
    variable for each pair of a customer and a candidate coupon, each once,
    [n * len(coupons)] in all. *)
Theorem problem_shape df coupons f :
  formulate df coupons = Ok f -> NoDup coupons ->
  (p_constraints (opt_model f)).*1 =
    map constraint_name (index df) ++ ["constraint_b"%string] /\
  NoDup (p_constraints (opt_model f)).*1 /\
  length (p_constraints (opt_model f)) = S (length (rows df)) /\
  (variables (x (inputs f)) (opt_model f)).*1 ≡ₚ all_pairs (index df) coupons /\
  length (variables (x (inputs f)) (opt_model f)) =
    (length (rows df) * length coupons)%nat.
Proof.
  intros Hf Hnd.
  assert (Hnames : (p_constraints (opt_model f)).*1 =
            map constraint_name (index df) ++ ["constraint_b"%string]).
  { rewrite (formulate_problem_constraints _ _ _ Hf), fmap_app. f_equal.
    rewrite <- list_fmap_compose. apply list_fmap_ext.
    intros k i Hi. simpl. apply lp_name_constraint_name.
    eapply index_nonneg, list_elem_of_lookup_2, Hi. }
  assert (Hperm : (variables (x (inputs f)) (opt_model f)).*1
                  ≡ₚ all_pairs (index df) coupons).
  { apply NoDup_Permutation.
    - apply variables_NoDup.
    - apply all_pairs_NoDup; [apply index_NoDup | done].
    - intros [i j]. rewrite elem_of_all_pairs. split.
      + intros (kv & Hkv & Hin)%list_elem_of_fmap.
        apply (formulate_variables _ _ _ _ Hf) in Hin as [Hin _].
        by rewrite <- Hkv in Hin.
      + intros Hij. apply list_elem_of_fmap.
        exists ((i, j), mkLpVariable (x_name i j) (Some 0%Q) (Some 1%Q) LpInteger).
        split; [done|]. by apply (formulate_variables _ _ _ _ Hf). }
  split; [done|]. split; [|split; [|split; [done|]]].
  - rewrite Hnames. apply NoDup_app. split; [|split].
    + apply NoDup_fmap_2; [|apply index_NoDup].
      intros i j. apply constraint_name_inj.
    + intros nm (i & -> & Hi)%list_elem_of_fmap [E|E%elem_of_nil]%elem_of_cons;
        [|done].
      by apply (constraint_name_not_b i (index_nonneg df i Hi)).
    + apply NoDup_singleton.
  - rewrite <- (length_fmap fst), Hnames, length_app, length_map, index_length.
    simpl. lia.
  - rewrite <- (length_fmap fst), Hperm, all_pairs_length, index_length. done.
Qed.

Lemma problem_shape_witness :
  exists f, formulate notebook_df notebook_coupons = Ok f /\
    (p_constraints (opt_model f)).*1 =
      map constraint_name (index notebook_df) ++ ["constraint_b"%string] /\
    NoDup (p_constraints (opt_model f)).*1 /\
    length (p_constraints (opt_model f)) = 11%nat /\
    (variables (x (inputs f)) (opt_model f)).*1
      ≡ₚ all_pairs (index notebook_df) notebook_coupons /\
    length (variables (x (inputs f)) (opt_model f)) = 80%nat.
Proof.
  destruct (result_inv (fun _ => True)
              (formulate notebook_df notebook_coupons)) as (f & Hf & _);
    [vm_compute; exact I|].
  exists f. split; [exact Hf|].
  apply (problem_shape notebook_df notebook_coupons f Hf notebook_coupons_NoDup).
Defined.

(** # * Policies as 0/1 assignments *)

Lemma validb_valid ct v : validb ct v = true <-> valid ct v.
Proof.
  unfold validb, valid. destruct (c_sense ct).
  - apply Qle_bool_iff.
  - apply Qeq_bool_iff.
  - apply Qle_bool_iff.
Qed.

Lemma feasible_check (f : Formulation) (v : VarKey -> Q) :
  (forall k, (v k == 0)%Q \/ (v k == 1)%Q) ->
  forallb (fun nc => validb (snd nc) v) (p_constraints (opt_model f)) = true ->
  feasible f v.
Proof.
  intros Hbin Hall. split; [auto|].
  intros nc Hnc. apply validb_valid.
  rewrite forallb_forall in Hall. apply Hall. by apply list_elem_of_In.
Qed.

(** The 0/1 assignment of a policy. *)
Lemma indicator_row (js : list Z) (k : nat) (jk j : Z) :
  js !! k = Some jk ->
  indicator js (Z.of_nat k, j) = if decide (j = jk) then 1%Q else 0%Q.
Proof.
  intros Hk. unfold indicator. simpl. rewrite Nat2Z.id, Hk.
  destruct (decide (j = jk)) as [->|Hne].
  - rewrite decide_True; [done | split; [lia | done]].
  - rewrite decide_False; [done|]. intros [_ [= ?]]. done.
Qed.

Lemma indicator_binary js k : (indicator js k == 0)%Q \/ (indicator js k == 1)%Q.
Proof. unfold indicator. destruct (decide _); [by right | by left]. Qed.

Section Policy.

Context (df : DataFrame) (coupons : list Z) (f : Formulation).
Hypothesis Hf : formulate df coupons = Ok f.
Hypothesis Hnd : NoDup coupons.

(** The expected return the notebook computes for row [k] and a candidate
    coupon. *)
Lemma expected_return_cell (k : nat) r (j : Z) :
  rows df !! k = Some r -> j ∈ coupons ->
  expected_return r (inject_Z j) =
  Ok (get0 (acceptance df (Z.of_nat k) j)
      * (get0 (cltv_of df (Z.of_nat k)) - inject_Z j))%Q.
Proof.
  intros Hr Hj.
  destruct (formulate_spec _ _ _ Hf) as (_ & _ & Hok & _).
  destruct (Hok (Z.of_nat k) j) as (_ & _ & p & cl & Hp & Hcl & _); [|done|].
  { apply elem_of_index. apply lookup_lt_Some in Hr. lia. }
  rewrite Hp, Hcl. simpl.
  unfold acceptance in Hp. unfold cltv_of in Hcl.
  rewrite (loc_lookup _ _ _ Hr) in Hp, Hcl. simpl in Hp, Hcl.
  unfold expected_return. rewrite py_int_inject, Hp. simpl. rewrite Hcl. done.
Qed.

(** A policy [js] that gives every customer a candidate coupon: its return,
    and the three sums of the program at the 0/1 assignment [v] that
    encodes it. *)
Lemma policy_sums (js : list Z) (v : VarKey -> Q) :
  length js = length (rows df) -> Forall (fun j => j ∈ coupons) js ->
  (forall i j, i ∈ index df -> j ∈ coupons ->
               (v (i, j) == indicator js (i, j))%Q) ->
  (forall i, i ∈ index df ->
     (qsum (map (fun j => v (i, j)) coupons) == 1)%Q) /\
  (assignment_sum (index df) coupons (fun i j => inject_Z j * v (i, j))
   == qsum (map inject_Z js))%Q /\
  exists r, policy_roi df (map inject_Z js) = Ok r /\
    (r == assignment_sum (index df) coupons
            (fun i j => v (i, j) * get0 (acceptance df i j)
                        * (get0 (cltv_of df i) - inject_Z j)))%Q.
Proof.
  intros Hlen Hjs Hv.
  assert (Hrow : forall (k : nat) jk (g : Z -> Q), js !! k = Some jk ->
            (qsum (map (fun j => v (Z.of_nat k, j) * g j) coupons) == g jk)%Q).
  { intros k jk g Hk. apply onehot_sum; [done | |].
    - eapply Forall_lookup_1 in Hjs; [|exact Hk]. done.
    - intros j Hj. rewrite Hv; [|apply elem_of_index|done].
      + by rewrite (indicator_row _ _ _ _ Hk).
      + apply lookup_lt_Some in Hk. lia. }
  split; [|split].
  - intros i Hi. apply elem_of_index in Hi.
    destruct (lookup_lt_is_Some_2 js (Z.to_nat i)) as [jk Hk]; [lia|].
    rewrite <- (Z2Nat.id i) by lia.
    etransitivity; [|apply (Hrow _ jk (fun _ => 1%Q) Hk)].
    apply qsum_map_ext. intros j _. ring.
  - symmetry. unfold assignment_sum. apply qsum_index.
    + by rewrite length_map.
    + intros k q Hq. rewrite list_lookup_fmap in Hq.
      destruct (js !! k) as [jk|] eqn:Hk; [|done]. injection Hq as <-.
      symmetry. etransitivity; [|apply (Hrow _ jk inject_Z Hk)].
      apply qsum_map_ext. intros j _. ring.
  - unfold policy_roi.
    destruct (is_ok_Ok (traverse (fun xc => expected_return xc.1 xc.2)
                          (zip (rows df) (map inject_Z js)))) as [rs Hrs].
    { apply traverse_is_ok. intros [r cp] (k & Hk)%list_elem_of_lookup_1.
      apply lookup_zip_with_Some in Hk as (r' & cp' & [= <- <-] & Hr & Hcp).
      rewrite list_lookup_fmap in Hcp.
      destruct (js !! k) as [jk|] eqn:Hjk; [|done]. injection Hcp as <-.
      simpl. rewrite (expected_return_cell k); [done | done |].
      eapply Forall_lookup_1 in Hjs; [|exact Hjk]. done. }
    rewrite Hrs. simpl. eexists. split; [done|].
    unfold assignment_sum. apply qsum_index.
    + rewrite (traverse_length _ _ _ Hrs), length_zip_with, length_map. lia.
    + intros k q Hq.
      destruct (lookup_lt_is_Some_2 (rows df) k) as [r Hr].
      { apply lookup_lt_Some in Hq.
        rewrite (traverse_length _ _ _ Hrs), length_zip_with in Hq. lia. }
      destruct (lookup_lt_is_Some_2 js k) as [jk Hjk].
      { apply lookup_lt_Some in Hr. lia. }
      destruct (traverse_lookup _ _ _ k (r, inject_Z jk) Hrs) as (q' & Hq' & He).
      { apply lookup_zip_with_Some. exists r, (inject_Z jk).
        split; [done|]. split; [done|]. by rewrite list_lookup_fmap, Hjk. }
      rewrite Hq in Hq'. injection Hq' as <-. simpl in He.
      rewrite (expected_return_cell k) in He; [|done|].
      2:{ eapply Forall_lookup_1 in Hjs; [|exact Hjk]. done. }
      injection He as <-.
      symmetry. etransitivity;
        [|apply (Hrow _ jk
                    (fun j => get0 (acceptance df (Z.of_nat k) j)
                              * (get0 (cltv_of df (Z.of_nat k)) - inject_Z j))%Q
                    Hjk)].
      apply qsum_map_ext. intros j _. ring.
Qed.

Lemma objective_value (v : VarKey -> Q) :
  exists obj, objective (opt_model f) = Some obj /\
    (value obj v ==
     assignment_sum (index df) coupons
       (fun i j => v (i, j) * get0 (acceptance df i j)
                   * (get0 (cltv_of df i) - inject_Z j)))%Q.
Proof.
  destruct (formulate_spec _ _ _ Hf)
    as (_ & _ & _ & _ & cts & cb & _ & _ & _ & _ & Hobj & _).
  eexists. split; [exact Hobj|].
  rewrite value_lpSum_pairs. apply assignment_sum_ext.
  intros i j _ _. apply value_objective_summand.
Qed.

(** In a feasible solution every customer has exactly one variable at 1. *)
Lemma feasible_one (v : VarKey -> Q) i :
  coupons <> [] -> feasible f v -> i ∈ index df ->
  exists j, j ∈ coupons /\ (v (i, j) == 1)%Q /\
    forall j', j' ∈ coupons -> j' <> j -> (v (i, j') == 0)%Q.
Proof.
  intros Hne [Hbin Hval] Hi.
  destruct (formulate_spec _ _ _ Hf) as (_ & _ & Hok & _).
  apply (binary_sum_one (fun j => v (i, j))); [done | |].
  - intros j Hj. apply Hbin. destruct (Hok i j Hi Hj) as (Hx & _).
    by rewrite Hx.
  - assert (Hv : valid (user_row coupons i) v).
    { apply (Hval (c_name (user_row coupons i), user_row coupons i)).
      rewrite (formulate_problem_constraints _ _ _ Hf).
      apply elem_of_app. left. apply list_elem_of_fmap. eauto. }
    apply user_row_valid in Hv. rewrite decide_True in Hv; [done|].
    destruct coupons; simpl; [done | lia].
Qed.

End Policy.

(** The objective with the single variable [x[(i, j)]] at 1: the
    coefficient of that variable, the acceptance probability of [j] for [i]
    times (CLTV of [i] minus [j]). *)
Lemma objective_only df coupons f i j :
  formulate df coupons = Ok f -> NoDup coupons ->
  i ∈ index df -> j ∈ coupons ->
  exists obj, objective (opt_model f) = Some obj /\
    (value obj (only (i, j))
     == get0 (acceptance df i j) * (get0 (cltv_of df i) - inject_Z j))%Q.
Proof.
  intros Hf Hnd Hi Hj.
  destruct (objective_value df coupons f Hf (only (i, j))) as (obj & Hobj & Hval).
  exists obj. split; [done|]. rewrite Hval.
  rewrite <- (assignment_sum_only (index df) coupons
                (fun i' j' => get0 (acceptance df i' j')
                              * (get0 (cltv_of df i') - inject_Z j'))%Q i j
                (index_NoDup df) Hnd Hi Hj).
  apply assignment_sum_ext. intros i' j' _ _. ring.
Qed.

(** X11.  The program has a feasible 0/1 solution exactly when giving
    every customer the cheapest candidate coupon [m] fits the budget:
    [n * m <= b]. *)
Theorem feasible_iff_cheapest_within_budget df coupons f m :
  formulate df coupons = Ok f -> NoDup coupons ->
  m ∈ coupons -> (forall j, j ∈ coupons -> m <= j) ->
  (exists v, feasible f v) <->
  (inject_Z (Z.of_nat (length (rows df))) * inject_Z m <= b f)%Q.
Proof.
  intros Hf Hnd Hm Hmin.
  destruct (formulate_spec _ _ _ Hf) as (_ & _ & Hok & Hdom & _).
  assert (Hne : coupons <> []) by (intros ->; by apply elem_of_nil in Hm).
  split.
  - intros [v Hfeas]. pose proof Hfeas as [Hbin Hval].
    assert (Hb : valid (budget_row (index df) coupons (b f)) v).
    { apply (Hval ("constraint_b"%string, budget_row (index df) coupons (b f))).
      rewrite (formulate_problem_constraints _ _ _ Hf).
      apply elem_of_app. right. left. }
    apply budget_row_valid in Hb.
    eapply Qle_trans; [|exact Hb]. unfold assignment_sum.
    rewrite <- index_length, <- (qsum_const (inject_Z m) (index df)).
    apply qsum_le. intros i Hi.
    destruct (feasible_one df coupons f Hf Hnd v i Hne Hfeas Hi)
      as (j1 & Hj1 & H1 & H0).
    assert (Hsum : (qsum (map (fun j => v (i, j)) coupons) == 1)%Q).
    { apply (binary_sum_one (fun j => v (i, j))); [done| |eauto].
      intros j Hj. apply Hbin. destruct (Hok i j Hi Hj) as (Hx & _).
      by rewrite Hx. }
    assert (Hle : (qsum (map (fun j => inject_Z m * v (i, j)) coupons)
                   <= qsum (map (fun j => inject_Z j * v (i, j)) coupons))%Q).
    { apply qsum_le. intros j Hj.
      assert (0 <= v (i, j))%Q.
      { destruct (Hbin (i, j)) as [E|E]; [|rewrite E; lra..].
        destruct (Hok i j Hi Hj) as (Hx & _). by rewrite Hx. }
      assert (inject_Z m <= inject_Z j)%Q by (rewrite <- Zle_Qle; auto).
      nra. }
    rewrite qsum_scale, Hsum in Hle. lra.
  - intros Hb.
    set (js := replicate (length (rows df)) m).
    destruct (policy_sums df coupons f Hf Hnd js (indicator js))
      as (Hone & Hspend & _).
    { apply length_replicate. }
    { apply Forall_forall. by intros j [-> _]%elem_of_replicate. }
    { intros; reflexivity. }
    exists (indicator js). split.
    + intros k _. apply indicator_binary.
    + rewrite (formulate_problem_constraints _ _ _ Hf).
      intros nc [Hnc|Hnc%list_elem_of_singleton]%elem_of_app.
      * apply list_elem_of_fmap in Hnc as (i & -> & Hi). simpl.
        apply user_row_valid. rewrite (Hone i Hi).
        rewrite decide_True; [done|]. destruct coupons; simpl; [done | lia].
      * subst nc. simpl. rewrite budget_row_valid, Hspend.
        unfold js. rewrite fmap_replicate.
        assert (E : forall n q, (qsum (replicate n q)
                                 == inject_Z (Z.of_nat n) * q)%Q).
        { intros n q. induction n as [|n IH]; [simpl; ring|].
          cbn [replicate qsum foldr]. fold (qsum (replicate n q)).
          rewrite IH, Nat2Z.inj_succ. unfold Z.succ.
          rewrite inject_Z_plus. ring. }
        by rewrite E.
Qed.

Lemma feasible_iff_cheapest_within_budget_witness :
  (exists f, formulate notebook_df notebook_coupons = Ok f /\
     (b f == 751 # 10)%Q /\ exists v, feasible f v) /\
  (exists f, formulate poor_customers notebook_coupons = Ok f /\
     (b f == 73 # 10)%Q /\ ~ exists v, feasible f v).
Proof.
  split.
  - destruct (result_inv (fun f => b f == 751 # 10)%Q
                (formulate notebook_df notebook_coupons)) as (f & Hf & Hb);
      [vm_compute; reflexivity|].
    exists f. split; [exact Hf|]. split; [exact Hb|].
    apply (feasible_iff_cheapest_within_budget notebook_df notebook_coupons f 4
             Hf notebook_coupons_NoDup).
    + apply elem_of_notebook_coupons. lia.
    + intros j ?%elem_of_notebook_coupons. lia.
    + rewrite Hb. vm_compute. discriminate.
  - destruct (result_inv (fun f => b f == 73 # 10)%Q
                (formulate poor_customers notebook_coupons)) as (f & Hf & Hb);
      [vm_compute; reflexivity|].
    exists f. split; [exact Hf|]. split; [exact Hb|]. intros Hex.
    apply (feasible_iff_cheapest_within_budget poor_customers notebook_coupons
             f 4 Hf notebook_coupons_NoDup) in Hex.
    + rewrite Hb in Hex. vm_compute in Hex. by apply Hex.
    + apply elem_of_notebook_coupons. lia.
    + intros j ?%elem_of_notebook_coupons. lia.
Defined.

(** X12.  The BAU policy inside the program of the notebook (cells 4 to 9
    in sequence), on a frame with at least one customer and whole-number
    CLTVs.  When every BAU coupon is a candidate coupon, the 0/1 assignment
    that encodes the BAU policy satisfies every one-coupon constraint, and
    satisfies the budget constraint exactly when the BAU spend is at most
    [b].  The [roi_bau] of each customer is the coefficient the objective
    has for the variable of that customer's BAU coupon (the objective
    evaluated with that variable alone at 1): [ROI_BAU] and the objective at
    the BAU assignment add up the same numbers. *)
Theorem bau_in_search_space df coupons cb f :
  rows df <> [] -> whole_cltvs df ->
  notebook df = Ok f -> coupons_of df = Ok coupons ->
  coupons_bau df = Ok cb ->
  NoDup coupons -> Forall (fun j => j ∈ coupons) cb ->
  (forall nc, nc ∈ p_constraints (opt_model f) ->
     c_sense nc.2 = LpConstraintEQ -> valid nc.2 (indicator cb)) /\
  (forall nc, nc ∈ p_constraints (opt_model f) ->
     c_sense nc.2 = LpConstraintLE ->
     (valid nc.2 (indicator cb) <-> (qsum (map inject_Z cb) <= b f)%Q)) /\
  exists obj df' roi,
    objective (opt_model f) = Some obj /\
    add_bau df = Ok df' /\
    column df' roi_bau_label = Ok roi /\
    Forall2 (fun ij q => (q == value obj (only ij))%Q) (zip (index df) cb) roi.
Proof.
  unfold notebook. intros _ _ H Hc Hcb Hnd Hin. rewrite Hc in H. simpl in H.
  inv_bind H as df' Hdf'. rename H into Hf.
  destruct (add_bau_rows _ _ Hdf') as [Hlen _].
  destruct (policy_sums df' coupons f Hf Hnd cb (indicator cb))
    as (Hone & Hspend & _).
  { by rewrite (coupons_bau_length _ _ Hcb). }
  { done. }
  { intros; reflexivity. }
  rewrite (formulate_problem_constraints _ _ _ Hf).
  split; [|split].
  - intros nc [Hnc|Hnc%list_elem_of_singleton]%elem_of_app Hs.
    + apply list_elem_of_fmap in Hnc as (i & -> & Hi). simpl.
      apply user_row_valid. rewrite (Hone i Hi).
      rewrite decide_True; [done|].
      apply elem_of_index in Hi. rewrite Hlen in Hi.
      rewrite <- (coupons_bau_length _ _ Hcb) in Hi.
      destruct cb as [|c0 cb]; [simpl in Hi; lia|].
      apply Forall_cons in Hin as [Hc0 _].
      destruct coupons; [by apply elem_of_nil in Hc0 | simpl; lia].
    + subst nc. done.
  - intros nc [Hnc|Hnc%list_elem_of_singleton]%elem_of_app Hs.
    + apply list_elem_of_fmap in Hnc as (i & -> & Hi). done.
    + subst nc. simpl. rewrite budget_row_valid, Hspend. done.
  - destruct (add_bau_returns _ _ _ Hdf' Hcb) as (qs & Hroi & Hqs).
    destruct (objective_value df' coupons f Hf (fun _ => 0%Q))
      as (obj & Hobj & _).
    exists obj, df', qs. split; [done|]. split; [done|]. split; [done|].
    apply Forall2_same_length_lookup. split.
    { rewrite (traverse_length _ _ _ Hqs), !length_zip_with, length_map,
        index_length. done. }
    intros k [i j] q Hk Hq.
    apply lookup_zip_with_Some in Hk as (i' & j' & [= <- <-] & Hi & Hj).
    pose proof (lookup_lt_Some _ _ _ Hi) as Hlt. rewrite index_length in Hlt.
    rewrite index_lookup in Hi by done. injection Hi as <-.
    destruct (lookup_lt_is_Some_2 (rows df) k) as [r Hr]; [done|].
    destruct (traverse_lookup _ _ _ k (r, inject_Z j) Hqs) as (q' & Hq' & He).
    { apply lookup_zip_with_Some. exists r, (inject_Z j).
      split; [done|]. split; [done|]. by rewrite list_lookup_fmap, Hj. }
    rewrite Hq in Hq'. injection Hq' as <-. simpl in He.
    apply expected_return_Ok in He as (p & v & Hp & Hv & ->).
    rewrite py_int_inject in Hp.
    assert (Hk' : Z.of_nat k ∈ index df').
    { apply elem_of_index. lia. }
    assert (Hjc : j ∈ coupons).
    { eapply Forall_lookup_1 in Hin; [|exact Hj]. done. }
    destruct (objective_only df' coupons f (Z.of_nat k) j Hf Hnd Hk' Hjc)
      as (obj' & Hobj' & Hval).
    rewrite Hobj in Hobj'. injection Hobj' as <-. rewrite Hval.
    destruct (add_bau_preserves _ _ (Z.of_nat k) j Hdf') as [-> ->].
    unfold acceptance, cltv_of. rewrite (loc_lookup _ _ _ Hr). simpl.
    rewrite Hp, Hv. simpl. reflexivity.
Qed.

(** On the data of the notebook the BAU policy spends 76, more than the
    budget of 75.1, and the first customer (CLTV 98, coupon 10, acceptance
    0.42) has [roi_bau = 36.96]. *)
Lemma bau_in_search_space_witness :
  exists f,
    notebook notebook_df = Ok f /\
    (qsum (map inject_Z notebook_coupons_bau) == 76)%Q /\
    (b f == 751 # 10)%Q /\
    (forall nc, nc ∈ p_constraints (opt_model f) ->
       c_sense nc.2 = LpConstraintEQ ->
       valid nc.2 (indicator notebook_coupons_bau)) /\
    (forall nc, nc ∈ p_constraints (opt_model f) ->
       c_sense nc.2 = LpConstraintLE ->
       ~ valid nc.2 (indicator notebook_coupons_bau)) /\
    exists obj df' roi,
      (objective (opt_model f) = Some obj /\
       add_bau notebook_df = Ok df' /\
       column df' roi_bau_label = Ok roi /\
       Forall2 (fun ij q => (q == value obj (only ij))%Q)
         (zip (index notebook_df) notebook_coupons_bau) roi) /\
      exists q, roi !! 0%nat = Some q /\ (q == 3696 # 100)%Q /\
        (q == value obj (only (0%Z, 10%Z)))%Q.
Proof.
  destruct (result_inv (fun f => b f == 751 # 10)%Q (notebook notebook_df))
    as (f & Hf & Hb); [vm_compute; reflexivity|].
  destruct (result_inv
              (fun roi => match roi !! 0%nat with
                          | Some q => (q == 3696 # 100)%Q
                          | None => False
                          end)
              (d ← add_bau notebook_df; column d roi_bau_label))
    as (roi0 & Hroi0 & Hq0); [vm_compute; reflexivity|].
  exists f. split; [exact Hf|]. split; [reflexivity|]. split; [exact Hb|].
  destruct (bau_in_search_space notebook_df notebook_coupons
              notebook_coupons_bau f) as (Heq & Hle & Hobj).
  - discriminate.
  - apply whole_cltvs_check. vm_compute; reflexivity.
  - exact Hf.
  - vm_compute; reflexivity.
  - vm_compute; reflexivity.
  - exact notebook_coupons_NoDup.
  - apply (bool_decide_unpack
             (Forall (fun j => j ∈ notebook_coupons) notebook_coupons_bau)).
    vm_compute. exact I.
  - split; [exact Heq|]. split.
    { intros nc Hnc Hs Hv. apply (Hle nc Hnc Hs) in Hv.
      rewrite Hb in Hv. vm_compute in Hv. by apply Hv. }
    destruct Hobj as (obj & df' & roi & Ho & Hdf' & Hroi & HF).
    exists obj, df', roi. split; [exact (conj Ho (conj Hdf' (conj Hroi HF)))|].
    rewrite Hdf' in Hroi0. change (column df' roi_bau_label = Ok roi0) in Hroi0.
    rewrite Hroi in Hroi0. injection Hroi0 as <-.
    destruct (roi !! 0%nat) as [q|] eqn:Eq; [|destruct Hq0].
    exists q. split; [reflexivity|]. split; [exact Hq0|].
    apply (Forall2_lookup_lr _ _ _ 0%nat (0, 10) q HF); [reflexivity | exact Eq].
Defined.

(** # * Cell 10: the names of the variables *)

Lemma split_go_plain (sep : ascii) (s acc : string) :
  str_Forall (fun a0 => a0 <> sep) s -> split_go sep s acc = [acc +:+ s].
Proof.
  revert acc. induction s as [|a0 s IH]; intros acc; simpl.
  - intros _. by rewrite append_empty_r.
  - intros [Ha Hs]. rewrite decide_False by done. rewrite IH by done.
    by rewrite append_snoc.
Qed.

Lemma split_go_field (sep : ascii) (s r acc : string) :
  str_Forall (fun a0 => a0 <> sep) s ->
  split_go sep (s +:+ String sep r) acc = (acc +:+ s) :: split_go sep r EmptyString.
Proof.
  revert acc. induction s as [|a0 s IH]; intros acc.
  - intros _. change (EmptyString +:+ String sep r) with (String sep r).
    simpl. rewrite decide_True by done. by rewrite append_empty_r.
  - intros [Ha Hs]. rewrite append_cons. simpl.
    rewrite decide_False by done. rewrite IH by done.
    by rewrite append_snoc.
Qed.

Lemma split_go_nonempty (sep : ascii) (s acc : string) :
  split_go sep s acc <> [].
Proof.
  revert acc. induction s as [|a0 s IH]; intros acc; simpl; [done|].
  destruct (decide (a0 = sep)); [done | apply IH].
Qed.

Lemma split_go_last (sep : ascii) (s acc : string) :
  last (split_go sep s acc) = Some (last_field sep s acc).
Proof.
  revert acc. induction s as [|a0 s IH]; intros acc; simpl; [done|].
  destruct (decide (a0 = sep)); [|apply IH].
  rewrite <- IH. pose proof (split_go_nonempty sep s EmptyString).
  by destruct (split_go sep s EmptyString).
Qed.

Lemma lp_name_app (s r : string) : lp_name (s +:+ r) = lp_name s +:+ lp_name r.
Proof.
  induction s as [|a0 s IH]; [done|]. rewrite append_cons. simpl.
  by rewrite IH, append_cons.
Qed.

Lemma digits_no_underscore (s : string) :
  str_Forall is_digit s -> str_Forall (fun a0 => a0 <> "_"%char) s.
Proof.
  apply str_Forall_impl. intros a0 Ha. by apply (digit_not a0 "_").
Qed.

Lemma digits_legal (s : string) :
  str_Forall is_digit s -> str_Forall (fun a0 => illegal_char a0 = false) s.
Proof. apply str_Forall_impl, digit_legal. Qed.

(** The name PuLP keeps for [x[(i, j)]]. *)
Lemma lp_name_x_name (i j : Z) :
  0 <= i ->
  lp_name (x_name i j) =
  if decide (0 <= j) then x_name i j
  else "x_" +:+ pretty i +:+ "__" +:+ pretty (- j).
Proof.
  intros Hi. unfold x_name. rewrite !lp_name_app.
  rewrite (lp_name_plain (pretty i)) by by apply digits_legal, pretty_nonneg_digits.
  change (lp_name "x_") with "x_"%string. change (lp_name "_") with "_"%string.
  destruct (decide (0 <= j)) as [Hj|Hj].
  - by rewrite (lp_name_plain (pretty j))
      by by apply digits_legal, pretty_nonneg_digits.
  - destruct j as [|p|p]; [lia|lia|].
    change (pretty (Z.neg p)) with ("-" +:+ pretty (N.pos p)).
    change (- Z.neg p) with (Z.pos p).
    change (pretty (Z.pos p)) with (pretty (N.pos p)).
    rewrite lp_name_app.
    rewrite (lp_name_plain (pretty (N.pos p)))
      by apply digits_legal, pretty_pos_digits.
    change (lp_name "-") with "_"%string.
    do 2 f_equal.
Qed.

Lemma split_x_name (i j : Z) :
  0 <= i -> 0 <= j ->
  split "_" (x_name i j) = ["x"%string; pretty i; pretty j].
Proof.
  intros Hi Hj. unfold split, x_name.
  change ("x_" +:+ pretty i +:+ "_" +:+ pretty j)
    with ("x" +:+ String "_" (pretty i +:+ String "_" (pretty j))).
  rewrite split_go_field by (simpl; done).
  rewrite split_go_field by by apply digits_no_underscore, pretty_nonneg_digits.
  rewrite split_go_plain by by apply digits_no_underscore, pretty_nonneg_digits.
  done.
Qed.

Lemma split_x_name_neg (i : Z) (p : positive) :
  0 <= i ->
  split "_" ("x_" +:+ pretty i +:+ "__" +:+ pretty (Z.pos p)) =
  ["x"%string; pretty i; EmptyString; pretty (Z.pos p)].
Proof.
  intros Hi. unfold split.
  change ("x_" +:+ pretty i +:+ "__" +:+ pretty (Z.pos p))
    with ("x" +:+ String "_" (pretty i +:+ String "_"
            (EmptyString +:+ String "_" (pretty (Z.pos p))))).
  rewrite split_go_field by (simpl; done).
  rewrite split_go_field by by apply digits_no_underscore, pretty_nonneg_digits.
  rewrite split_go_field by done.
  rewrite split_go_plain by by apply digits_no_underscore, pretty_nonneg_digits.
  done.
Qed.

Lemma parse_x_name (i j : Z) :
  0 <= i -> 0 <= j -> parse_name (lp_name (x_name i j)) = Ok (i, j).
Proof.
  intros Hi Hj. rewrite lp_name_x_name, decide_True by done.
  unfold parse_name. rewrite split_x_name by done.
  change (getitem ["x"%string; pretty i; pretty j] 1) with (Ok (pretty i)).
  change (getitem ["x"%string; pretty i; pretty j] 2) with (Ok (pretty j)).
  simpl. rewrite !int_of_str_pretty. done.
Qed.

Lemma parse_x_name_neg (i j : Z) :
  0 <= i -> j < 0 -> parse_name (lp_name (x_name i j)) = Raise ValueError.
Proof.
  intros Hi Hj. rewrite lp_name_x_name, decide_False by lia.
  destruct j as [|p|p]; [lia|lia|]. change (- Z.neg p) with (Z.pos p).
  unfold parse_name. rewrite split_x_name_neg by done.
  change (getitem ["x"%string; pretty i; EmptyString; pretty (Z.pos p)] 1)
    with (Ok (pretty i)).
  change (getitem ["x"%string; pretty i; EmptyString; pretty (Z.pos p)] 2)
    with (@Ok string EmptyString).
  simpl. rewrite int_of_str_pretty. done.
Qed.

(** X13.  Cell 10 recovers the key of a variable from its name.  For a row
    label [i >= 0]: when the coupon [j] is not negative the name PuLP keeps
    is ["x_i_j"] and [int(name.split('_')[1]), int(name.split('_')[2])] is
    [(i, j)]; when [j] is negative its sign has become an underscore, the
    third field is empty and [int] raises [ValueError]. *)
Theorem variable_name_round_trip (i j : Z) :
  0 <= i ->
  let name :=
    var_name (mkLpVariable (x_name i j) (Some 0%Q) (Some 1%Q) LpInteger) in
  (0 <= j -> name = x_name i j /\ parse_name name = Ok (i, j)) /\
  (j < 0 -> parse_name name = Raise ValueError).
Proof.
  intros Hi name. subst name. cbn [mkLpVariable var_name]. split.
  - intros Hj. split; [|by apply parse_x_name].
    by rewrite lp_name_x_name, decide_True.
  - intros Hj. by apply parse_x_name_neg.
Qed.

Lemma variable_name_round_trip_witness :
  0 <= 3 /\
  parse_name
    (var_name (mkLpVariable (x_name 3 11) (Some 0%Q) (Some 1%Q) LpInteger))
  = Ok (3, 11) /\
  parse_name
    (var_name (mkLpVariable (x_name 3 (-4)) (Some 0%Q) (Some 1%Q) LpInteger))
  = Raise ValueError.
Proof.
  assert (H3 : 0 <= 3) by lia. split; [exact H3|]. split.
  - apply (proj1 (variable_name_round_trip 3 11 H3)). lia.
  - apply (proj2 (variable_name_round_trip 3 (-4) H3)). lia.
Defined.

(** The name of the variable of [(i, j)] determines [(i, j)]. *)
Lemma lp_name_x_name_inj (i j i' j' : Z) :
  0 <= i -> 0 <= i' ->
  lp_name (x_name i j) = lp_name (x_name i' j') -> i = i' /\ j = j'.
Proof.
  intros Hi Hi' E. apply (f_equal (split "_")) in E.
  rewrite !lp_name_x_name in E by done.
  destruct (decide (0 <= j)) as [Hj|Hj], (decide (0 <= j')) as [Hj'|Hj'].
  - rewrite !split_x_name in E by done. injection E as E1 E2.
    split; by apply (inj pretty).
  - destruct j' as [|p'|p']; [lia|lia|]. change (- Z.neg p') with (Z.pos p') in E.
    rewrite split_x_name, split_x_name_neg in E by done. discriminate.
  - destruct j as [|p|p]; [lia|lia|]. change (- Z.neg p) with (Z.pos p) in E.
    rewrite split_x_name, split_x_name_neg in E by done. discriminate.
  - destruct j as [|p|p]; [lia|lia|]. destruct j' as [|p'|p']; [lia|lia|].
    change (- Z.neg p) with (Z.pos p) in E.
    change (- Z.neg p') with (Z.pos p') in E.
    rewrite !split_x_name_neg in E by done. injection E as E1 E2.
    apply (inj pretty) in E1, E2. split; [done|]. by injection E2 as ->.
Qed.

(** X17.  No two variables of the problem have the same name, whatever
    the candidate coupons (a negative coupon included): the name of
    [x[(i, j)]] determines [(i, j)]. *)
Theorem variable_names_distinct df coupons f :
  formulate df coupons = Ok f ->
  NoDup (map (fun var => var_name (snd var))
           (variables (x (inputs f)) (opt_model f))).
Proof.
  intros Hf. apply NoDup_fmap_2_strong.
  - intros [[i j] xv] [[i' j'] xv'] Hin Hin' E. simpl in E.
    apply (formulate_variables _ _ _ _ Hf) in Hin as [[Hi _] Hxv].
    apply (formulate_variables _ _ _ _ Hf) in Hin' as [[Hi' _] Hxv'].
    simpl in *. subst xv xv'. simpl in E.
    apply lp_name_x_name_inj in E as [-> ->];
      [done | by apply (index_nonneg df) | by apply (index_nonneg df)].
  - eapply NoDup_fmap_1. apply variables_NoDup.
Qed.

Lemma variable_names_distinct_witness :
  exists f, formulate notebook_df notebook_coupons = Ok f /\
    NoDup (map (fun var => var_name (snd var))
             (variables (x (inputs f)) (opt_model f))).
Proof.
  destruct (result_inv (fun _ => True)
              (formulate notebook_df notebook_coupons)) as (f & Hf & _);
    [vm_compute; exact I|].
  exists f. split; [exact Hf|].
  apply (variable_names_distinct notebook_df notebook_coupons f Hf).
Defined.

(** # * Cells 10 to 12: the coupons read back and their return *)

(** The column after the loop of cell 10 has run over the keys [l]. *)
Lemma marks_spec (varValue : VarKey -> option Q) (l : list VarKey) col :
  NoDup col.*1 -> (forall k, k ∈ l -> k.1 ∈ col.*1) ->
  (foldl (mark varValue) col l).*1 = col.*1 /\
  forall i o, (i, o) ∈ foldl (mark varValue) col l ->
    ((i, o) ∈ col /\ forall j, (i, j) ∈ l -> is_one (varValue (i, j)) = false) \/
    (exists j, (i, j) ∈ l /\ is_one (varValue (i, j)) = true /\
               o = Some (inject_Z j)).
Proof.
  revert col. induction l as [|k l IH]; intros col Hnd Hl; simpl.
  - split; [done|]. intros i o Hin. left. split; [done|].
    by intros j ?%elem_of_nil.
  - destruct k as [ki kj].
    assert (Hkeys : (mark varValue col (ki, kj)).*1 = col.*1).
    { unfold mark. destruct (is_one _); [|done].
      apply odict_set_keys, Hl. left. }
    destruct (IH (mark varValue col (ki, kj))) as [IH1 IH2].
    { by rewrite Hkeys. }
    { intros k' Hk'. rewrite Hkeys. apply Hl. by right. }
    split; [by rewrite IH1|]. intros i o Hin.
    destruct (IH2 i o Hin) as [[Hc Hnone]|(j & Hj & H1 & ->)].
    + unfold mark in Hc. destruct (is_one (varValue (ki, kj))) eqn:Ek.
      * simpl in Hc.
        apply elem_of_odict_set in Hc as [[-> ->]|[Hne Hc]]; [| |done].
        -- right. exists kj. split; [left | done].
        -- left. split; [done|].
           intros j [[= -> ->]|Hj]%elem_of_cons; [done | by apply Hnone].
      * left. split; [done|].
        intros j [[= -> ->]|Hj]%elem_of_cons; [done | by apply Hnone].
    + right. exists j. split; [by right | done].
Qed.

(** The loop of cell 10 on variables whose names read back as their keys. *)
Lemma read_vars_marks varValue (l : list (VarKey * LpVariable)) col :
  (forall kv, kv ∈ l -> is_one (varValue kv.1) = true ->
              parse_name (var_name kv.2) = Ok kv.1) ->
  foldM (read_var varValue) l col = Ok (foldl (mark varValue) col l.*1).
Proof.
  revert col. induction l as [|kv l IH]; intros col Hl; [done|].
  change (foldM (read_var varValue) (kv :: l) col)
    with (s' ← read_var varValue kv col; foldM (read_var varValue) l s').
  assert (E : read_var varValue kv col = Ok (mark varValue col kv.1)).
  { unfold read_var, mark. destruct (is_one (varValue kv.1)) eqn:E1; [|done].
    rewrite Hl; [done | left | done]. }
  rewrite E. simpl. apply IH. intros kv' Hkv'. apply Hl. by right.
Qed.

Lemma index_keys (df : DataFrame) :
  (map (fun i : Z => (i, @None Q)) (index df)).*1 = index df.
Proof.
  induction (index df) as [|i l IH]; [done|]. simpl. f_equal. exact IH.
Qed.

(** Cell 10 on any solver result, when no candidate coupon is negative:
    the loop runs through, the column keeps the row labels of the frame, and
    each entry is NaN when none of the customer's variables is 1, and
    otherwise a candidate coupon whose variable is 1. *)
Lemma read_back_spec df coupons f varValue :
  formulate df coupons = Ok f ->
  (forall j, j ∈ coupons -> 0 <= j) ->
  exists col, read_back f varValue df = Ok col /\
    col.*1 = index df /\
    forall i o, (i, o) ∈ col ->
      (o = None /\ forall j, j ∈ coupons -> is_one (varValue (i, j)) = false) \/
      (exists j, j ∈ coupons /\ is_one (varValue (i, j)) = true /\
                 o = Some (inject_Z j)).
Proof.
  intros Hf Hpos. unfold read_back.
  rewrite read_vars_marks.
  2:{ intros [[i j] xv] [[Hi Hj] ->]%(formulate_variables _ _ _ _ Hf) _.
      simpl in *.
      apply parse_x_name; [by apply (index_nonneg df) | auto]. }
  eexists. split; [done|].
  destruct (marks_spec varValue (variables (x (inputs f)) (opt_model f)).*1
              (map (fun i => (i, None)) (index df))) as [Hk Hcol].
  { rewrite index_keys. apply index_NoDup. }
  { intros k (kv & -> & Hkv)%list_elem_of_fmap. rewrite index_keys.
    by apply (formulate_variables _ _ _ _ Hf) in Hkv as [[? _] _]. }
  split; [by rewrite Hk, index_keys|].
  intros i o Hin. destruct (Hcol i o Hin) as [[Hc Hnone]|(j & Hj & H1 & ->)].
  - left. apply list_elem_of_fmap in Hc as (i' & [= <- ->] & Hi). split; [done|].
    intros j Hj. apply Hnone.
    apply list_elem_of_fmap.
    exists ((i, j), mkLpVariable (x_name i j) (Some 0%Q) (Some 1%Q) LpInteger).
    split; [done|]. by apply (formulate_variables _ _ _ _ Hf).
  - right. exists j. split; [|done].
    apply list_elem_of_fmap in Hj as (kv & Hkv & Hin').
    apply (formulate_variables _ _ _ _ Hf) in Hin' as [[_ Hj] _].
    by rewrite <- Hkv in Hj.
Qed.

Lemma Qeq_bool_one q : Qeq_bool q 1 = true <-> (q == 1)%Q.
Proof. apply Qeq_bool_iff. Qed.

(** What cell 10 leaves in [coupon_opt] for a feasible solution, position by
    position. *)
Lemma read_back_feasible df coupons f v :
  formulate df coupons = Ok f -> NoDup coupons -> coupons <> [] ->
  (forall j, j ∈ coupons -> 0 <= j) -> feasible f v ->
  exists col js,
    read_back f (fun k => Some (v k)) df = Ok col /\
    col = zip (index df) (map (fun j => Some (inject_Z j)) js) /\
    length js = length (rows df) /\
    Forall (fun j => j ∈ coupons) js /\
    forall i j, i ∈ index df -> j ∈ coupons ->
                (v (i, j) == indicator js (i, j))%Q.
Proof.
  intros Hf Hnd Hne Hpos Hfeas.
  destruct (read_back_spec df coupons f (fun k => Some (v k)) Hf Hpos)
    as (col & Hcol & Hkeys & Hent).
  assert (Hlen : length col = length (rows df)).
  { by rewrite <- (length_fmap fst), Hkeys, index_length. }
  assert (Hpick : forall (k : nat) i o, col !! k = Some (i, o) ->
            i = Z.of_nat k /\ exists j, j ∈ coupons /\ o = Some (inject_Z j) /\
              forall j', j' ∈ coupons ->
                (v (i, j') == if decide (j' = j) then 1 else 0)%Q).
  { intros k i o Hk.
    assert (Hi : i = Z.of_nat k).
    { assert (Hk1 : col.*1 !! k = Some i) by (by rewrite list_lookup_fmap, Hk).
      rewrite Hkeys, index_lookup in Hk1; [by injection Hk1|].
      apply lookup_lt_Some in Hk. lia. }
    split; [done|].
    assert (Hiu : i ∈ index df).
    { rewrite Hi. apply elem_of_index. apply lookup_lt_Some in Hk. lia. }
    destruct (feasible_one df coupons f Hf Hnd v i Hne Hfeas Hiu)
      as (j1 & Hj1 & H1 & H0).
    destruct (Hent i o) as [[-> Hnone]|(j & Hj & Hone & ->)].
    { eapply list_elem_of_lookup_2, Hk. }
    - specialize (Hnone j1 Hj1). simpl in Hnone.
      apply Qeq_bool_one in H1. congruence.
    - simpl in Hone. apply Qeq_bool_one in Hone.
      assert (j = j1) as ->.
      { destruct (decide (j = j1)) as [|Hd]; [done|].
        pose proof (H0 j Hj Hd) as Hz. rewrite Hone in Hz. done. }
      exists j1. split; [done|]. split; [done|]. intros j' Hj'.
      destruct (decide (j' = j1)) as [->|Hd]; [done | by apply H0]. }
  exists col, (map (fun io : Z * option Q => py_int (default 0%Q io.2)) col).
  split; [done|]. split; [|split; [|split]].
  - apply list_eq. intros k. rewrite lookup_zip_with.
    destruct (col !! k) as [[i o]|] eqn:Hk.
    + destruct (Hpick k i o Hk) as (-> & j & Hj & -> & _).
      rewrite index_lookup by (apply lookup_lt_Some in Hk; lia). simpl.
      rewrite !list_lookup_fmap, Hk. simpl. by rewrite py_int_inject.
    + apply lookup_ge_None in Hk.
      rewrite (proj2 (lookup_ge_None (index df) k)); [done|].
      rewrite index_length. lia.
  - by rewrite length_map.
  - apply Forall_forall. intros j ([i o] & -> & Hin)%list_elem_of_fmap.
    apply list_elem_of_lookup_1 in Hin as (k & Hk).
    destruct (Hpick k i o Hk) as (_ & j & Hj & -> & _). simpl.
    by rewrite py_int_inject.
  - intros i j Hi Hj. apply elem_of_index in Hi.
    destruct (lookup_lt_is_Some_2 col (Z.to_nat i)) as [[i' o] Hk]; [lia|].
    destruct (Hpick _ i' o Hk) as (Hi' & j1 & Hj1 & -> & Hv).
    rewrite Z2Nat.id in Hi' by lia. subst i'.
    rewrite <- (Z2Nat.id i) at 2 by lia.
    rewrite (indicator_row _ _ j1).
    + by apply Hv.
    + rewrite list_lookup_fmap, Hk. simpl. by rewrite py_int_inject.
Qed.

(** X14.  Cell 10 on a feasible 0/1 solution [v] (candidate coupons
    pairwise distinct, not negative, at least one): the loop runs through,
    the column [coupon_opt] keeps the row labels of the frame, no entry is
    left NaN, and the entry of customer [i] is the one coupon [j] with
    [v (i, j) = 1]. *)
Theorem read_back_gives_chosen_coupon df coupons f v :
  formulate df coupons = Ok f -> NoDup coupons -> coupons <> [] ->
  (forall j, j ∈ coupons -> 0 <= j) -> feasible f v ->
  exists col, read_back f (fun k => Some (v k)) df = Ok col /\
    col.*1 = index df /\
    forall i o, (i, o) ∈ col ->
      exists j, j ∈ coupons /\ o = Some (inject_Z j) /\ (v (i, j) == 1)%Q /\
        forall j', j' ∈ coupons -> j' <> j -> (v (i, j') == 0)%Q.
Proof.
  intros Hf Hnd Hne Hpos Hfeas.
  destruct (read_back_spec df coupons f (fun k => Some (v k)) Hf Hpos)
    as (col & Hcol & Hkeys & Hent).
  exists col. split; [done|]. split; [done|]. intros i o Hin.
  assert (Hi : i ∈ index df).
  { rewrite <- Hkeys. apply list_elem_of_fmap. by exists (i, o). }
  destruct (feasible_one df coupons f Hf Hnd v i Hne Hfeas Hi)
    as (j1 & Hj1 & H1 & H0).
  destruct (Hent i o Hin) as [[-> Hnone]|(j & Hj & Hone & ->)].
  - specialize (Hnone j1 Hj1). simpl in Hnone.
    apply Qeq_bool_one in H1. congruence.
  - simpl in Hone. apply Qeq_bool_one in Hone.
    assert (j = j1) as ->.
    { destruct (decide (j = j1)) as [|Hd]; [done|].
      pose proof (H0 j Hj Hd) as Hz. rewrite Hone in Hz. done. }
    exists j1. done.
Qed.

Lemma read_back_gives_chosen_coupon_witness :
  exists f col,
    formulate notebook_df notebook_coupons = Ok f /\
    feasible f (indicator notebook_solution) /\
    read_back f (fun k => Some (indicator notebook_solution k)) notebook_df
      = Ok col /\
    col.*1 = index notebook_df /\
    forall i o, (i, o) ∈ col ->
      exists j, j ∈ notebook_coupons /\ o = Some (inject_Z j) /\
        (indicator notebook_solution (i, j) == 1)%Q /\
        forall j', j' ∈ notebook_coupons -> j' <> j ->
                   (indicator notebook_solution (i, j') == 0)%Q.
Proof.
  destruct (result_inv
              (fun f => forallb (fun nc => validb (snd nc)
                                             (indicator notebook_solution))
                          (p_constraints (opt_model f)) = true)
              (formulate notebook_df notebook_coupons)) as (f & Hf & Hv);
    [vm_compute; reflexivity|].
  assert (Hfeas : feasible f (indicator notebook_solution)).
  { apply feasible_check; [apply indicator_binary | exact Hv]. }
  destruct (read_back_gives_chosen_coupon notebook_df notebook_coupons f
              (indicator notebook_solution) Hf notebook_coupons_NoDup
              ltac:(done) notebook_coupons_nonneg Hfeas) as (col & H).
  exists f, col. split; [exact Hf|]. split; [exact Hfeas|]. exact H.
Defined.

(** X15.  Cells 10 to 12 on a feasible 0/1 solution [v]: the coupons read
    back go through cell 11, and the [roi_opt] of each customer is the
    coefficient the objective has for the one variable of that customer
    that is 1 in [v] (the objective evaluated with that variable alone at
    1).  [ROI_OPT] and the number cell 10 prints as
    [opt_model.objective.value()] add up the same numbers. *)
Theorem roi_opt_is_objective_coefficient df coupons f v :
  rows df <> [] ->
  formulate df coupons = Ok f -> NoDup coupons -> coupons <> [] ->
  (forall j, j ∈ coupons -> 0 <= j) -> feasible f v ->
  exists col obj df' roi,
    read_back f (fun k => Some (v k)) df = Ok col /\
    col.*1 = index df /\
    objective (opt_model f) = Some obj /\
    add_opt df col.*2 = Ok df' /\
    column df' roi_opt_label = Ok roi /\
    Forall2 (fun (io : Z * option Q) q =>
               exists j, io.2 = Some (inject_Z j) /\ j ∈ coupons /\
                 (v (io.1, j) == 1)%Q /\
                 (q == value obj (only (io.1, j)))%Q) col roi.
Proof.
  intros _ Hf Hnd Hne Hpos Hfeas.
  destruct (read_back_feasible df coupons f v Hf Hnd Hne Hpos Hfeas)
    as (col & js & Hcol & -> & Hlen & Hjs & Hv).
  destruct (policy_sums df coupons f Hf Hnd js v Hlen Hjs Hv)
    as (_ & _ & r & Hr & _).
  unfold policy_roi in Hr. inv_bind Hr as qs Hqs.
  destruct (add_opt_returns df (map inject_Z js) qs) as (df' & Hdf' & Hroi);
    [by rewrite length_map | done |].
  destruct (objective_value df coupons f Hf v) as (obj & Hobj & _).
  exists (zip (index df) (map (fun j => Some (inject_Z j)) js)), obj, df', qs.
  split; [done|]. split.
  { rewrite fst_zip; [done|]. rewrite length_map, index_length. lia. }
  split; [done|]. split.
  { rewrite snd_zip by (rewrite length_map, index_length; lia).
    rewrite <- (map_map inject_Z Some). exact Hdf'. }
  split; [done|].
  apply Forall2_same_length_lookup. split.
  { rewrite (traverse_length _ _ _ Hqs), !length_zip_with, !length_map,
      index_length. done. }
  intros k [i o] q Hk Hq.
  apply lookup_zip_with_Some in Hk as (i' & o' & [= <- <-] & Hi & Ho).
  rewrite list_lookup_fmap in Ho.
  destruct (js !! k) as [j|] eqn:Hj; [|done]. injection Ho as <-.
  pose proof (lookup_lt_Some _ _ _ Hi) as Hlt. rewrite index_length in Hlt.
  rewrite index_lookup in Hi by done. injection Hi as <-.
  assert (Hjc : j ∈ coupons).
  { eapply Forall_lookup_1 in Hjs; [|exact Hj]. done. }
  assert (Hk' : Z.of_nat k ∈ index df) by (apply elem_of_index; lia).
  exists j. split; [done|]. split; [done|]. simpl. split.
  { rewrite (Hv _ _ Hk' Hjc), (indicator_row _ _ j j Hj).
    by rewrite decide_True. }
  destruct (lookup_lt_is_Some_2 (rows df) k) as [r0 Hr0]; [done|].
  destruct (traverse_lookup _ _ _ k (r0, inject_Z j) Hqs) as (q' & Hq' & He).
  { apply lookup_zip_with_Some. exists r0, (inject_Z j).
    split; [done|]. split; [done|]. by rewrite list_lookup_fmap, Hj. }
  rewrite Hq in Hq'. injection Hq' as <-. simpl in He.
  apply expected_return_Ok in He as (p & cl & Hp & Hcl & ->).
  rewrite py_int_inject in Hp.
  destruct (objective_only df coupons f (Z.of_nat k) j Hf Hnd Hk' Hjc)
    as (obj' & Hobj' & Hval).
  rewrite Hobj in Hobj'. injection Hobj' as <-. rewrite Hval.
  unfold acceptance, cltv_of. rewrite (loc_lookup _ _ _ Hr0). simpl.
  rewrite Hp, Hcl. simpl. reflexivity.
Qed.

(** On the data of the notebook and the solution it prints, the first
    customer (CLTV 98) gets the coupon 11, whose acceptance is 0.48, and has
    [roi_opt = 41.76]. *)
Lemma roi_opt_is_objective_coefficient_witness :
  exists f col obj df' roi,
    formulate notebook_df notebook_coupons = Ok f /\
    feasible f (indicator notebook_solution) /\
    (read_back f (fun k => Some (indicator notebook_solution k)) notebook_df
       = Ok col /\
     col.*1 = index notebook_df /\
     objective (opt_model f) = Some obj /\
     add_opt notebook_df col.*2 = Ok df' /\
     column df' roi_opt_label = Ok roi /\
     Forall2 (fun (io : Z * option Q) q =>
                exists j, io.2 = Some (inject_Z j) /\ j ∈ notebook_coupons /\
                  (indicator notebook_solution (io.1, j) == 1)%Q /\
                  (q == value obj (only (io.1, j)))%Q) col roi) /\
    exists q, roi !! 0%nat = Some q /\ (q == 4176 # 100)%Q.
Proof.
  destruct (result_inv
              (fun f =>
                 forallb (fun nc => validb (snd nc) (indicator notebook_solution))
                   (p_constraints (opt_model f)) = true /\
                 match (col ← read_back f
                                (fun k => Some (indicator notebook_solution k))
                                notebook_df;
                        d ← add_opt notebook_df col.*2;
                        roi ← column d roi_opt_label;
                        Ok (roi !! 0%nat)) with
                 | Ok (Some q) => (q == 4176 # 100)%Q
                 | _ => False
                 end)
              (formulate notebook_df notebook_coupons)) as (f & Hf & Hv & Hq0);
    [vm_compute; split; reflexivity|].
  assert (Hfeas : feasible f (indicator notebook_solution)).
  { apply feasible_check; [apply indicator_binary | exact Hv]. }
  destruct (roi_opt_is_objective_coefficient notebook_df notebook_coupons f
              (indicator notebook_solution) ltac:(done) Hf
              notebook_coupons_NoDup ltac:(done) notebook_coupons_nonneg Hfeas)
    as (col & obj & df' & roi & Hcol & Hkeys & Hobj & Hdf' & Hroi & HF).
  exists f, col, obj, df', roi. split; [exact Hf|]. split; [exact Hfeas|].
  split; [exact (conj Hcol (conj Hkeys (conj Hobj (conj Hdf' (conj Hroi HF)))))|].
  rewrite Hcol in Hq0.
  change (match (d ← add_opt notebook_df col.*2;
                 roi ← column d roi_opt_label; Ok (roi !! 0%nat)) with
          | Ok (Some q) => (q == 4176 # 100)%Q
          | _ => False
          end) in Hq0.
  rewrite Hdf' in Hq0.
  change (match (roi ← column df' roi_opt_label; Ok (roi !! 0%nat)) with
          | Ok (Some q) => (q == 4176 # 100)%Q
          | _ => False
          end) in Hq0.
  rewrite Hroi in Hq0.
  change (match roi !! 0%nat with
          | Some q => (q == 4176 # 100)%Q
          | None => False
          end) in Hq0.
  destruct (roi !! 0%nat) as [q|]; [|destruct Hq0].
  exists q. split; [reflexivity | exact Hq0].
Defined.

Lemma apply_rows_opt_nan (rs : list Series) (co : list (option Q)) (k : nat) :
  (k < length rs)%nat -> co !! k = Some None ->
  (forall (k' : nat) r q, rs !! k' = Some r -> co !! k' = Some (Some q) ->
     is_ok (series_get r (prob_coupon (py_int q)))) ->
  apply_rows_opt rs co = Raise ValueError.
Proof.
  revert co k. induction rs as [|r rs IH]; intros co k Hk Hco Hok; simpl in Hk.
  { lia. }
  destruct co as [|o co]; [done|].
  destruct o as [q|]; [|done].
  destruct k as [|k]; [done|]. simpl in Hco.
  change (apply_rows_opt (r :: rs) (Some q :: co))
    with (p ← series_get r (prob_coupon (py_int q));
          ps ← apply_rows_opt rs co; Ok (p :: ps)).
  destruct (is_ok_Ok _ (Hok 0%nat r q eq_refl eq_refl)) as [p ->]. simpl.
  rewrite (IH co k); [done | lia | done |].
  intros k' r' q' Hr' Hq'. by apply (Hok (S k') r' q').
Qed.

(** X16.  If, after [solve()], none of the variables of some customer
    [i0] is 1 (the solver has not set them, or the program has no
    solution), then, no candidate coupon being negative, cell 10 still runs
    through but leaves NaN in [coupon_opt] for [i0], and cell 11 raises
    [ValueError] on [int(NaN)]. *)
Theorem unassigned_customer_breaks_roi df coupons f varValue i0 :
  formulate df coupons = Ok f ->
  (forall j, j ∈ coupons -> 0 <= j) ->
  i0 ∈ index df ->
  (forall j, j ∈ coupons -> is_one (varValue (i0, j)) = false) ->
  exists col, read_back f varValue df = Ok col /\
    col.*1 = index df /\
    (i0, None) ∈ col /\
    ROI_OPT df col.*2 = Raise ValueError.
Proof.
  intros Hf Hpos Hi0 Hnone.
  destruct (read_back_spec df coupons f varValue Hf Hpos)
    as (col & Hcol & Hkeys & Hent).
  destruct (formulate_spec _ _ _ Hf) as (_ & _ & Hok & _).
  exists col. split; [done|]. split; [done|].
  assert (Hlen : length col = length (rows df)).
  { by rewrite <- (length_fmap fst), Hkeys, index_length. }
  pose proof (proj1 (elem_of_index df i0) Hi0) as Hr0.
  destruct (lookup_lt_is_Some_2 col (Z.to_nat i0)) as [[i o] Hk]; [lia|].
  assert (i = i0) as ->.
  { assert (Hk1 : col.*1 !! Z.to_nat i0 = Some i)
      by (by rewrite list_lookup_fmap, Hk).
    rewrite Hkeys, index_lookup in Hk1 by lia. injection Hk1 as <-. lia. }
  assert (o = None) as ->.
  { destruct (Hent i0 o) as [[-> _]|(j & Hj & Hone & _)]; [|done|].
    - eapply list_elem_of_lookup_2, Hk.
    - rewrite Hnone in Hone by done. done. }
  split; [eapply list_elem_of_lookup_2, Hk|].
  unfold ROI_OPT, add_opt.
  rewrite (apply_rows_opt_nan _ _ (Z.to_nat i0)); [done | lia | |].
  - by rewrite list_lookup_fmap, Hk.
  - intros k' r q Hr Hq. rewrite list_lookup_fmap in Hq.
    destruct (col !! k') as [[i' o']|] eqn:Hk'; [|done]. simpl in Hq.
    injection Hq as ->.
    assert (i' = Z.of_nat k') as ->.
    { assert (Hk1 : col.*1 !! k' = Some i')
        by (by rewrite list_lookup_fmap, Hk').
      rewrite Hkeys, index_lookup in Hk1; [by injection Hk1|].
      apply lookup_lt_Some in Hr. lia. }
    destruct (Hent (Z.of_nat k') (Some q)) as [[? _]|(j & Hj & _ & [= ->])];
      [|done|].
    + eapply list_elem_of_lookup_2, Hk'.
    + rewrite py_int_inject.
      destruct (Hok (Z.of_nat k') j) as (_ & _ & p & cl & Hp & _); [|done|].
      { apply elem_of_index. apply lookup_lt_Some in Hr. lia. }
      unfold acceptance in Hp. rewrite (loc_lookup _ _ _ Hr) in Hp.
      simpl in Hp. by rewrite Hp.
Qed.

Lemma unassigned_customer_breaks_roi_witness :
  exists f col,
    formulate notebook_df notebook_coupons = Ok f /\
    read_back f (fun _ => None) notebook_df = Ok col /\
    col.*1 = index notebook_df /\
    (0, None) ∈ col /\
    ROI_OPT notebook_df col.*2 = Raise ValueError.
Proof.
  destruct (result_inv (fun _ => True)
              (formulate notebook_df notebook_coupons)) as (f & Hf & _);
    [vm_compute; exact I|].
  destruct (unassigned_customer_breaks_roi notebook_df notebook_coupons f
              (fun _ => None) 0 Hf notebook_coupons_nonneg)
    as (col & H).
  - apply (bool_decide_unpack (0 ∈ index notebook_df)). vm_compute. exact I.
  - intros j _. reflexivity.
  - exists f, col. split; [exact Hf | exact H].
Defined.
